(** * PCA9685_Driver: a shallow embedding of the register-level driver

    The development follows [src/PCA9685_Driver.h] and
    [src/PCA9685_Driver.cpp].  The driver object, the two-wire bus it
    talks to and the chip registers behind the bus are explicit state;
    every member function of the class is a function on that state.

    Conventions.
    - Unsigned machine integers ([uint8_t], [uint16_t], [uint32_t]) are
      values of [Z] together with their wrap-around, written out where a
      conversion happens.  [int] is taken to be 32 bits wide, as on the
      32-bit cores; the expression [4096 * (prescale + 1)] does not fit
      a 16-bit [int].
    - [float] is IEEE 754 binary32 and [double] is binary64, both given
      by the operations of the standard library's [SpecFloat] (round to
      nearest, ties to even).
    - A conversion from floating point to an integer type whose result
      is not representable is undefined in C++; the embedding makes such
      a call fail ([None]).
    - [ENABLE_DEBUG_OUTPUT] is defined in the source, so the register
      reads that only feed [Serial.print] are part of the bus traffic;
      the printing itself is not modelled. *)

From Stdlib Require Import ZArith List Bool Lia QArith Qround Qpower Lqa.
From Stdlib Require Import Floats.SpecFloat.
Import ListNotations.
Open Scope Z_scope.

(** ** Machine integers *)

Definition to_uint8 (x : Z) : Z := x mod 256.
Definition UINT32_MAX : Z := 4294967295.

(** ** Floating point

    Values are [spec_float]s; a finite one is a sign, a mantissa and an
    exponent, read as the rational [+/- m * 2^e]. *)

Definition bpow (e : Z) : Q := (2 ^ e)%Q.

(** [m * 2^e] *)
Definition dy (m e : Z) : Q := (inject_Z m * bpow e)%Q.

Definition F2Q (s : bool) (m : positive) (e : Z) : Q := dy (cond_Zopp s (Z.pos m)) e.

(** The exact rational value of a finite float; 0 for the others. *)
Definition value (x : spec_float) : Q :=
  match x with
  | S754_finite s m e => F2Q s m e
  | _ => 0%Q
  end.

Definition is_finite (x : spec_float) : bool :=
  match x with
  | S754_finite _ _ _ | S754_zero _ => true
  | _ => false
  end.

Definition is_nan (x : spec_float) : bool :=
  match x with S754_nan => true | _ => false end.

Module Float.

Definition float : Type := spec_float.
Definition double : Type := spec_float.

(** binary32 *)
Definition prec32 : Z := 24.
Definition emax32 : Z := 128.
(** binary64 *)
Definition prec64 : Z := 53.
Definition emax64 : Z := 1024.

(** Integer to [float]: the nearest binary32 value. *)
Definition of_int (n : Z) : float := binary_normalize prec32 emax32 n 0 false.

(** Integer to [double]. *)
Definition double_of_int (n : Z) : double := binary_normalize prec64 emax64 n 0 false.

(** [float] to [double]: exact, the mantissa is widened. *)
Definition to_double (x : float) : double :=
  match x with
  | S754_finite s m e => binary_round prec64 emax64 s m e
  | _ => x
  end.

(** [double] to [float]: rounds to the nearest binary32 value. *)
Definition of_double (x : double) : float :=
  match x with
  | S754_finite s m e => binary_round prec32 emax32 s m e
  | _ => x
  end.

Definition mul (x y : float) : float := SFmul prec32 emax32 x y.
Definition div (x y : float) : float := SFdiv prec32 emax32 x y.
Definition ltb (x y : float) : bool := SFltb x y.
Definition gtb (x y : float) : bool := SFltb y x.

Definition dadd (x y : double) : double := SFadd prec64 emax64 x y.
Definition dsub (x y : double) : double := SFsub prec64 emax64 x y.

(** The literal [0.5], a [double]. *)
Definition half : double := S754_finite false 4503599627370496 (-53).

(** The integer part of a finite value (rounding toward zero). *)
Definition truncate (x : spec_float) : option Z :=
  match x with
  | S754_zero _ => Some 0
  | S754_finite s m (Zneg k) => Some (cond_Zopp s (Z.pos m / 2 ^ Z.pos k))
  | S754_finite s m e => Some (cond_Zopp s (Z.pos m * 2 ^ e))
  | _ => None
  end.

(** [(uint8_t) x] and [(uint32_t) x]: defined when the integer part
    fits the target type. *)
Definition to_unsigned (max : Z) (x : spec_float) : option Z :=
  match truncate x with
  | Some n => if (0 <=? n) && (n <=? max) then Some n else None
  | None => None
  end.

Definition to_uint8 (x : float) : option Z := to_unsigned 255 x.
Definition to_uint32 (x : float) : option Z := to_unsigned UINT32_MAX x.

(** [x] is a positive, finite, well-formed binary32 number of value [v]. *)
Definition positive32 (x : float) (v : Q) : Prop :=
  exists m e, x = S754_finite false m e /\ bounded prec32 emax32 m e = true /\
              (F2Q false m e == v)%Q.


End Float.

(** ** Register map and bit masks ([PCA9685_Driver.h]) *)

Definition OSC_FREQ : Z := 25000000.

Definition PCA9685_I2C_ADDR : Z := 0x40.
Definition PCA9685_I2C_ALL_CALL : Z := 0x70.
Definition PCA9685_SUB_CALL_1 : Z := 0x71.
Definition PCA9685_SUB_CALL_2 : Z := 0x72.
Definition PCA9685_SUB_CALL_3 : Z := 0x73.

Definition PCA9685_MODE1 : Z := 0x00.
Definition PCA9685_MODE2 : Z := 0x01.
Definition PCA9685_SUBADR1 : Z := 0x02.
Definition PCA9685_SUBADR2 : Z := 0x03.
Definition PCA9685_SUBADR3 : Z := 0x04.
Definition PCA9685_ALLCALLADR : Z := 0x05.
Definition PCA9685_LED0_ON_L : Z := 0x06.
Definition PCA9685_LED0_ON_H : Z := 0x07.
Definition PCA9685_LED0_OFF_L : Z := 0x08.
Definition PCA9685_LED0_OFF_H : Z := 0x09.
Definition PCA9685_ALL_LED_ON_L : Z := 0xFA.
Definition PCA9685_ALL_LED_ON_H : Z := 0xFB.
Definition PCA9685_ALL_LED_OFF_L : Z := 0xFC.
Definition PCA9685_ALL_LED_OFF_H : Z := 0xFD.
Definition PCA9685_PRESCALE : Z := 0xFE.
Definition PCA9685_TESTMODE : Z := 0xFF.

Definition MODE1_ALLCALL : Z := Z.shiftl 1 0.
Definition MODE1_SUB3 : Z := Z.shiftl 1 1.
Definition MODE1_SUB2 : Z := Z.shiftl 1 2.
Definition MODE1_SUB1 : Z := Z.shiftl 1 3.
Definition MODE1_SLEEP : Z := Z.shiftl 1 4.
Definition MODE1_AI : Z := Z.shiftl 1 5.
Definition MODE1_EXTCLK : Z := Z.shiftl 1 6.
Definition MODE1_RESTART : Z := Z.shiftl 1 7.

Definition MODE2_OUTNE_L : Z := Z.shiftl 1 0.
Definition MODE2_OUTNE_H : Z := Z.shiftl 1 1.
Definition MODE2_OUTDRV : Z := Z.shiftl 1 2.
Definition MODE2_OCH : Z := Z.shiftl 1 3.
Definition MODE2_INVRT : Z := Z.shiftl 1 4.

Inductive EAddressType : Type :=
| Normal
| AllCall
| SubCall1
| SubCall2
| SubCall3.

Inductive EOutputType : Type :=
| OpenDrain
| TotemPole.

(** [#define ENABLE_DEBUG_OUTPUT] at the top of the implementation. *)
Definition ENABLE_DEBUG_OUTPUT : bool := true.

(** ** The two-wire bus and the chips behind it

    [TwoWire] is the Arduino bus object the driver borrows.  The model
    keeps the transmit buffer that [beginTransmission]/[write] fill, the
    receive buffer that [requestFrom] fills, and, per bus address, a
    register file: a transmission [r :: data] selects register [r] and
    stores [data] in [r], [r+1], ...; a request returns the bytes from
    the selected register on.  Every completed transaction, and every
    [delay], is appended to [history]. *)

Inductive BusEvent : Type :=
| Transmit (address : Z) (bytes : list Z)
| Request (address : Z) (quantity : Z)
| Delay (ms : Z).

Record Device : Type := {
  pointer : Z;
  registers : Z -> Z
}.

Record TwoWire : Type := {
  txAddress : Z;
  txBuffer : list Z;
  rxBuffer : list Z;
  devices : Z -> Device;
  history : list BusEvent
}.

Definition update {A : Type} (f : Z -> A) (k : Z) (v : A) : Z -> A :=
  fun x => if x =? k then v else f x.

Fixpoint store (regs : Z -> Z) (r : Z) (data : list Z) : Z -> Z :=
  match data with
  | [] => regs
  | b :: rest => store (update regs (r mod 256) b) (r + 1) rest
  end.

Fixpoint fetch (regs : Z -> Z) (r : Z) (n : nat) : list Z :=
  match n with
  | O => []
  | S k => regs (r mod 256) :: fetch regs (r + 1) k
  end.

Definition deliver (dev : Device) (bytes : list Z) : Device :=
  match bytes with
  | [] => dev
  | r :: data => {| pointer := r; registers := store (registers dev) r data |}
  end.

Module Wire.

Definition beginTransmission (address : Z) (w : TwoWire) : TwoWire :=
  {| txAddress := address; txBuffer := [];
     rxBuffer := rxBuffer w; devices := devices w; history := history w |}.

Definition write (b : Z) (w : TwoWire) : TwoWire :=
  {| txAddress := txAddress w; txBuffer := txBuffer w ++ [to_uint8 b];
     rxBuffer := rxBuffer w; devices := devices w; history := history w |}.

Definition endTransmission (w : TwoWire) : TwoWire :=
  {| txAddress := txAddress w; txBuffer := [];
     rxBuffer := rxBuffer w;
     devices := update (devices w) (txAddress w)
                  (deliver (devices w (txAddress w)) (txBuffer w));
     history := history w ++ [Transmit (txAddress w) (txBuffer w)] |}.

Definition requestFrom (address quantity : Z) (w : TwoWire) : TwoWire :=
  {| txAddress := txAddress w; txBuffer := txBuffer w;
     rxBuffer := fetch (registers (devices w address))
                   (pointer (devices w address)) (Z.to_nat quantity);
     devices := devices w;
     history := history w ++ [Request address quantity] |}.

(** [read] returns the next received byte, or -1 when there is none. *)
Definition read (w : TwoWire) : Z * TwoWire :=
  match rxBuffer w with
  | [] => (-1, w)
  | b :: rest =>
      (b, {| txAddress := txAddress w; txBuffer := txBuffer w;
             rxBuffer := rest; devices := devices w; history := history w |})
  end.

(** [begin] only claims the bus pins. *)
Definition begin (w : TwoWire) : TwoWire := w.

End Wire.

(** Arduino's [delay(ms)], recorded in the history of the bus. *)
Definition elapse (ms : Z) (w : TwoWire) : TwoWire :=
  {| txAddress := txAddress w; txBuffer := txBuffer w;
     rxBuffer := rxBuffer w; devices := devices w;
     history := history w ++ [Delay ms] |}.

(** ** The driver object *)

Record PCA9685_Driver : Type := {
  _i2c : TwoWire;
  _i2c_address : Z;
  _i2c_allCall_address : Z;
  _i2c_sub1_address : Z;
  _i2c_sub2_address : Z;
  _i2c_sub3_address : Z;
  _osillator_freq : Z
}.

(** Constructor [PCA9685_Driver(i2c_address, i2c)]; the oscillator field
    has no initialiser in the class, [begin] sets it. *)
Definition new_driver (i2c_address : Z) (i2c : TwoWire) (osc : Z) : PCA9685_Driver :=
  {| _i2c := i2c;
     _i2c_address := i2c_address;
     _i2c_allCall_address := PCA9685_I2C_ALL_CALL;
     _i2c_sub1_address := PCA9685_SUB_CALL_1;
     _i2c_sub2_address := PCA9685_SUB_CALL_2;
     _i2c_sub3_address := PCA9685_SUB_CALL_3;
     _osillator_freq := osc |}.

Definition with_i2c (this : PCA9685_Driver) (w : TwoWire) : PCA9685_Driver :=
  {| _i2c := w;
     _i2c_address := _i2c_address this;
     _i2c_allCall_address := _i2c_allCall_address this;
     _i2c_sub1_address := _i2c_sub1_address this;
     _i2c_sub2_address := _i2c_sub2_address this;
     _i2c_sub3_address := _i2c_sub3_address this;
     _osillator_freq := _osillator_freq this |}.

Definition with_osillator_freq (this : PCA9685_Driver) (f : Z) : PCA9685_Driver :=
  {| _i2c := _i2c this;
     _i2c_address := _i2c_address this;
     _i2c_allCall_address := _i2c_allCall_address this;
     _i2c_sub1_address := _i2c_sub1_address this;
     _i2c_sub2_address := _i2c_sub2_address this;
     _i2c_sub3_address := _i2c_sub3_address this;
     _osillator_freq := f |}.

(** ** A state monad with failure for the member functions *)

Definition M (A : Type) : Type := PCA9685_Driver -> option (A * PCA9685_Driver).

Definition ret {A : Type} (a : A) : M A := fun this => Some (a, this).

Definition bind {A B : Type} (c : M A) (k : A -> M B) : M B :=
  fun this =>
    match c this with
    | Some (a, this') => k a this'
    | None => None
    end.

Definition undefined {A : Type} : M A := fun _ => None.

Definition lift {A : Type} (o : option A) : M A :=
  match o with
  | Some a => ret a
  | None => undefined
  end.

Declare Scope driver_scope.
Delimit Scope driver_scope with driver.
Notation "x <- c ;; k" := (bind c (fun x => k))
  (at level 61, c at next level, right associativity) : driver_scope.
Notation "c ;; k" := (bind c (fun _ => k))
  (at level 61, right associativity) : driver_scope.
Open Scope driver_scope.

(** A call on the bus object that returns nothing. *)
Definition i2c (f : TwoWire -> TwoWire) : M unit :=
  fun this => Some (tt, with_i2c this (f (_i2c this))).

Definition i2c_read : M Z :=
  fun this => let '(b, w) := Wire.read (_i2c this) in Some (b, with_i2c this w).

Definition this_field {A : Type} (f : PCA9685_Driver -> A) : M A :=
  fun this => Some (f this, this).

Definition when (b : bool) (c : M unit) : M unit := if b then c else ret tt.

Definition delay (ms : Z) : M unit := i2c (elapse ms).

(** ** Private members *)

Definition getAddress (this : PCA9685_Driver) (addressType : EAddressType) : Z :=
  match addressType with
  | AllCall => _i2c_allCall_address this
  | SubCall1 => _i2c_sub1_address this
  | SubCall2 => _i2c_sub2_address this
  | SubCall3 => _i2c_sub3_address this
  | Normal => _i2c_address this
  end.

Definition readByte (reg_addr : Z) : M Z :=
  address <- this_field _i2c_address ;;
  i2c (Wire.beginTransmission address) ;;
  i2c (Wire.write reg_addr) ;;
  i2c Wire.endTransmission ;;
  i2c (Wire.requestFrom address 1) ;;
  b <- i2c_read ;;
  ret (to_uint8 b).

Definition writeByte (addressType : EAddressType) (reg_addr data : Z) : M unit :=
  address <- this_field (fun this => getAddress this addressType) ;;
  i2c (Wire.beginTransmission address) ;;
  i2c (Wire.write reg_addr) ;;
  i2c (Wire.write data) ;;
  i2c Wire.endTransmission.

(** The read performed inside a [Serial.print] argument. *)
Definition debug_read (reg_addr : Z) : M unit :=
  when ENABLE_DEBUG_OUTPUT (_ <- readByte reg_addr ;; ret tt).

(** ** Public members *)

Definition getOscillFrequency : M Z := this_field _osillator_freq.

Definition setOscillFrequency (frequency : Z) : M unit :=
  fun this => Some (tt, with_osillator_freq this frequency).

Definition restart (addressType : EAddressType) : M unit :=
  writeByte addressType PCA9685_MODE1 MODE1_RESTART ;;
  delay 10.

Definition sleep (addressType : EAddressType) : M unit :=
  mode1 <- readByte PCA9685_MODE1 ;;
  writeByte addressType PCA9685_MODE1 (Z.lor mode1 MODE1_SLEEP).

Definition wakeUp (addressType : EAddressType) : M unit :=
  mode1 <- readByte PCA9685_MODE1 ;;
  writeByte addressType PCA9685_MODE1 (Z.land mode1 (Z.lnot MODE1_SLEEP)).

Definition setMode1 (value : Z) (addressType : EAddressType) : M unit :=
  debug_read PCA9685_MODE1 ;;
  writeByte addressType PCA9685_MODE1 value ;;
  debug_read PCA9685_MODE1.

Definition setMode2 (value : Z) (addressType : EAddressType) : M unit :=
  debug_read PCA9685_MODE2 ;;
  writeByte addressType PCA9685_MODE2 value ;;
  debug_read PCA9685_MODE2.

Definition readRegister (reg_addr : Z) : M Z := readByte reg_addr.

Definition writeRegister (reg_addr data : Z) (addressType : EAddressType) : M unit :=
  writeByte addressType reg_addr data.

(** The arithmetic shared, line for line, by [setExtClock] and
    [setPWMFrequency]. *)

(** [int upper_limit = (int)(_osillator_freq / 16384);] *)
Definition upper_limit (osc : Z) : Z := osc / 16384.

(** [frequency = frequency < 1 ? 1 : frequency > upper_limit ? upper_limit : frequency;] *)
Definition limit_frequency (osc : Z) (frequency : Float.float) : Float.float :=
  if Float.ltb frequency (Float.of_int 1) then Float.of_int 1
  else if Float.gtb frequency (Float.of_int (upper_limit osc))
       then Float.of_int (upper_limit osc)
       else frequency.

(** [_osillator_freq / (4096 * frequency)], a [float] division. *)
Definition quotient (osc : Z) (frequency : Float.float) : Float.float :=
  Float.div (Float.of_int osc) (Float.mul (Float.of_int 4096) frequency).

(** [float prescale_value = ((_osillator_freq / (4096 * frequency) + 0.5) - 1);] *)
Definition prescale_value (osc : Z) (frequency : Float.float) : Float.float :=
  Float.of_double
    (Float.dsub (Float.dadd (Float.to_double (quotient osc frequency)) Float.half)
                (Float.double_of_int 1)).

(** [prescale_value = prescale_value < 0x03 ? 0x03 : prescale_value > 0xff ? 0xff : prescale_value;] *)
Definition limit_prescale (prescale_value : Float.float) : Float.float :=
  if Float.ltb prescale_value (Float.of_int 0x03) then Float.of_int 0x03
  else if Float.gtb prescale_value (Float.of_int 0xff) then Float.of_int 0xff
       else prescale_value.

(** [(uint8_t)prescale_value] after the two limiting statements. *)
Definition prescaler (osc : Z) (frequency : Float.float) : option Z :=
  Float.to_uint8
    (limit_prescale (prescale_value osc (limit_frequency osc frequency))).

Definition setExtClock (frequency pwmFrequency : Float.float)
    (addressType : EAddressType) : M unit :=
  mode1 <- readByte PCA9685_MODE1 ;;
  let mode := to_uint8 (Z.lor (Z.land mode1 (Z.lnot MODE1_RESTART)) MODE1_SLEEP) in
  writeByte addressType PCA9685_MODE1 mode ;;
  let mode := to_uint8 (Z.lor mode MODE1_EXTCLK) in
  writeByte addressType PCA9685_MODE1 mode ;;
  osc <- lift (Float.to_uint32 frequency) ;;
  setOscillFrequency osc ;;
  osc <- this_field _osillator_freq ;;
  prescale <- lift (prescaler osc pwmFrequency) ;;
  writeByte addressType PCA9685_PRESCALE prescale ;;
  writeByte addressType PCA9685_MODE1
    (Z.lor (Z.lor (Z.land mode (Z.lnot MODE1_SLEEP)) MODE1_RESTART) MODE1_AI) ;;
  debug_read PCA9685_MODE1.

Definition setPWMFrequency (frequency : Float.float)
    (addressType : EAddressType) : M Float.float :=
  osc <- this_field _osillator_freq ;;
  prescale <- lift (prescaler osc frequency) ;;
  current_mode1 <- readByte PCA9685_MODE1 ;;
  debug_read PCA9685_MODE1 ;;
  writeByte addressType PCA9685_MODE1
    (Z.lor (Z.land current_mode1 (Z.lnot MODE1_RESTART)) MODE1_SLEEP) ;;
  writeByte addressType PCA9685_PRESCALE prescale ;;
  writeByte addressType PCA9685_MODE1 current_mode1 ;;
  delay 5 ;;
  writeByte addressType PCA9685_MODE1
    (Z.lor (Z.lor current_mode1 MODE1_RESTART) MODE1_AI) ;;
  debug_read PCA9685_MODE1 ;;
  osc <- this_field _osillator_freq ;;
  ret (Float.of_int (osc / (4096 * (prescale + 1)))).

Definition getPWMFrequency : M Float.float :=
  osc <- this_field _osillator_freq ;;
  prescale <- readByte PCA9685_PRESCALE ;;
  ret (Float.of_int (osc / (4096 * (prescale + 1)))).

Definition setOutputType (type : EOutputType) (addressType : EAddressType) : M unit :=
  mode <- readByte PCA9685_MODE2 ;;
  (* the two switch arms evaluate an expression and drop its value *)
  let _ := match type with
           | TotemPole => Z.lor mode MODE2_OUTDRV
           | OpenDrain => Z.land mode (Z.lnot MODE2_OUTDRV)
           end in
  writeByte addressType PCA9685_MODE2 mode ;;
  debug_read PCA9685_MODE2.

Definition setPWMOutput (output on off : Z) (addressType : EAddressType) : M unit :=
  address <- this_field (fun this => getAddress this addressType) ;;
  i2c (Wire.beginTransmission address) ;;
  i2c (Wire.write (PCA9685_LED0_ON_L + 4 * output)) ;;
  i2c (Wire.write (Z.land on 0xFF)) ;;
  i2c (Wire.write (Z.land (Z.shiftr on 8) 0xFF)) ;;
  i2c (Wire.write (Z.land off 0xFF)) ;;
  i2c (Wire.write (Z.land (Z.shiftr off 8) 0xFF)) ;;
  i2c Wire.endTransmission.

Definition setAllPWMOutputs (on off : Z) (addressType : EAddressType) : M unit :=
  address <- this_field (fun this => getAddress this addressType) ;;
  i2c (Wire.beginTransmission address) ;;
  i2c (Wire.write PCA9685_ALL_LED_ON_L) ;;
  i2c (Wire.write (Z.land on 0xFF)) ;;
  i2c (Wire.write (Z.land (Z.shiftr on 8) 0xFF)) ;;
  i2c (Wire.write (Z.land off 0xFF)) ;;
  i2c (Wire.write (Z.land (Z.shiftr off 8) 0xFF)) ;;
  i2c Wire.endTransmission.

Definition begin (frequency : Float.float) : M unit :=
  i2c Wire.begin ;;
  restart Normal ;;
  setOscillFrequency OSC_FREQ ;;
  _ <- setPWMFrequency frequency Normal ;;
  ret tt.

(** ** Observing the bus *)

(** The register [reg] of the chip answering at [address]. *)
Definition register (w : TwoWire) (address reg : Z) : Z :=
  registers (devices w address) (reg mod 256).

(** The bus after [readByte reg] addressed to [address]. *)
Definition after_read (address reg : Z) (w : TwoWire) : TwoWire :=
  {| txAddress := address; txBuffer := []; rxBuffer := [];
     devices := update (devices w) address
                  {| pointer := to_uint8 reg;
                     registers := registers (devices w address) |};
     history := history w ++ [Transmit address [to_uint8 reg]; Request address 1] |}.

(** The bus after [writeByte] of [data] to [reg] at [address]. *)
Definition after_write (address reg data : Z) (w : TwoWire) : TwoWire :=
  {| txAddress := address; txBuffer := []; rxBuffer := rxBuffer w;
     devices := update (devices w) address
                  {| pointer := to_uint8 reg;
                     registers := update (registers (devices w address))
                                    (to_uint8 reg mod 256) (to_uint8 data) |};
     history := history w ++ [Transmit address [to_uint8 reg; to_uint8 data]] |}.

(** The bus after one transmission of [bytes] to [address]. *)
Definition burst (address : Z) (bytes : list Z) (w : TwoWire) : TwoWire :=
  {| txAddress := address; txBuffer := []; rxBuffer := rxBuffer w;
     devices := update (devices w) address (deliver (devices w address) bytes);
     history := history w ++ [Transmit address bytes] |}.

(** The bus traffic of one [readByte]: the register is selected with a
    one-byte transmission, then one byte is requested. *)
Definition read_events (address reg : Z) : list BusEvent :=
  [Transmit address [reg]; Request address 1].

(** Every request in a piece of history goes to [address]. *)
Definition requests_to (address : Z) (events : list BusEvent) : Prop :=
  Forall (fun ev => match ev with
                    | Request a _ => a = address
                    | _ => True
                    end) events.

(** [this'] has seen exactly [events] on the bus since [this]. *)
Definition extends (this this' : PCA9685_Driver) (events : list BusEvent) : Prop :=
  history (_i2c this') = history (_i2c this) ++ events.

(** A bus on which every chip holds [mode1] in its mode-1 register and 0
    in the others, with nothing sent yet. *)
Definition quiet_bus (mode1 : Z) : TwoWire :=
  {| txAddress := 0; txBuffer := []; rxBuffer := [];
     devices := fun _ => {| pointer := 0;
                            registers := fun r => if r =? PCA9685_MODE1 then mode1 else 0 |};
     history := [] |}.

(** A driver at the default address, after [begin] has set the
    oscillator field to [osc]. *)
Definition sample_driver (mode1 osc : Z) : PCA9685_Driver :=
  new_driver PCA9685_I2C_ADDR (quiet_bus mode1) osc.

(** Two binary32 numbers used as sample arguments:
    147929 / 2048 = 72.23095703125 (a PWM frequency in Hz) and
    2000001 / 2 = 1000000.5 (an external clock frequency in Hz). *)
Definition frequency_72_23 : Float.float := S754_finite false 9467456 (-17).
Definition frequency_1000000_5 : Float.float := S754_finite false 16000008 (-4).

(** 1/2, a target below the lower limit. *)
Definition frequency_0_5 : Float.float := S754_finite false 8388608 (-24).

(** ** The three constructors

    [Wire] is the global bus object of the Arduino core, [unset] the
    indeterminate value of the oscillator field, which no constructor
    initialises. *)

(** [PCA9685_Driver()] *)
Definition PCA9685_Driver_0 (Wire : TwoWire) (unset : Z) : PCA9685_Driver :=
  new_driver PCA9685_I2C_ADDR Wire unset.

(** [PCA9685_Driver(uint8_t i2c_address)] *)
Definition PCA9685_Driver_1 (i2c_address : Z) (Wire : TwoWire) (unset : Z) : PCA9685_Driver :=
  new_driver i2c_address Wire unset.

(** [PCA9685_Driver(uint8_t i2c_address, TwoWire &i2c)] *)
Definition PCA9685_Driver_2 (i2c_address : Z) (i2c : TwoWire) (unset : Z) : PCA9685_Driver :=
  new_driver i2c_address i2c unset.

(** ** Sequences of calls on the public interface *)

(** One call of a public member function with its arguments. *)
Inductive Call : Type :=
| Begin (frequency : Float.float)
| Restart (addressType : EAddressType)
| Sleep (addressType : EAddressType)
| WakeUp (addressType : EAddressType)
| SetMode1 (value : Z) (addressType : EAddressType)
| SetMode2 (value : Z) (addressType : EAddressType)
| ReadRegister (reg_addr : Z)
| WriteRegister (reg_addr data : Z) (addressType : EAddressType)
| SetExtClock (frequency pwmFrequency : Float.float) (addressType : EAddressType)
| SetPWMFrequency (frequency : Float.float) (addressType : EAddressType)
| GetPWMFrequency
| SetOutputType (type : EOutputType) (addressType : EAddressType)
| SetPWMOutput (output on off : Z) (addressType : EAddressType)
| SetAllPWMOutputs (on off : Z) (addressType : EAddressType)
| GetOscillFrequency
| SetOscillFrequency (frequency : Z).

(** A call whose result the caller drops. *)
Definition discard {A : Type} (c : M A) : M unit := _ <- c ;; ret tt.

Definition call (c : Call) : M unit :=
  match c with
  | Begin frequency => begin frequency
  | Restart addressType => restart addressType
  | Sleep addressType => sleep addressType
  | WakeUp addressType => wakeUp addressType
  | SetMode1 value addressType => setMode1 value addressType
  | SetMode2 value addressType => setMode2 value addressType
  | ReadRegister reg_addr => discard (readRegister reg_addr)
  | WriteRegister reg_addr data addressType => writeRegister reg_addr data addressType
  | SetExtClock frequency pwmFrequency addressType =>
      setExtClock frequency pwmFrequency addressType
  | SetPWMFrequency frequency addressType => discard (setPWMFrequency frequency addressType)
  | GetPWMFrequency => discard getPWMFrequency
  | SetOutputType type addressType => setOutputType type addressType
  | SetPWMOutput output on off addressType => setPWMOutput output on off addressType
  | SetAllPWMOutputs on off addressType => setAllPWMOutputs on off addressType
  | GetOscillFrequency => discard getOscillFrequency
  | SetOscillFrequency frequency => setOscillFrequency frequency
  end.

Fixpoint calls (cs : list Call) : M unit :=
  match cs with
  | [] => ret tt
  | c :: rest => call c ;; calls rest
  end.

(** The five addresses of [this'] are those of [this]. *)
Definition same_addresses (this this' : PCA9685_Driver) : Prop :=
  _i2c_address this' = _i2c_address this /\
  _i2c_allCall_address this' = _i2c_allCall_address this /\
  _i2c_sub1_address this' = _i2c_sub1_address this /\
  _i2c_sub2_address this' = _i2c_sub2_address this /\
  _i2c_sub3_address this' = _i2c_sub3_address this.

(** The shapes of bus traffic the driver produces: a transmission of one,
    two or five bytes to one of its five addresses, a request for one byte
    at its primary address, a pause of 5 or 10 ms. *)
Definition driver_event (this : PCA9685_Driver) (ev : BusEvent) : Prop :=
  match ev with
  | Transmit address bytes =>
      (exists addressType, address = getAddress this addressType) /\
      (length bytes = 1 \/ length bytes = 2 \/ length bytes = 5)%nat /\
      Forall (fun b => 0 <= b < 256) bytes
  | Request address quantity => address = _i2c_address this /\ quantity = 1
  | Delay ms => ms = 5 \/ ms = 10
  end.

(** What a register read returns, without the state. *)
Definition returned {A : Type} (r : option (A * PCA9685_Driver)) : option A :=
  option_map fst r.

(** The bus [w] has the history of [w0] followed by traffic of those
    shapes only. *)
Definition traffic (this : PCA9685_Driver) (w0 w : TwoWire) : Prop :=
  exists events,
    history w = history w0 ++ events /\ Forall (driver_event this) events.

(** The calls that assign the oscillator field. *)
Definition sets_oscillator (c : Call) : bool :=
  match c with
  | Begin _ | SetExtClock _ _ _ | SetOscillFrequency _ => true
  | _ => false
  end.

(** The calls that only report: [readRegister], [getPWMFrequency],
    [getOscillFrequency]. *)
Definition getter (c : Call) : bool :=
  match c with
  | ReadRegister _ | GetPWMFrequency | GetOscillFrequency => true
  | _ => false
  end.

(** ** The arithmetic as the specification words it *)

(** Round half up, subtract one, keep within [3, 255]. *)
Definition round_minus_one_clamped (q : Q) : Z :=
  Z.max 3 (Z.min 255 (Qfloor (q + (1 # 2)) - 1)).

(** [floor(osc / (4096 * f) + 0.5) - 1] clamped to [3, 255], over the
    rationals. *)
Definition spec_prescale (osc : Z) (f : Q) : Z :=
  round_minus_one_clamped (inject_Z osc / (4096 * f)).

(** [osc / (4096 * (prescale + 1))] over the rationals. *)
Definition spec_actual_frequency (osc prescale : Z) : Q :=
  (inject_Z osc / (4096 * (inject_Z prescale + 1)))%Q.

(** ** Vocabulary for the rounding proofs *)

Module Round.

(** One normalisation step on mantissa and exponent: drop the low bits
    that the format has no room for. *)
Definition shrink (prec emax m e : Z) : Z * Z :=
  let n := fexp prec emax (Zdigits2 m + e) - e in
  if 0 <? n then (m / 2 ^ n, e + n) else (m, e).

Definition finish (prec emax : Z) (s : bool) (m e : Z) : spec_float :=
  match m with
  | Z0 => S754_zero s
  | Zpos p => if e <=? emax - prec then S754_finite s p e else S754_infinity s
  | Zneg _ => S754_nan
  end.

Definition pack (prec emax : Z) (s : bool) (m e : Z) : spec_float :=
  finish prec emax s (fst (shrink prec emax m e)) (snd (shrink prec emax m e)).

(** [v] is a number of the format, strictly below its largest binade. *)
Definition representable (prec emax : Z) (v : Q) : Prop :=
  exists m0 e0, (v == dy m0 e0)%Q /\ Z.abs m0 < 2 ^ prec /\
                emin prec emax <= e0 < emax - prec.

End Round.

(** * Proofs *)

(** ** Powers of two, binary digits and dyadic rationals *)


Lemma bpow_pos e : (0 < bpow e)%Q.
Proof. apply Qpower_0_lt. reflexivity. Qed.

Lemma bpow_add a b : (bpow (a + b) == bpow a * bpow b)%Q.
Proof. apply Qpower_plus. discriminate. Qed.

Lemma bpow_Z n : 0 <= n -> (inject_Z (2 ^ n) == bpow n)%Q.
Proof. intros H. unfold bpow. rewrite Zpower_Qpower by assumption. reflexivity. Qed.

Lemma bpow_0 : (bpow 0 == 1)%Q.
Proof. reflexivity. Qed.


Lemma dy_shift m k e : 0 <= k -> (dy (m * 2 ^ k) e == dy m (e + k))%Q.
Proof.
  intros Hk. unfold dy. rewrite inject_Z_mult, bpow_Z by assumption.
  rewrite (Z.add_comm e k), bpow_add. ring.
Qed.

Lemma dy_same_exp a b e : (dy a e == dy b e)%Q <-> a = b.
Proof.
  unfold dy. pose proof (bpow_pos e) as P. split.
  - intros H. apply Qmult_inj_r in H; [|intros K; rewrite K in P; inversion P].
    apply (proj1 (inject_Z_injective a b)) in H. exact H.
  - intros ->. reflexivity.
Qed.

Lemma dy_le_same_exp a b e : (dy a e <= dy b e)%Q <-> a <= b.
Proof.
  unfold dy. pose proof (bpow_pos e) as P. split.
  - intros H. apply Qmult_le_r in H; [|exact P]. rewrite <- Zle_Qle in H. exact H.
  - intros H. apply Qmult_le_r; [exact P|]. rewrite <- Zle_Qle. exact H.
Qed.

Lemma dy_lt_same_exp a b e : (dy a e < dy b e)%Q <-> a < b.
Proof.
  unfold dy. pose proof (bpow_pos e) as P. split.
  - intros H. apply Qmult_lt_r in H; [|exact P]. rewrite <- Zlt_Qlt in H. exact H.
  - intros H. apply Qmult_lt_r; [exact P|]. rewrite <- Zlt_Qlt. exact H.
Qed.

(** bring two dyadic numbers to a common exponent *)
Lemma dy_align m e c : c <= e -> (dy m e == dy (m * 2 ^ (e - c)) c)%Q.
Proof.
  intros H. rewrite dy_shift by lia. replace (c + (e - c)) with e by lia. reflexivity.
Qed.

Lemma dy_Z m : (dy m 0 == inject_Z m)%Q.
Proof. unfold dy. rewrite bpow_0. ring. Qed.

Lemma dy_add a b e : (dy a e + dy b e == dy (a + b) e)%Q.
Proof. unfold dy. rewrite inject_Z_plus. ring. Qed.

Lemma dy_opp a e : (- dy a e == dy (- a) e)%Q.
Proof. unfold dy. rewrite inject_Z_opp. ring. Qed.

Lemma dy_sub a b e : (dy a e - dy b e == dy (a - b) e)%Q.
Proof. unfold dy. unfold Z.sub. rewrite inject_Z_plus, inject_Z_opp. ring. Qed.

Lemma dy_compare_same_exp a b e : (dy a e ?= dy b e)%Q = (a ?= b).
Proof.
  destruct (Z.compare_spec a b) as [E|L|G].
  - apply Qeq_alt. apply dy_same_exp. exact E.
  - apply Qlt_alt. apply dy_lt_same_exp. exact L.
  - apply Qgt_alt. apply dy_lt_same_exp. exact G.
Qed.

Lemma dy_compare a e b f c :
  c <= e -> c <= f ->
  (dy a e ?= dy b f)%Q = (a * 2 ^ (e - c) ?= b * 2 ^ (f - c)).
Proof.
  intros H1 H2. rewrite <- (dy_compare_same_exp _ _ c).
  rewrite <- !dy_align by assumption. reflexivity.
Qed.

Lemma Qfloor_dy_neg m k : 0 <= k -> Qfloor (dy m (- k)) = m / 2 ^ k.
Proof.
  intros Hk. rewrite Zdiv_Qdiv. apply Qfloor_comp.
  unfold dy, Qdiv. rewrite bpow_Z by assumption.
  unfold bpow. rewrite Qpower_opp. reflexivity.
Qed.

Lemma Qfloor_dy_pos m e : 0 <= e -> Qfloor (dy m e) = m * 2 ^ e.
Proof.
  intros He. rewrite <- (Qfloor_Z (m * 2 ^ e)). apply Qfloor_comp.
  rewrite <- dy_Z. rewrite dy_shift by assumption. reflexivity.
Qed.

(** powers of two *)
Lemma pow2_pos n : 0 <= n -> 0 < 2 ^ n.
Proof. intros. apply Z.pow_pos_nonneg; lia. Qed.

Lemma pow2_add a b : 0 <= a -> 0 <= b -> 2 ^ (a + b) = 2 ^ a * 2 ^ b.
Proof. intros. apply Z.pow_add_r; assumption. Qed.

Lemma pow2_le a b : a <= b -> 0 <= a -> 2 ^ a <= 2 ^ b.
Proof. intros. apply Z.pow_le_mono_r; lia. Qed.

Lemma pow2_lt a b : a < b -> 0 <= a -> 2 ^ a < 2 ^ b.
Proof. intros. apply Z.pow_lt_mono_r; lia. Qed.

Lemma pow2_lt_inv a b : 0 <= a -> 0 <= b -> 2 ^ a < 2 ^ b -> a < b.
Proof. intros Ha Hb H. apply Z.pow_lt_mono_r_iff in H; lia. Qed.

(** digits *)
Lemma digits2_pos_bounds p :
  2 ^ (Z.pos (digits2_pos p) - 1) <= Z.pos p < 2 ^ Z.pos (digits2_pos p).
Proof.
  induction p as [p IH|p IH|]; cbn [digits2_pos].
  - rewrite Pos2Z.inj_succ.
    replace (Z.succ (Z.pos (digits2_pos p)) - 1) with (Z.pos (digits2_pos p) - 1 + 1) by lia.
    rewrite Z.pow_succ_r by lia. rewrite pow2_add by lia. change (2^1) with 2. lia.
  - rewrite Pos2Z.inj_succ.
    replace (Z.succ (Z.pos (digits2_pos p)) - 1) with (Z.pos (digits2_pos p) - 1 + 1) by lia.
    rewrite Z.pow_succ_r by lia. rewrite pow2_add by lia. change (2^1) with 2. lia.
  - cbn. lia.
Qed.

Lemma Zdigits2_bounds m : 0 < m -> 2 ^ (Zdigits2 m - 1) <= m < 2 ^ Zdigits2 m.
Proof. destruct m; try lia. intros _. apply digits2_pos_bounds. Qed.

Lemma Zdigits2_pos m : 0 < m -> 0 < Zdigits2 m.
Proof. destruct m; cbn; lia. Qed.

Lemma Zdigits2_unique m d : 2 ^ (d - 1) <= m < 2 ^ d -> 0 < d -> Zdigits2 m = d.
Proof.
  intros H Hd.
  assert (Hm : 0 < m) by (pose proof (pow2_pos (d - 1)); lia).
  pose proof (Zdigits2_bounds m Hm) as B. pose proof (Zdigits2_pos m Hm) as P.
  destruct (Z.lt_trichotomy (Zdigits2 m) d) as [L|[E|G]]; [|exact E|].
  - pose proof (pow2_le (Zdigits2 m) (d - 1)). lia.
  - pose proof (pow2_le d (Zdigits2 m - 1)). lia.
Qed.

Lemma Zdigits2_le m n : 0 < m -> m <= n -> Zdigits2 m <= Zdigits2 n.
Proof.
  intros Hm Hn.
  pose proof (Zdigits2_bounds m Hm). pose proof (Zdigits2_bounds n ltac:(lia)).
  pose proof (Zdigits2_pos m Hm).
  destruct (Z_le_gt_dec (Zdigits2 m) (Zdigits2 n)); [assumption|].
  pose proof (pow2_le (Zdigits2 n) (Zdigits2 m - 1)).
  pose proof (Zdigits2_pos n ltac:(lia)). lia.
Qed.

Lemma Zdigits2_lt_pow m k : 0 < m -> 0 <= k -> (m < 2 ^ k <-> Zdigits2 m <= k).
Proof.
  intros Hm Hk. pose proof (Zdigits2_bounds m Hm). pose proof (Zdigits2_pos m Hm).
  split; intros.
  - destruct (Z_le_gt_dec (Zdigits2 m) k); [assumption|].
    pose proof (pow2_le k (Zdigits2 m - 1)). lia.
  - pose proof (pow2_le (Zdigits2 m) k). lia.
Qed.

Lemma Zdigits2_ge_pow m k : 0 < m -> 0 <= k -> (2 ^ k <= m <-> k < Zdigits2 m).
Proof.
  intros Hm Hk. pose proof (Zdigits2_lt_pow m k Hm Hk). lia.
Qed.

Lemma Zdigits2_mul_pow2 m k : 0 < m -> 0 <= k -> Zdigits2 (m * 2 ^ k) = Zdigits2 m + k.
Proof.
  intros Hm Hk. pose proof (Zdigits2_bounds m Hm). pose proof (Zdigits2_pos m Hm).
  apply Zdigits2_unique; [|lia].
  replace (Zdigits2 m + k - 1) with (Zdigits2 m - 1 + k) by lia.
  rewrite !pow2_add by lia. pose proof (pow2_pos k Hk). nia.
Qed.

Lemma Zdigits2_div_pow2 m k :
  0 < m -> 0 <= k < Zdigits2 m -> Zdigits2 (m / 2 ^ k) = Zdigits2 m - k.
Proof.
  intros Hm Hk. pose proof (Zdigits2_bounds m Hm).
  pose proof (pow2_pos k ltac:(lia)).
  apply Zdigits2_unique; [|lia]. split.
  - apply Z.div_le_lower_bound; [lia|].
    rewrite <- pow2_add by lia. replace (k + (Zdigits2 m - k - 1)) with (Zdigits2 m - 1) by lia. lia.
  - apply Z.div_lt_upper_bound; [lia|].
    rewrite <- pow2_add by lia. replace (k + (Zdigits2 m - k)) with (Zdigits2 m) by lia. lia.
Qed.

Lemma div_pow2_zero m k : 0 <= m -> Zdigits2 m <= k -> m / 2 ^ k = 0.
Proof.
  intros Hm Hk. destruct (Z.eq_dec m 0) as [->|N].
  - apply Z.div_0_l. pose proof (pow2_pos k). cbn in Hk. lia.
  - apply Z.div_small. pose proof (Zdigits2_pos m ltac:(lia)).
    pose proof (Zdigits2_lt_pow m k ltac:(lia) ltac:(lia)). lia.
Qed.

(** shifting right *)
Lemma shr_1_m mrs : 0 <= shr_m mrs -> shr_m (shr_1 mrs) = shr_m mrs / 2.
Proof.
  destruct mrs as [m r s]; cbn [shr_m]. intros H.
  destruct m as [|p|p]; [reflexivity| |lia].
  destruct p; cbn [shr_1 shr_m].
  - rewrite Pos2Z.inj_xI. apply Z.div_unique with (r := 1); lia.
  - apply Z.div_unique with (r := 0); lia.
  - reflexivity.
Qed.

Lemma iter_pos_shr_m n : forall mrs,
  0 <= shr_m mrs -> shr_m (iter_pos shr_1 n mrs) = shr_m mrs / 2 ^ Z.pos n.
Proof.
  assert (D : forall a, 0 <= a -> 0 <= a / 2) by (intros; apply Z.div_pos; lia).
  assert (P : forall k, 0 <= k -> forall a, 0 <= a -> 0 <= a / 2 ^ k).
  { intros k Hk a Ha. apply Z.div_pos; [lia|apply pow2_pos; lia]. }
  induction n as [n IH|n IH|]; intros mrs H; cbn [iter_pos].
  - rewrite IH, IH, shr_1_m by (rewrite ?IH, ?shr_1_m; auto; rewrite ?shr_1_m; auto;
       apply P; try lia; rewrite ?shr_1_m; auto).
    rewrite !Z.div_div by (try lia; apply pow2_pos; lia).
    f_equal. rewrite Pos2Z.inj_xI.
    replace (2 * Z.pos n + 1) with (1 + Z.pos n + Z.pos n) by lia.
    rewrite (pow2_add (1 + Z.pos n) (Z.pos n)), (pow2_add 1 (Z.pos n)) by lia.
    change (2 ^ 1) with 2. lia.
  - rewrite IH, IH by (rewrite ?IH; auto; apply P; try lia; auto).
    rewrite !Z.div_div by (try lia; apply pow2_pos; lia).
    f_equal. replace (Z.pos n~0) with (Z.pos n + Z.pos n) by lia.
    rewrite (pow2_add (Z.pos n) (Z.pos n)) by lia. lia.
  - rewrite shr_1_m by assumption. reflexivity.
Qed.

Lemma shr_1_exact m : 0 <= m -> (2 | m) ->
  shr_1 (Build_shr_record m false false) = Build_shr_record (m / 2) false false.
Proof.
  intros Hm [k Hk]. subst m.
  destruct k as [|k|k]; [reflexivity| |lia].
  rewrite Z.div_mul by lia.
  replace (Z.pos k * 2) with (Z.pos k~0) by lia. reflexivity.
Qed.

Lemma divide_half a k : 0 <= k -> (2 ^ (k + 1) | a) -> (2 ^ k | a / 2) /\ (2 | a).
Proof.
  intros Hk [c Hc]. subst a. rewrite pow2_add by lia. change (2 ^ 1) with 2.
  split.
  - exists c. replace (c * (2 ^ k * 2)) with ((c * 2 ^ k) * 2) by lia.
    rewrite Z.div_mul by lia. reflexivity.
  - exists (c * 2 ^ k). lia.
Qed.

Lemma iter_pos_shr_exact n : forall m,
  0 <= m -> (2 ^ Z.pos n | m) ->
  iter_pos shr_1 n (Build_shr_record m false false) =
  Build_shr_record (m / 2 ^ Z.pos n) false false.
Proof.
  induction n as [n IH|n IH|]; intros m Hm Hd; cbn [iter_pos].
  - replace (Z.pos n~1) with (Z.pos n + Z.pos n + 1) in * by lia.
    destruct (divide_half m (Z.pos n + Z.pos n) ltac:(lia) Hd) as [H1 H2].
    rewrite shr_1_exact by assumption.
    assert (H3 : (2 ^ Z.pos n | m / 2)).
    { eapply Z.divide_trans; [|exact H1]. exists (2 ^ Z.pos n). rewrite pow2_add by lia. reflexivity. }
    rewrite IH; [|apply Z.div_pos; lia|assumption].
    assert (H4 : (2 ^ Z.pos n | m / 2 / 2 ^ Z.pos n)).
    { destruct H1 as [c Hc]. rewrite Hc. rewrite pow2_add by lia.
      rewrite Z.mul_assoc. rewrite Z.div_mul by (pose proof (pow2_pos (Z.pos n)); lia).
      exists c. reflexivity. }
    rewrite IH; [|apply Z.div_pos; [apply Z.div_pos; lia|apply pow2_pos; lia]|assumption].
    f_equal. rewrite !Z.div_div by (try lia; try apply pow2_pos; try lia;
      pose proof (pow2_pos (Z.pos n)); nia).
    f_equal. rewrite !pow2_add by lia. change (2 ^ 1) with 2. lia.
  - replace (Z.pos n~0) with (Z.pos n + Z.pos n) in * by lia.
    assert (H3 : (2 ^ Z.pos n | m)).
    { eapply Z.divide_trans; [|exact Hd]. exists (2 ^ Z.pos n). rewrite pow2_add by lia. reflexivity. }
    rewrite IH by assumption.
    assert (H4 : (2 ^ Z.pos n | m / 2 ^ Z.pos n)).
    { destruct Hd as [c Hc]. rewrite Hc. rewrite pow2_add by lia.
      rewrite Z.mul_assoc. rewrite Z.div_mul by (pose proof (pow2_pos (Z.pos n)); lia).
      exists c. reflexivity. }
    rewrite IH; [|apply Z.div_pos; [lia|apply pow2_pos; lia]|assumption].
    f_equal. rewrite !Z.div_div by (try apply pow2_pos; lia).
    f_equal. rewrite !pow2_add by lia. lia.
  - apply shr_1_exact; assumption.
Qed.

Section Format.
Variables prec emax : Z.
Hypothesis Hprec : 0 < prec.
Hypothesis Hemax : prec < emax.

Abbreviation emin := (emin prec emax).
Abbreviation fexp := (fexp prec emax).
Abbreviation shrink := (Round.shrink prec emax).
Abbreviation finish := (Round.finish prec emax).
Abbreviation pack := (Round.pack prec emax).


Lemma fexp_ge g : g - prec <= fexp g /\ emin <= fexp g.
Proof. unfold SpecFloat.fexp. lia. Qed.

Lemma fexp_mono a b : a <= b -> fexp a <= fexp b.
Proof. unfold SpecFloat.fexp. lia. Qed.

Lemma fexp_succ a : fexp (a + 1) <= fexp a + 1.
Proof. unfold SpecFloat.fexp. lia. Qed.

Lemma fexp_lt g : emin < g -> fexp g < g.
Proof. unfold SpecFloat.fexp. lia. Qed.

Lemma shrink_nonneg m e : 0 <= m -> 0 <= fst (shrink m e).
Proof.
  intros Hm. unfold Round.shrink.
  destruct (0 <? fexp (Zdigits2 m + e) - e) eqn:E; cbn [fst]; [|assumption].
  apply Z.ltb_lt in E. apply Z.div_pos; [assumption|apply pow2_pos; lia].
Qed.

Lemma shr_record_of_loc_m m l : shr_m (shr_record_of_loc m l) = m.
Proof. destruct l as [|[]]; reflexivity. Qed.

Lemma shr_fexp_shrink m e l :
  0 <= m ->
  shr_m (fst (shr_fexp prec emax m e l)) = fst (shrink m e) /\
  snd (shr_fexp prec emax m e l) = snd (shrink m e).
Proof.
  intros Hm. unfold shr_fexp, Round.shrink, shr.
  destruct (fexp (Zdigits2 m + e) - e) as [|n|n] eqn:E; cbn [fst snd Z.ltb Z.compare].
  - split; [apply shr_record_of_loc_m|reflexivity].
  - split; [|reflexivity].
    rewrite iter_pos_shr_m by (rewrite shr_record_of_loc_m; exact Hm).
    rewrite shr_record_of_loc_m. reflexivity.
  - split; [apply shr_record_of_loc_m|reflexivity].
Qed.

Lemma shr_fexp_exact m e :
  0 <= m ->
  (fexp (Zdigits2 m + e) - e <= 0 \/ (2 ^ (fexp (Zdigits2 m + e) - e) | m)) ->
  shr_fexp prec emax m e loc_Exact =
  (Build_shr_record (fst (shrink m e)) false false, snd (shrink m e)).
Proof.
  intros Hm Hd. unfold shr_fexp, Round.shrink, shr.
  destruct (fexp (Zdigits2 m + e) - e) as [|n|n] eqn:E; cbn [fst snd Z.ltb Z.compare].
  - reflexivity.
  - destruct Hd as [Hd|Hd]; [lia|].
    cbn [shr_record_of_loc]. rewrite iter_pos_shr_exact by assumption. reflexivity.
  - reflexivity.
Qed.

Lemma round_nearest_even_bounds m l :
  m <= round_nearest_even m l <= m + 1.
Proof.
  destruct l as [|[]]; cbn [round_nearest_even]; try lia.
  destruct (Z.even m); lia.
Qed.

Lemma binary_round_aux_pack s mx ex lx :
  0 <= mx ->
  exists m', fst (shrink mx ex) <= m' <= fst (shrink mx ex) + 1 /\
    binary_round_aux prec emax s mx ex lx = pack s m' (snd (shrink mx ex)).
Proof.
  intros Hm. unfold binary_round_aux.
  destruct (shr_fexp_shrink mx ex lx Hm) as [H1 H2].
  destruct (shr_fexp prec emax mx ex lx) as [mrs' e'] eqn:E1. cbn [fst snd] in H1, H2.
  set (m' := round_nearest_even (shr_m mrs') (loc_of_shr_record mrs')).
  assert (B : fst (shrink mx ex) <= m' <= fst (shrink mx ex) + 1).
  { rewrite <- H1. apply round_nearest_even_bounds. }
  exists m'. split; [exact B|].
  assert (Hm' : 0 <= m').
  { pose proof (shrink_nonneg mx ex Hm). lia. }
  destruct (shr_fexp_shrink m' e' loc_Exact Hm') as [H3 H4].
  destruct (shr_fexp prec emax m' e' loc_Exact) as [mrs'' e''] eqn:E2.
  cbn [fst snd] in H3, H4. unfold Round.pack, finish. rewrite H3, H4, H2. reflexivity.
Qed.

Lemma binary_round_aux_exact s mx ex :
  0 <= mx ->
  (fexp (Zdigits2 mx + ex) - ex <= 0 \/ (2 ^ (fexp (Zdigits2 mx + ex) - ex) | mx)) ->
  binary_round_aux prec emax s mx ex loc_Exact =
  pack s (fst (shrink mx ex)) (snd (shrink mx ex)).
Proof.
  intros Hm Hd. unfold binary_round_aux.
  rewrite shr_fexp_exact by assumption.
  cbn [shr_m loc_of_shr_record round_nearest_even].
  pose proof (shrink_nonneg mx ex Hm) as Hm'.
  destruct (shr_fexp_shrink (fst (shrink mx ex)) (snd (shrink mx ex)) loc_Exact Hm') as [H3 H4].
  destruct (shr_fexp prec emax _ _ loc_Exact) as [mrs'' e''] eqn:E2.
  cbn [fst snd] in H3, H4. unfold Round.pack, finish. rewrite H3, H4. reflexivity.
Qed.

Lemma binary_round_aux_not_nan s mx ex lx :
  0 <= mx -> binary_round_aux prec emax s mx ex lx <> S754_nan.
Proof.
  intros Hm. destruct (binary_round_aux_pack s mx ex lx Hm) as (m' & B & ->).
  pose proof (shrink_nonneg mx ex Hm).
  pose proof (shrink_nonneg m' (snd (shrink mx ex)) ltac:(lia)) as H2.
  unfold Round.pack, finish. destruct (fst (shrink m' _)); try lia; try discriminate.
  destruct (_ <=? _); discriminate.
Qed.

Lemma shrink_spec m e :
  0 < m -> emin < Zdigits2 m + e ->
  let g := Zdigits2 m + e in
  let m1 := fst (shrink m e) in
  let e1 := snd (shrink m e) in
  e1 = Z.max e (fexp g) /\ m1 = m / 2 ^ (e1 - e) /\
  0 < m1 /\ Zdigits2 m1 + e1 = g /\ Zdigits2 m1 <= prec.
Proof.
  intros Hm Hg g m1 e1. subst m1 e1. unfold Round.shrink. fold g.
  pose proof (fexp_ge g) as F. pose proof (fexp_lt g Hg) as F'.
  pose proof (Zdigits2_pos m Hm) as D.
  destruct (0 <? fexp g - e) eqn:E; cbn [fst snd].
  - apply Z.ltb_lt in E.
    replace (e + (fexp g - e)) with (fexp g) by lia.
    replace (Z.max e (fexp g)) with (fexp g) by lia.
    assert (K : 0 <= fexp g - e < Zdigits2 m) by (unfold g in *; lia).
    pose proof (Zdigits2_div_pow2 m _ Hm K) as DD.
    assert (0 < m / 2 ^ (fexp g - e)).
    { apply Z.div_str_pos. split; [apply pow2_pos; lia|].
      apply Zdigits2_ge_pow; lia. }
    repeat split; unfold g in *; lia.
  - apply Z.ltb_ge in E.
    replace (Z.max e (fexp g)) with e by lia.
    replace (e - e) with 0 by lia. rewrite Z.pow_0_r, Z.div_1_r.
    repeat split; unfold g in *; lia.
Qed.

Lemma pack_spec s m1 e1 m' :
  0 < m1 -> m1 <= m' <= m1 + 1 ->
  Zdigits2 m1 <= prec -> fexp (Zdigits2 m1 + e1) = e1 ->
  exists m2 e2,
    pack s m' e1 =
      (if e2 <=? emax - prec then S754_finite s m2 e2 else S754_infinity s) /\
    Z.pos m2 * 2 ^ (e2 - e1) = m' /\ e1 <= e2 <= e1 + 1 /\
    Zdigits2 (Z.pos m2) <= prec /\
    fexp (Zdigits2 (Z.pos m2) + e2) = e2 /\
    Zdigits2 m1 + e1 <= Zdigits2 (Z.pos m2) + e2 <= Zdigits2 m1 + e1 + 1.
Proof.
  intros Hm1 B D1 C1.
  pose proof (Zdigits2_bounds m1 Hm1) as Bm. pose proof (Zdigits2_pos m1 Hm1) as Dp.
  assert (Hm' : 0 < m') by lia.
  destruct (Z_lt_le_dec m' (2 ^ Zdigits2 m1)) as [L|G].
  - (* same number of digits *)
    assert (Dm' : Zdigits2 m' = Zdigits2 m1) by (apply Zdigits2_unique; lia).
    unfold Round.pack, Round.shrink. rewrite Dm', C1.
    replace (e1 - e1) with 0 by lia. cbn [Z.ltb Z.compare fst snd Round.finish].
    destruct m' as [|p|p]; try lia. exists p, e1. cbn [Round.finish].
    replace (e1 - e1) with 0 by lia. rewrite Z.pow_0_r.
    rewrite Dm'. repeat split; try lia.
  - (* the mantissa became a power of two *)
    assert (Em' : m' = 2 ^ Zdigits2 m1) by lia.
    assert (Dm' : Zdigits2 m' = Zdigits2 m1 + 1).
    { apply Zdigits2_unique; [|lia].
      replace (Zdigits2 m1 + 1 - 1) with (Zdigits2 m1) by lia.
      rewrite pow2_add by lia. change (2 ^ 1) with 2. lia. }
    pose proof (fexp_succ (Zdigits2 m1 + e1)) as FS.
    pose proof (fexp_mono (Zdigits2 m1 + e1) (Zdigits2 m1 + e1 + 1) ltac:(lia)) as FM.
    unfold Round.pack, Round.shrink. rewrite Dm'.
    replace (Zdigits2 m1 + 1 + e1) with (Zdigits2 m1 + e1 + 1) by lia.
    destruct (0 <? fexp (Zdigits2 m1 + e1 + 1) - e1) eqn:E; cbn [fst snd].
    + apply Z.ltb_lt in E.
      assert (N : fexp (Zdigits2 m1 + e1 + 1) - e1 = 1) by lia.
      rewrite N. change (2 ^ 1) with 2.
      assert (P2 : 2 ^ Zdigits2 m1 = 2 ^ (Zdigits2 m1 - 1) * 2).
      { replace (Zdigits2 m1) with (Zdigits2 m1 - 1 + 1) at 1 by lia.
        rewrite pow2_add by lia. reflexivity. }
      assert (Q2 : m' / 2 = 2 ^ (Zdigits2 m1 - 1)).
      { rewrite Em', P2. apply Z.div_mul. lia. }
      rewrite Q2. pose proof (pow2_pos (Zdigits2 m1 - 1) ltac:(lia)) as PP.
      destruct (2 ^ (Zdigits2 m1 - 1)) as [|p|p] eqn:EP; try lia.
      exists p, (e1 + 1). cbn [Round.finish].
      assert (DP : Zdigits2 (Z.pos p) = Zdigits2 m1).
      { rewrite <- EP. apply Zdigits2_unique; [|lia]. split; [lia|]. apply pow2_lt; lia. }
      rewrite DP.
      replace (e1 + 1 - e1) with 1 by lia. change (2 ^ 1) with 2.
      replace (Zdigits2 m1 + (e1 + 1)) with (Zdigits2 m1 + e1 + 1) by lia.
      repeat split; lia.
    + apply Z.ltb_ge in E.
      assert (N : fexp (Zdigits2 m1 + e1 + 1) = e1) by lia.
      destruct m' as [|p|p]; try lia. exists p, e1. cbn [Round.finish].
      replace (e1 - e1) with 0 by lia. rewrite Z.pow_0_r. rewrite Dm'.
      pose proof (fexp_ge (Zdigits2 m1 + e1 + 1)).
      repeat split; try lia.
      replace (Zdigits2 m1 + 1 + e1) with (Zdigits2 m1 + e1 + 1) by lia. lia.
Qed.

Lemma binary_round_aux_spec s mx ex lx :
  0 < mx ->
  let g := Zdigits2 mx + ex in
  emin < g -> ex <= fexp g -> g < emax ->
  exists m2 e2 m',
    binary_round_aux prec emax s mx ex lx = S754_finite s m2 e2 /\
    bounded prec emax m2 e2 = true /\
    mx / 2 ^ (fexp g - ex) <= m' <= mx / 2 ^ (fexp g - ex) + 1 /\
    (lx = loc_Exact -> (2 ^ (fexp g - ex) | mx) -> m' = mx / 2 ^ (fexp g - ex)) /\
    Z.pos m2 * 2 ^ (e2 - fexp g) = m' /\ fexp g <= e2 <= fexp g + 1 /\
    g <= Zdigits2 (Z.pos m2) + e2 <= g + 1.
Proof.
  intros Hm g Hg Hc Ho.
  destruct (shrink_spec mx ex Hm Hg) as (E1 & M1 & P1 & G1 & D1). fold g in E1, G1.
  assert (E1' : snd (shrink mx ex) = fexp g) by lia.
  rewrite E1' in *. clear E1.
  assert (X : exists m', fst (shrink mx ex) <= m' <= fst (shrink mx ex) + 1 /\
     (lx = loc_Exact -> (2 ^ (fexp g - ex) | mx) -> m' = fst (shrink mx ex)) /\
     binary_round_aux prec emax s mx ex lx = pack s m' (fexp g)).
  { destruct lx as [|c].
    - destruct (Z.BoolSpec_divide (2 ^ (fexp g - ex)) mx) as [Dv|Nd].
      + exists (fst (shrink mx ex)). split; [lia|]. split; [reflexivity|].
        rewrite binary_round_aux_exact; [rewrite E1'; reflexivity|lia|right; exact Dv].
      + destruct (binary_round_aux_pack s mx ex loc_Exact ltac:(lia)) as (m' & B & R).
        exists m'. rewrite E1' in R. split; [exact B|]. split; [|exact R].
        intros _ Dv. contradiction.
    - destruct (binary_round_aux_pack s mx ex (loc_Inexact c) ltac:(lia)) as (m' & B & R).
      exists m'. rewrite E1' in R. split; [exact B|]. split; [|exact R].
      intros Hx. discriminate. }
  destruct X as (m' & B & Ex & R).
  assert (C1 : fexp (Zdigits2 (fst (shrink mx ex)) + fexp g) = fexp g) by (rewrite G1; reflexivity).
  destruct (pack_spec s (fst (shrink mx ex)) (fexp g) m' P1 B D1 C1)
    as (m2 & e2 & Pk & V & Be & Dm & Cm & Gm).
  rewrite G1 in Gm.
  assert (Ov : e2 <= emax - prec).
  { rewrite <- Cm. unfold SpecFloat.fexp, SpecFloat.emin. lia. }
  exists m2, e2, m'. rewrite R, Pk.
  apply Z.leb_le in Ov. rewrite Ov. rewrite <- M1.
  split; [reflexivity|]. split.
  { unfold bounded, canonical_mantissa. rewrite Ov, andb_true_r.
    apply Z.eqb_eq. exact Cm. }
  repeat split; try lia. exact Ex.
Qed.
End Format.



Lemma iter_xO m d : Z.pos (Pos.iter xO m d) = Z.pos m * 2 ^ Z.pos d.
Proof.
  induction d as [|d IH] using Pos.peano_ind.
  - cbn [Pos.iter]. change (2 ^ 1) with 2. lia.
  - rewrite Pos.iter_succ, Pos2Z.inj_succ, Z.pow_succ_r by lia. lia.
Qed.

Lemma shl_align_spec m e e' :
  snd (shl_align m e e') = Z.min e e' /\
  Z.pos (fst (shl_align m e e')) = Z.pos m * 2 ^ (e - Z.min e e').
Proof.
  unfold shl_align. destruct (e' - e) as [|d|d] eqn:E; cbn [fst snd].
  - replace (Z.min e e') with e by lia. replace (e - e) with 0 by lia. split; lia.
  - replace (Z.min e e') with e by lia. replace (e - e) with 0 by lia. split; lia.
  - replace (Z.min e e') with e' by lia. split; [reflexivity|].
    rewrite iter_xO. f_equal. f_equal. lia.
Qed.

Section Exact.
Variables prec emax : Z.
Hypothesis Hprec : 0 < prec.
Hypothesis Hemax : prec < emax.

Abbreviation emin := (emin prec emax).
Abbreviation fexp := (fexp prec emax).
Abbreviation representable := (Round.representable prec emax).


Lemma binary_round_aux_exact_value s mx ex :
  0 < mx ->
  let g := Zdigits2 mx + ex in
  emin < g -> ex <= fexp g -> g < emax -> (2 ^ (fexp g - ex) | mx) ->
  exists m2 e2,
    binary_round_aux prec emax s mx ex loc_Exact = S754_finite s m2 e2 /\
    bounded prec emax m2 e2 = true /\ ex <= e2 /\ Z.pos m2 * 2 ^ (e2 - ex) = mx.
Proof.
  intros Hm g Hg Hc Ho Hd.
  destruct (binary_round_aux_spec prec emax Hprec Hemax s mx ex loc_Exact Hm Hg Hc Ho)
    as (m2 & e2 & m' & R & Bd & B & Ex & V & Be & Gm).
  fold g in B, Ex, V, Be, Gm.
  exists m2, e2. split; [exact R|]. split; [exact Bd|]. split; [lia|].
  specialize (Ex eq_refl Hd). rewrite Ex in V.
  destruct Hd as [c Hd].
  replace (e2 - ex) with ((e2 - fexp g) + (fexp g - ex)) by lia.
  rewrite pow2_add by lia. rewrite Z.mul_assoc, V.
  rewrite Hd at 1. rewrite Z.div_mul by (pose proof (pow2_pos (fexp g - ex)); lia).
  lia.
Qed.

Lemma binary_round_exact s m e :
  representable (dy (Z.pos m) e) ->
  exists m2 e2,
    binary_round prec emax s m e = S754_finite s m2 e2 /\
    bounded prec emax m2 e2 = true /\ (F2Q s m2 e2 == F2Q s m e)%Q.
Proof.
  intros (m0 & e0 & V & Bm & Be).
  assert (Hm0 : 0 < m0).
  { destruct (Z_lt_le_dec 0 m0) as [L|G]; [exact L|exfalso].
    assert (dy m0 e0 <= 0)%Q.
    { unfold dy. rewrite <- (Qmult_0_l (bpow e0)). apply Qmult_le_r; [apply bpow_pos|].
      change 0%Q with (inject_Z 0). rewrite <- Zle_Qle. exact G. }
    assert (0 < dy (Z.pos m) e)%Q.
    { unfold dy. apply Qmult_lt_0_compat; [|apply bpow_pos].
      change 0%Q with (inject_Z 0). rewrite <- Zlt_Qlt. lia. }
    rewrite V in H0. apply (Qlt_irrefl 0). eapply Qlt_le_trans; eassumption. }
  set (c := Z.min e e0).
  assert (Hc : c <= e /\ c <= e0 /\ (e <= e0 -> c = e)) by (unfold c; lia).
  clearbody c.
  assert (A : Z.pos m * 2 ^ (e - c) = m0 * 2 ^ (e0 - c)).
  { apply (dy_same_exp _ _ c). rewrite <- !dy_align by lia. exact V. }
  unfold binary_round.
  change (Z.pos (digits2_pos m)) with (Zdigits2 (Z.pos m)).
  remember (Zdigits2 (Z.pos m) + e) as g eqn:Eg.
  assert (G0 : g = Zdigits2 m0 + e0).
  { assert (Zdigits2 (Z.pos m * 2 ^ (e - c)) = Zdigits2 (m0 * 2 ^ (e0 - c))) by (rewrite A; reflexivity).
    rewrite !Zdigits2_mul_pow2 in H by lia. lia. }
  assert (D0 : Zdigits2 m0 <= prec).
  { apply Zdigits2_lt_pow; lia. }
  pose proof (Zdigits2_pos m0 Hm0) as P0.
  assert (T : fexp g <= e0) by (unfold SpecFloat.fexp; lia).
  assert (Hg : emin < g) by lia.
  assert (Ho : g < emax) by lia.
  destruct (shl_align_spec m e (fexp g)) as [S1 S2].
  destruct (shl_align m e (fexp g)) as [mz ez]. cbn [fst snd] in S1, S2.
  assert (Gz : Zdigits2 (Z.pos mz) + ez = g).
  { rewrite S2. rewrite Zdigits2_mul_pow2 by lia. lia. }
  assert (Dv : (2 ^ (fexp g - ez) | Z.pos mz)).
  { rewrite S2, S1. destruct (Z_le_gt_dec e (fexp g)) as [L|G].
    - replace (Z.min e (fexp g)) with e by lia.
      replace (e - e) with 0 by lia. rewrite Z.mul_1_r.
      replace c with e in A by lia.
      replace (e - e) with 0 in A by lia. rewrite Z.mul_1_r in A. rewrite A.
      exists (m0 * 2 ^ (e0 - fexp g)).
      rewrite <- Z.mul_assoc, <- pow2_add by lia. f_equal. f_equal. lia.
    - replace (Z.min e (fexp g)) with (fexp g) by lia.
      replace (fexp g - fexp g) with 0 by lia. apply Z.divide_1_l. }
  destruct (binary_round_aux_exact_value s (Z.pos mz) ez) as (m2 & e2 & R & Bd & Le & Vz);
    try rewrite Gz; try assumption; try lia.
  exists m2, e2. split; [exact R|]. split; [exact Bd|].
  unfold F2Q.
  rewrite (dy_align _ e2 ez) by lia. rewrite (dy_align _ e ez) by lia.
  apply dy_same_exp. destruct s; cbn [cond_Zopp].
  - rewrite !Z.mul_opp_l. f_equal. rewrite Vz, S2, S1. reflexivity.
  - rewrite Vz, S2, S1. reflexivity.
Qed.

Lemma representable_ext v w : (v == w)%Q -> representable v -> representable w.
Proof.
  intros E (m0 & e0 & V & B). exists m0, e0. split; [|exact B].
  rewrite <- E. exact V.
Qed.

Lemma representable_opp v : representable v -> representable (- v).
Proof.
  intros (m0 & e0 & V & B & B'). exists (- m0), e0. split; [|split; [lia|exact B']].
  rewrite V. apply dy_opp.
Qed.

Lemma binary_normalize_exact M e :
  M <> 0 -> representable (dy M e) ->
  exists s m2 e2,
    binary_normalize prec emax M e false = S754_finite s m2 e2 /\
    bounded prec emax m2 e2 = true /\ (F2Q s m2 e2 == dy M e)%Q.
Proof.
  intros HM R. destruct M as [|m|m]; [congruence| |]; cbn [binary_normalize].
  - destruct (binary_round_exact false m e R) as (m2 & e2 & E & B & V).
    exists false, m2, e2. repeat split; assumption.
  - assert (R' : representable (dy (Z.pos m) e)).
    { apply (representable_ext (- dy (Z.neg m) e)); [|apply representable_opp; exact R].
      rewrite dy_opp. reflexivity. }
    destruct (binary_round_exact true m e R') as (m2 & e2 & E & B & V).
    exists true, m2, e2. repeat split; assumption.
Qed.

Lemma binary_normalize_exact_V M e v :
  (dy M e == v)%Q -> representable v -> ~ (v == 0)%Q ->
  exists s m2 e2,
    binary_normalize prec emax M e false = S754_finite s m2 e2 /\
    bounded prec emax m2 e2 = true /\ (F2Q s m2 e2 == v)%Q.
Proof.
  intros V R NZ.
  assert (HM : M <> 0).
  { intros ->. apply NZ. rewrite <- V. unfold dy. ring. }
  destruct (binary_normalize_exact M e HM) as (s & m2 & e2 & E & B & W).
  { apply (representable_ext v); [symmetry; exact V|exact R]. }
  exists s, m2, e2. repeat split; try assumption. rewrite W. exact V.
Qed.

Lemma aligned_value s m e c :
  c <= e ->
  (dy (cond_Zopp s (Z.pos (fst (shl_align m e c)))) c == F2Q s m e)%Q.
Proof.
  intros H. destruct (shl_align_spec m e c) as [S1 S2].
  rewrite S2. replace (Z.min e c) with c by lia.
  unfold F2Q. rewrite (dy_align _ e c) by lia. apply dy_same_exp.
  destruct s; cbn [cond_Zopp]; lia.
Qed.

Lemma SFadd_exact sx mx ex sy my ey :
  let x := S754_finite sx mx ex in
  let y := S754_finite sy my ey in
  representable (value x + value y) -> ~ (value x + value y == 0)%Q ->
  exists s m e,
    SFadd prec emax x y = S754_finite s m e /\
    bounded prec emax m e = true /\ (F2Q s m e == value x + value y)%Q.
Proof.
  intros x y R NZ. subst x y. cbn [SFadd value] in *.
  set (ez := Z.min ex ey).
  set (M := cond_Zopp sx (Z.pos (fst (shl_align mx ex ez))) +
            cond_Zopp sy (Z.pos (fst (shl_align my ey ez)))).
  assert (V : (dy M ez == F2Q sx mx ex + F2Q sy my ey)%Q).
  { unfold M. rewrite <- dy_add. rewrite !aligned_value by (unfold ez; lia). reflexivity. }
  apply binary_normalize_exact_V with (1 := V); assumption.
Qed.

Lemma SFsub_exact sx mx ex sy my ey :
  let x := S754_finite sx mx ex in
  let y := S754_finite sy my ey in
  representable (value x - value y) -> ~ (value x - value y == 0)%Q ->
  exists s m e,
    SFsub prec emax x y = S754_finite s m e /\
    bounded prec emax m e = true /\ (F2Q s m e == value x - value y)%Q.
Proof.
  intros x y R NZ. subst x y. cbn [SFsub value] in *.
  set (ez := Z.min ex ey).
  set (M := cond_Zopp sx (Z.pos (fst (shl_align mx ex ez))) -
            cond_Zopp sy (Z.pos (fst (shl_align my ey ez)))).
  assert (V : (dy M ez == F2Q sx mx ex - F2Q sy my ey)%Q).
  { unfold M. rewrite <- dy_sub. rewrite !aligned_value by (unfold ez; lia). reflexivity. }
  apply binary_normalize_exact_V with (1 := V); assumption.
Qed.

(** *** Comparison *)

Lemma bounded_spec m e :
  bounded prec emax m e = true ->
  fexp (Zdigits2 (Z.pos m) + e) = e /\ e <= emax - prec /\
  Zdigits2 (Z.pos m) <= prec /\ emin <= e /\
  (emin < e -> Zdigits2 (Z.pos m) = prec).
Proof.
  unfold bounded, canonical_mantissa. intros H.
  apply andb_true_iff in H. destruct H as [H1 H2].
  apply Z.eqb_eq in H1. apply Z.leb_le in H2.
  change (Z.pos (digits2_pos m)) with (Zdigits2 (Z.pos m)) in H1.
  unfold SpecFloat.fexp in *. lia.
Qed.

Lemma bounded_lt m1 e1 m2 e2 :
  bounded prec emax m1 e1 = true -> bounded prec emax m2 e2 = true ->
  e1 < e2 -> Z.pos m1 < Z.pos m2 * 2 ^ (e2 - e1).
Proof.
  intros B1 B2 L.
  destruct (bounded_spec _ _ B1) as (_ & _ & D1 & M1 & _).
  destruct (bounded_spec _ _ B2) as (_ & _ & _ & _ & N2).
  specialize (N2 ltac:(lia)).
  assert (Z.pos m1 < 2 ^ prec) by (apply Zdigits2_lt_pow; lia).
  assert (2 ^ (prec - 1) <= Z.pos m2) by (apply Zdigits2_ge_pow; lia).
  assert (2 ^ 1 <= 2 ^ (e2 - e1)) by (apply pow2_le; lia).
  change (2 ^ 1) with 2 in *.
  assert (2 ^ prec = 2 ^ (prec - 1) * 2).
  { replace prec with (prec - 1 + 1) at 1 by lia. rewrite pow2_add by lia. reflexivity. }
  nia.
Qed.

Lemma SFcompare_finite s1 m1 e1 s2 m2 e2 :
  bounded prec emax m1 e1 = true -> bounded prec emax m2 e2 = true ->
  SFcompare (S754_finite s1 m1 e1) (S754_finite s2 m2 e2) =
  Some (F2Q s1 m1 e1 ?= F2Q s2 m2 e2)%Q.
Proof.
  intros B1 B2. unfold F2Q.
  rewrite (dy_compare _ e1 _ e2 (Z.min e1 e2)) by lia.
  pose proof (pow2_pos (e1 - Z.min e1 e2) ltac:(lia)) as P1.
  pose proof (pow2_pos (e2 - Z.min e1 e2) ltac:(lia)) as P2.
  cbn [SFcompare]. f_equal.
  destruct (Z.compare_spec e1 e2) as [E|L|G].
  - subst e2. replace (Z.min e1 e1) with e1 in * by lia.
    replace (e1 - e1) with 0 in * by lia. rewrite !Z.mul_1_r.
    rewrite Pos.compare_cont_spec.
    replace (Pos.switch_Eq Eq (m1 ?= m2)%positive) with (Z.pos m1 ?= Z.pos m2)
      by (cbn [Z.compare]; destruct (m1 ?= m2)%positive; reflexivity).
    destruct s1, s2; reflexivity.
  - replace (Z.min e1 e2) with e1 in * by lia.
    replace (e1 - e1) with 0 in * by lia. rewrite !Z.mul_1_r.
    pose proof (bounded_lt _ _ _ _ B1 B2 L) as K.
    destruct s1, s2; cbn [cond_Zopp]; symmetry;
      first [apply Z.compare_lt_iff | apply Z.compare_gt_iff]; lia.
  - replace (Z.min e1 e2) with e2 in * by lia.
    replace (e2 - e2) with 0 in * by lia. rewrite !Z.mul_1_r.
    pose proof (bounded_lt _ _ _ _ B2 B1 ltac:(lia)) as K.
    destruct s1, s2; cbn [cond_Zopp]; symmetry;
      first [apply Z.compare_lt_iff | apply Z.compare_gt_iff]; lia.
Qed.
End Exact.

(** *** Magnitude of a dyadic number *)

Lemma bpow_le_dy k m e : 0 < m -> (bpow k <= dy m e)%Q <-> k < Zdigits2 m + e.
Proof.
  intros Hm. set (c := Z.min k e).
  assert (Hc : c <= k /\ c <= e) by (unfold c; lia). clearbody c.
  assert (E1 : (bpow k == dy 1 k)%Q) by (unfold dy; ring).
  rewrite E1, (dy_align 1 k c), (dy_align m e c) by lia.
  rewrite dy_le_same_exp, Z.mul_1_l.
  pose proof (pow2_pos (e - c) ltac:(lia)).
  rewrite Zdigits2_ge_pow by nia.
  rewrite Zdigits2_mul_pow2 by lia. lia.
Qed.

Lemma dy_lt_bpow k m e : 0 < m -> (dy m e < bpow k)%Q <-> Zdigits2 m + e <= k.
Proof.
  intros Hm. pose proof (bpow_le_dy k m e Hm) as H.
  split; intros K.
  - destruct (Z_le_gt_dec (Zdigits2 m + e) k) as [L|G]; [exact L|exfalso].
    apply (Qlt_irrefl (bpow k)). eapply Qle_lt_trans; [apply H; lia|exact K].
  - apply Qnot_le_lt. intros C. apply H in C. lia.
Qed.

Lemma dy_pos m e : 0 < m -> (0 < dy m e)%Q.
Proof.
  intros H. unfold dy. apply Qmult_lt_0_compat; [|apply bpow_pos].
  change 0%Q with (inject_Z 0). rewrite <- Zlt_Qlt. exact H.
Qed.

Lemma F2Q_neg m e : (F2Q true m e < 0)%Q.
Proof.
  unfold F2Q. cbn [cond_Zopp]. change (- Z.pos m) with (Z.neg m).
  unfold dy. setoid_replace 0%Q with (0 * bpow e)%Q by ring.
  apply Qmult_lt_r; [apply bpow_pos|]. reflexivity.
Qed.

Lemma F2Q_pos m e : (0 < F2Q false m e)%Q.
Proof. apply dy_pos. reflexivity. Qed.

Lemma F2Q_sign s m e : (0 < F2Q s m e)%Q -> s = false.
Proof.
  destruct s; [|reflexivity]. intros H. exfalso.
  apply (Qlt_irrefl 0). eapply Qlt_trans; [exact H|apply F2Q_neg].
Qed.

(** ** binary32 and binary64 *)


Lemma prec32_ok : 0 < Float.prec32 /\ Float.prec32 < Float.emax32.
Proof. unfold Float.prec32, Float.emax32. lia. Qed.
Lemma prec64_ok : 0 < Float.prec64 /\ Float.prec64 < Float.emax64.
Proof. unfold Float.prec64, Float.emax64. lia. Qed.


Lemma of_int_exact n :
  0 < n < 2 ^ 24 -> Float.positive32 (Float.of_int n) (inject_Z n).
Proof.
  intros H. destruct n as [|p|p]; try lia. unfold Float.of_int. cbn [binary_normalize].
  destruct (binary_round_exact Float.prec32 Float.emax32 (proj1 prec32_ok) (proj2 prec32_ok) false p 0)
    as (m2 & e2 & E & B & V).
  { exists (Z.pos p), 0. split; [reflexivity|]. unfold Float.prec32, Float.emax32, SpecFloat.emin. lia. }
  exists m2, e2. split; [exact E|]. split; [exact B|].
  rewrite V. unfold F2Q. cbn [cond_Zopp]. apply dy_Z.
Qed.

(** rounding an unsigned 32-bit integer to binary32 *)
Lemma of_int_uint32 n :
  0 < n < 2 ^ 32 ->
  exists m e, Float.of_int n = S754_finite false m e /\ bounded Float.prec32 Float.emax32 m e = true /\
    (inject_Z (16384 * (n / 16384)) <= F2Q false m e)%Q /\
    Zdigits2 (Z.pos m) + e <= 33.
Proof.
  intros H. destruct n as [|p|p]; try lia. unfold Float.of_int. cbn [binary_normalize].
  unfold binary_round.
  change (Z.pos (digits2_pos p)) with (Zdigits2 (Z.pos p)).
  remember (Zdigits2 (Z.pos p) + 0) as g eqn:Eg.
  assert (Dp : 0 < Zdigits2 (Z.pos p) <= 32).
  { split; [reflexivity|]. apply Zdigits2_lt_pow; lia. }
  assert (F : fexp Float.prec32 Float.emax32 g = g - 24).
  { unfold fexp, SpecFloat.emin, Float.prec32, Float.emax32. lia. }
  destruct (shl_align_spec p 0 (fexp Float.prec32 Float.emax32 g)) as [S1 S2].
  destruct (shl_align p 0 (fexp Float.prec32 Float.emax32 g)) as [mz ez]. cbn [fst snd] in S1, S2.
  rewrite F in *.
  assert (Gz : Zdigits2 (Z.pos mz) + ez = g).
  { rewrite S2. rewrite Zdigits2_mul_pow2 by lia. lia. }
  destruct (binary_round_aux_spec Float.prec32 Float.emax32 (proj1 prec32_ok) (proj2 prec32_ok)
              false (Z.pos mz) ez loc_Exact)
    as (m2 & e2 & m' & R & Bd & B & _ & V & Be & Gm);
    try rewrite Gz; try rewrite F; try (unfold SpecFloat.emin, Float.prec32, Float.emax32; lia).
  rewrite Gz, F in *.
  exists m2, e2. split; [exact R|]. split; [exact Bd|]. split; [|lia].
  unfold F2Q. cbn [cond_Zopp].
  rewrite (dy_align _ e2 (g - 24)) by lia. rewrite V.
  rewrite <- dy_Z.
  destruct (Z_le_gt_dec g 24) as [L|G].
  - (* the integer fits the mantissa *)
    rewrite (dy_align _ 0 (g - 24)) by lia. apply dy_le_same_exp.
    replace ez with (g - 24) in * by lia.
    replace (g - 24 - (g - 24)) with 0 in B by lia.
    rewrite Z.pow_0_r, Z.div_1_r in B.
    replace (0 - Z.min 0 (g - 24)) with (0 - (g - 24)) in S2 by lia.
    pose proof (pow2_pos (0 - (g - 24)) ltac:(lia)).
    assert (16384 * (Z.pos p / 16384) <= Z.pos p) by (apply Z.mul_div_le; lia).
    nia.
  - (* the low bits are rounded away *)
    replace ez with 0 in * by lia.
    replace (0 - Z.min 0 (g - 24)) with 0 in S2 by lia.
    rewrite Z.mul_1_r in S2. rewrite S2 in B.
    replace (g - 24 - 0) with (g - 24) in B by lia.
    rewrite <- (dy_shift m' (g - 24) 0) by lia. apply dy_le_same_exp.
    pose proof (pow2_pos (g - 24) ltac:(lia)) as PP.
    assert (D : 16384 = 2 ^ (g - 24) * 2 ^ (14 - (g - 24))).
    { rewrite <- pow2_add by lia. replace (g - 24 + (14 - (g - 24))) with 14 by lia. reflexivity. }
    pose proof (pow2_pos (14 - (g - 24)) ltac:(lia)) as PQ.
    assert (K : 16384 * (Z.pos p / 16384) <= Z.pos p) by (apply Z.mul_div_le; lia).
    assert (K2 : 2 ^ (14 - (g - 24)) * (Z.pos p / 16384) <= Z.pos p / 2 ^ (g - 24)).
    { apply Z.div_le_lower_bound; [lia|].
      rewrite Z.mul_assoc, <- D. exact K. }
    transitivity (2 ^ (14 - (g - 24)) * (Z.pos p / 16384) * 2 ^ (g - 24)).
    + rewrite D at 1. apply Z.eq_le_incl. ring.
    + apply Z.mul_le_mono_nonneg_r; lia.
Qed.

Lemma of_int_4096 : Float.of_int 4096 = S754_finite false 8388608 (-11).
Proof. reflexivity. Qed.

Lemma fexp32_normal g : -125 <= g -> fexp Float.prec32 Float.emax32 g = g - 24.
Proof. unfold fexp, SpecFloat.emin, Float.prec32, Float.emax32. lia. Qed.

Lemma mul_4096 mf ef :
  bounded Float.prec32 Float.emax32 mf ef = true ->
  1 <= Zdigits2 (Z.pos mf) + ef <= 100 ->
  Float.positive32 (Float.mul (Float.of_int 4096) (S754_finite false mf ef))
             (inject_Z 4096 * F2Q false mf ef).
Proof.
  intros B G. rewrite of_int_4096. unfold Float.mul. cbn [SFmul xorb].
  destruct (bounded_spec Float.prec32 Float.emax32 _ _ B)
    as (_ & _ & D & _ & _).
  unfold Float.prec32 in D.
  assert (Dp : 0 < Zdigits2 (Z.pos mf)) by reflexivity.
  assert (Mx : Z.pos (8388608 * mf) = Z.pos mf * 2 ^ 23) by (rewrite Pos2Z.inj_mul; lia).
  assert (Gx : Zdigits2 (Z.pos (8388608 * mf)) + (-11 + ef) = Zdigits2 (Z.pos mf) + ef + 12).
  { rewrite Mx, Zdigits2_mul_pow2 by lia. lia. }
  destruct (binary_round_aux_exact_value Float.prec32 Float.emax32 (proj1 prec32_ok) (proj2 prec32_ok)
              false (Z.pos (8388608 * mf)) (-11 + ef))
    as (m2 & e2 & R & Bd & Le & V).
  - reflexivity.
  - rewrite Gx. unfold SpecFloat.emin, Float.prec32, Float.emax32. lia.
  - rewrite Gx, fexp32_normal by lia. lia.
  - rewrite Gx. unfold Float.emax32. lia.
  - rewrite Gx, fexp32_normal by lia. rewrite Mx.
    replace (Zdigits2 (Z.pos mf) + ef + 12 - 24 - (-11 + ef)) with (Zdigits2 (Z.pos mf) - 1) by lia.
    exists (Z.pos mf * 2 ^ (23 - (Zdigits2 (Z.pos mf) - 1))).
    rewrite <- Z.mul_assoc, <- pow2_add by lia. f_equal. f_equal. lia.
  - exists m2, e2. split; [exact R|]. split; [exact Bd|].
    unfold F2Q. cbn [cond_Zopp].
    rewrite (dy_align _ e2 (-11 + ef)) by lia. rewrite V, Mx.
    replace (2 ^ 23) with (4096 * 2 ^ 11) by reflexivity.
    rewrite Z.mul_assoc, dy_shift by lia.
    replace (-11 + ef + 11) with ef by lia.
    unfold dy. rewrite inject_Z_mult. ring.
Qed.

Lemma div_eucl_div a b : fst (Z.div_eucl a b) = a / b.
Proof. reflexivity. Qed.

Lemma div_lower mX eX mY eY :
  (inject_Z 4 * F2Q false mY eY <= F2Q false mX eX)%Q ->
  Zdigits2 (Z.pos mX) + eX <= 33 -> 13 <= Zdigits2 (Z.pos mY) + eY ->
  exists mq eq,
    Float.div (S754_finite false mX eX) (S754_finite false mY eY) = S754_finite false mq eq /\
    bounded Float.prec32 Float.emax32 mq eq = true /\
    3 <= Zdigits2 (Z.pos mq) + eq <= 22.
Proof.
  intros HXY GX GY. unfold Float.div. cbn [SFdiv xorb]. unfold SFdiv_core_binary.
  change (Zdigits2 (Z.pos mX)) with (Zdigits2 (Z.pos mX)).
  remember (Zdigits2 (Z.pos mX)) as d1 eqn:Ed1.
  remember (Zdigits2 (Z.pos mY)) as d2 eqn:Ed2.
  assert (P1 : 0 < d1) by (subst d1; reflexivity).
  assert (P2 : 0 < d2) by (subst d2; reflexivity).
  (* the quotient of the magnitudes *)
  assert (Dl : d2 + eY + 2 <= d1 + eX).
  { assert (A : (bpow (d2 + eY - 1) <= F2Q false mY eY)%Q).
    { apply bpow_le_dy; [reflexivity|]. cbn [cond_Zopp]. lia. }
    assert (A2 : (bpow (d2 + eY + 1) <= F2Q false mX eX)%Q).
    { eapply Qle_trans; [|exact HXY].
      replace (d2 + eY + 1) with (2 + (d2 + eY - 1)) by lia. rewrite bpow_add.
      change (bpow 2) with (inject_Z 4). apply Qmult_le_l; [reflexivity|exact A]. }
    apply bpow_le_dy in A2; [|reflexivity]. cbn [cond_Zopp] in A2. lia. }
  remember (d1 + eX - (d2 + eY)) as D eqn:ED.
  rewrite (fexp32_normal D) by lia.
  remember (Z.min (D - 24) (eX - eY)) as e' eqn:Ee'.
  remember (eX - eY - e') as s eqn:Es.
  assert (Hs : 0 <= s) by lia.
  set (m' := match s with Z.pos _ => Z.shiftl (Z.pos mX) s | 0 => Z.pos mX | Z.neg _ => 0 end).
  assert (Hm' : m' = Z.pos mX * 2 ^ s).
  { unfold m'. destruct s as [|p|p]; [lia| |lia]. apply Z.shiftl_mul_pow2. lia. }
  clearbody m'.
  pose proof (div_eucl_div m' (Z.pos mY)) as Q0.
  destruct (Z.div_eucl m' (Z.pos mY)) as [q0 r]. cbn [fst] in Q0.
  pose proof (Zdigits2_bounds (Z.pos mX) ltac:(lia)) as BX. rewrite <- Ed1 in BX.
  pose proof (Zdigits2_bounds (Z.pos mY) ltac:(lia)) as BY. rewrite <- Ed2 in BY.
  pose proof (pow2_pos s Hs) as Ps.
  (* the integer quotient is at least 4, scaled *)
  assert (L4 : 2 ^ (2 - e') <= q0).
  { rewrite Q0. apply Z.div_le_lower_bound; [lia|].
    unfold F2Q in HXY. cbn [cond_Zopp] in HXY.
    assert (Y4 : (inject_Z 4 * dy (Z.pos mY) eY == dy (Z.pos mY * 2 ^ (2 - e')) (eY + e'))%Q).
    { rewrite dy_shift by lia. replace (eY + e' + (2 - e')) with (eY + 2) by lia.
      unfold dy. rewrite bpow_add. change (bpow 2) with (inject_Z 4). ring. }
    assert (X4 : (dy (Z.pos mX) eX == dy m' (eY + e'))%Q).
    { rewrite Hm', dy_shift by lia. replace (eY + e' + s) with eX by lia. reflexivity. }
    rewrite Y4, X4 in HXY. apply dy_le_same_exp in HXY. lia. }
  pose proof (pow2_pos (2 - e') ltac:(lia)) as P4.
  assert (Hq : 0 < q0) by lia.
  (* the number of digits of the integer quotient *)
  assert (Lq : 2 ^ (D - e' - 1) <= q0).
  { rewrite Q0. apply Z.div_le_lower_bound; [lia|].
    assert (2 ^ (d1 + s - 1) = 2 ^ d2 * 2 ^ (D - e' - 1)).
    { rewrite <- pow2_add by lia. f_equal. lia. }
    assert (2 ^ (d1 + s - 1) = 2 ^ (d1 - 1) * 2 ^ s).
    { rewrite <- pow2_add by lia. f_equal. lia. }
    pose proof (pow2_pos (D - e' - 1) ltac:(lia)). nia. }
  assert (Uq : q0 < 2 ^ (D - e' + 1)).
  { rewrite Q0. apply Z.div_lt_upper_bound; [lia|].
    assert (2 ^ (d1 + s) = 2 ^ (d2 - 1) * 2 ^ (D - e' + 1)).
    { rewrite <- pow2_add by lia. f_equal. lia. }
    assert (2 ^ (d1 + s) = 2 ^ d1 * 2 ^ s).
    { rewrite <- pow2_add by lia. f_equal. }
    pose proof (pow2_pos (D - e' + 1) ltac:(lia)). nia. }
  assert (Gq : 3 <= Zdigits2 q0 + e' <= D + 1 /\ D <= Zdigits2 q0 + e').
  { apply Zdigits2_ge_pow in L4; [|lia|lia].
    apply Zdigits2_ge_pow in Lq; [|lia|lia].
    apply Zdigits2_lt_pow in Uq; [|lia|lia]. lia. }
  destruct (binary_round_aux_spec Float.prec32 Float.emax32 (proj1 prec32_ok) (proj2 prec32_ok)
              false q0 e' (new_location (Z.pos mY) r))
    as (m2 & e2 & m'' & R & Bd & _ & _ & _ & _ & Gm).
  - exact Hq.
  - unfold SpecFloat.emin, Float.prec32, Float.emax32. lia.
  - rewrite fexp32_normal by lia. lia.
  - unfold Float.emax32. lia.
  - exists m2, e2. split; [exact R|]. split; [exact Bd|]. lia.
Qed.

Lemma half_value : (value Float.half == 1 # 2)%Q.
Proof. vm_compute. reflexivity. Qed.

Lemma double_one : Float.double_of_int 1 = S754_finite false 4503599627370496 (-52).
Proof. reflexivity. Qed.

Lemma double_one_value : (value (Float.double_of_int 1) == 1)%Q.
Proof. vm_compute. reflexivity. Qed.

Lemma dy_half c : c <= -1 -> (dy (2 ^ (-1 - c)) c == 1 # 2)%Q.
Proof.
  intros H. rewrite <- (Z.mul_1_l (2 ^ (-1 - c))), dy_shift by lia.
  replace (c + (-1 - c)) with (-1) by lia. vm_compute. reflexivity.
Qed.

Lemma dy_one c : c <= -1 -> (dy (2 ^ (- c)) c == 1)%Q.
Proof.
  intros H. rewrite <- (Z.mul_1_l (2 ^ (- c))), dy_shift by lia.
  replace (c + - c) with 0 by lia. vm_compute. reflexivity.
Qed.

Lemma pow2_le_const a b : 0 <= a <= b -> 2 ^ a <= 2 ^ b.
Proof. intros. apply pow2_le; lia. Qed.

(** [(q + 0.5) - 1], evaluated in [double] and stored in a [float], is
    exact for every binary32 value [q] in [4, 2^22). *)
Lemma prescale_value_exact mq eq :
  bounded Float.prec32 Float.emax32 mq eq = true ->
  3 <= Zdigits2 (Z.pos mq) + eq <= 22 ->
  Float.positive32
    (Float.of_double (Float.dsub (Float.dadd (Float.to_double (S754_finite false mq eq)) Float.half) (Float.double_of_int 1)))
    (F2Q false mq eq - (1 # 2)).
Proof.
  intros B G.
  destruct (bounded_spec Float.prec32 Float.emax32 _ _ B) as (_ & _ & D & _ & _). unfold Float.prec32 in D.
  assert (Dp : 0 < Zdigits2 (Z.pos mq)) by reflexivity.
  assert (Mq : Z.pos mq < 2 ^ 24) by (apply Zdigits2_lt_pow; lia).
  assert (V4 : (inject_Z 4 <= F2Q false mq eq)%Q).
  { change (inject_Z 4) with (bpow 2). apply bpow_le_dy; [reflexivity|]. cbn [cond_Zopp]. lia. }
  remember (Z.min eq (-1)) as c eqn:Ec.
  assert (Hc : -21 <= c <= -1 /\ c <= eq) by lia.
  (* the aligned mantissa of q *)
  remember (Z.pos mq * 2 ^ (eq - c)) as Mc eqn:EMc.
  assert (Vc : (dy Mc c == F2Q false mq eq)%Q).
  { rewrite EMc, <- dy_align by lia. reflexivity. }
  assert (Bc : 0 < Mc < 2 ^ (22 - c)).
  { pose proof (pow2_pos (eq - c) ltac:(lia)). split; [nia|].
    apply Zdigits2_lt_pow; [nia|lia|]. rewrite EMc, Zdigits2_mul_pow2 by lia. lia. }
  assert (B43 : 2 ^ (22 - c) <= 2 ^ 43) by (apply pow2_le; lia).
  assert (B20 : 0 < 2 ^ (-1 - c) <= 2 ^ 20).
  { split; [apply pow2_pos; lia|apply pow2_le; lia]. }
  assert (B21 : 2 ^ (- c) = 2 * 2 ^ (-1 - c)).
  { replace (- c) with (1 + (-1 - c)) by lia. rewrite pow2_add by lia. reflexivity. }
  change (2 ^ 43) with 8796093022208 in B43. change (2 ^ 20) with 1048576 in B20.
  (* widening to double *)
  unfold Float.to_double.
  destruct (binary_round_exact Float.prec64 Float.emax64 (proj1 prec64_ok) (proj2 prec64_ok) false mq eq)
    as (m1 & e1 & E1 & B1 & V1).
  { exists (Z.pos mq), eq. split; [reflexivity|].
    unfold Float.prec64, Float.emax64, SpecFloat.emin. change (2 ^ 53) with 9007199254740992.
    change (2 ^ 24) with 16777216 in Mq. lia. }
  rewrite E1.
  (* adding 0.5 *)
  unfold Float.dadd, Float.half.
  destruct (SFadd_exact Float.prec64 Float.emax64 (proj1 prec64_ok) (proj2 prec64_ok)
              false m1 e1 false 4503599627370496 (-53))
    as (s2 & m2 & e2 & E2 & B2 & V2).
  { cbn [value]. apply (representable_ext _ _ (dy (Mc + 2 ^ (-1 - c)) c)).
    - rewrite <- dy_add, Vc, dy_half by lia. rewrite V1.
      apply Qplus_comp; [reflexivity|]. symmetry. exact half_value.
    - exists (Mc + 2 ^ (-1 - c)), c. split; [reflexivity|].
      unfold Float.prec64, Float.emax64, SpecFloat.emin. change (2 ^ 53) with 9007199254740992. lia. }
  { cbn [value]. intros K. pose proof (F2Q_pos m1 e1) as P.
    pose proof (F2Q_pos 4503599627370496 (-53)) as P'.
    apply (Qlt_irrefl 0). rewrite <- K at 2.
    apply (Qplus_lt_le_compat 0 _ 0); [exact P|apply Qlt_le_weak; exact P']. }
  rewrite E2. cbn [value] in V2.
  assert (V2' : (F2Q s2 m2 e2 == F2Q false mq eq + (1 # 2))%Q).
  { rewrite V2, V1. apply Qplus_comp; [reflexivity|exact half_value]. }
  (* subtracting 1 *)
  unfold Float.dsub. rewrite double_one.
  destruct (SFsub_exact Float.prec64 Float.emax64 (proj1 prec64_ok) (proj2 prec64_ok)
              s2 m2 e2 false 4503599627370496 (-52))
    as (s3 & m3 & e3 & E3 & B3 & V3).
  { cbn [value]. apply (representable_ext _ _ (dy (Mc + 2 ^ (-1 - c) - 2 ^ (- c)) c)).
    - rewrite <- dy_sub, <- dy_add, Vc, dy_half, dy_one by lia. rewrite V2'.
      apply Qplus_comp; [reflexivity|]. vm_compute. reflexivity.
    - exists (Mc + 2 ^ (-1 - c) - 2 ^ (- c)), c. split; [reflexivity|].
      unfold Float.prec64, Float.emax64, SpecFloat.emin. change (2 ^ 53) with 9007199254740992. lia. }
  { cbn [value]. rewrite V2'. intros K.
    assert (E : (F2Q false 4503599627370496 (-52) == 1)%Q) by (vm_compute; reflexivity).
    rewrite E in K.
    change (inject_Z 4) with 4%Q in V4. lra. }
  rewrite E3. cbn [value] in V3.
  assert (V3' : (F2Q s3 m3 e3 == F2Q false mq eq - (1 # 2))%Q).
  { assert (E : (F2Q false 4503599627370496 (-52) == 1)%Q) by (vm_compute; reflexivity).
    rewrite V3, V2', E. lra. }
  assert (S3 : s3 = false).
  { apply (F2Q_sign s3 m3 e3). rewrite V3'.
    change (inject_Z 4) with 4%Q in V4. lra. }
  subst s3.
  (* narrowing to float *)
  unfold Float.of_double.
  destruct (binary_round_exact Float.prec32 Float.emax32 (proj1 prec32_ok) (proj2 prec32_ok) false m3 e3)
    as (m4 & e4 & E4 & B4 & V4').
  { apply (representable_ext _ _ (dy (Mc - 2 ^ (-1 - c)) c)).
    - unfold F2Q in V3'. cbn [cond_Zopp] in V3'. rewrite V3'.
      rewrite <- dy_sub, Vc, dy_half by lia. reflexivity.
    - exists (Mc - 2 ^ (-1 - c)), c. split; [reflexivity|].
      unfold Float.prec32, Float.emax32, SpecFloat.emin. change (2 ^ 24) with 16777216 in *.
      split; [|lia].
      destruct (Z_le_gt_dec eq (-1)) as [L|L].
      + replace c with eq in * by lia. replace (eq - eq) with 0 in EMc by lia.
        rewrite Z.mul_1_r in EMc. lia.
      + replace c with (-1) in * by lia. change (2 ^ (-1 - -1)) with 1.
        assert (2 ^ (22 - -1) = 8388608) by reflexivity. lia. }
  exists m4, e4. split; [exact E4|]. split; [exact B4|].
  rewrite V4'. exact V3'.
Qed.


Lemma truncate_positive m e : Float.truncate (S754_finite false m e) = Some (Qfloor (F2Q false m e)).
Proof.
  unfold F2Q. cbn [cond_Zopp]. destruct e as [|p|p]; cbn [Float.truncate cond_Zopp].
  - rewrite Qfloor_dy_pos by lia. reflexivity.
  - rewrite Qfloor_dy_pos by lia. reflexivity.
  - change (Z.neg p) with (- Z.pos p). rewrite Qfloor_dy_neg by lia. reflexivity.
Qed.

Lemma ltb_positive32 x vx y vy :
  Float.positive32 x vx -> Float.positive32 y vy ->
  (Float.ltb x y = true -> (vx < vy)%Q) /\ (Float.ltb x y = false -> (vy <= vx)%Q).
Proof.
  intros (mx & ex & -> & Bx & Vx) (my & ey & -> & By & Vy).
  unfold Float.ltb, SFltb.
  rewrite (SFcompare_finite Float.prec32 Float.emax32 (proj1 prec32_ok) _ _ _ _ _ _ Bx By).
  rewrite <- Vx, <- Vy.
  destruct (F2Q false mx ex ?= F2Q false my ey)%Q eqn:C; split; intros H; try discriminate.
  - apply Qeq_alt in C. rewrite C. apply Qle_refl.
  - apply Qlt_alt. exact C.
  - apply Qgt_alt in C. apply Qlt_le_weak. exact C.
Qed.

Lemma positive32_value x v : Float.positive32 x v -> (value x == v)%Q /\ (0 < v)%Q.
Proof.
  intros (m & e & -> & B & V). cbn [value]. split; [exact V|].
  rewrite <- V. apply F2Q_pos.
Qed.

Lemma positive32_ext x v w : (v == w)%Q -> Float.positive32 x v -> Float.positive32 x w.
Proof.
  intros E (m & e & H & B & V). exists m, e. repeat split; try assumption.
  rewrite V. exact E.
Qed.

Lemma to_uint8_positive32 x v :
  Float.positive32 x v -> (v <= 255)%Q -> Float.to_uint8 x = Some (Qfloor v).
Proof.
  intros (m & e & -> & B & V) H. unfold Float.to_uint8, Float.to_unsigned.
  rewrite truncate_positive.
  assert (Qfloor (F2Q false m e) = Qfloor v) by (apply Qfloor_comp; exact V).
  rewrite H0.
  assert (0 <= Qfloor v).
  { change 0 with (Qfloor 0). apply Qfloor_resp_le. rewrite <- V.
    apply Qlt_le_weak, F2Q_pos. }
  assert (Qfloor v <= 255).
  { change 255 with (Qfloor 255). apply Qfloor_resp_le. exact H. }
  destruct (0 <=? Qfloor v) eqn:E1; [|apply Z.leb_gt in E1; lia].
  destruct (Qfloor v <=? 255) eqn:E2; [|apply Z.leb_gt in E2; lia].
  reflexivity.
Qed.

Lemma limit_prescale_spec pv v :
  Float.positive32 pv v -> (3 <= v)%Q ->
  Float.to_uint8 (limit_prescale pv) = Some (Z.min 255 (Qfloor v)).
Proof.
  intros P H. unfold limit_prescale.
  pose proof (of_int_exact 3 ltac:(cbn; lia)) as P3.
  pose proof (of_int_exact 255 ltac:(cbn; lia)) as P255.
  destruct (ltb_positive32 pv v _ _ P P3) as [L1 _].
  destruct (Float.ltb pv (Float.of_int 3)).
  { specialize (L1 eq_refl). change (inject_Z 3) with 3%Q in L1. lra. }
  unfold Float.gtb. change (SFltb (Float.of_int 255) pv) with (Float.ltb (Float.of_int 255) pv).
  destruct (ltb_positive32 _ _ pv v P255 P) as [L2 L3].
  destruct (Float.ltb (Float.of_int 255) pv).
  - specialize (L2 eq_refl). change (inject_Z 255) with 255%Q in L2.
    assert (255 <= Qfloor v).
    { change 255 with (Qfloor 255). apply Qfloor_resp_le. lra. }
    rewrite Z.min_l by lia. reflexivity.
  - specialize (L3 eq_refl). change (inject_Z 255) with 255%Q in L3.
    rewrite (to_uint8_positive32 pv v P L3).
    assert (Qfloor v <= 255).
    { change 255 with (Qfloor 255). apply Qfloor_resp_le. lra. }
    rewrite Z.min_r by lia. reflexivity.
Qed.

Lemma Qfloor_minus_1 x : Qfloor (x - 1) = Qfloor x - 1.
Proof.
  pose proof (Qfloor_le x) as L. pose proof (Qlt_floor x) as U.
  pose proof (Qfloor_le (x - 1)) as L'. pose proof (Qlt_floor (x - 1)) as U'.
  rewrite inject_Z_plus in U, U'. change (inject_Z 1) with 1%Q in *.
  assert (A : (inject_Z (Qfloor x - 1) < inject_Z (Qfloor (x - 1) + 1))%Q).
  { unfold Z.sub. rewrite !inject_Z_plus, inject_Z_opp. change (inject_Z 1) with 1%Q. lra. }
  assert (A' : (inject_Z (Qfloor (x - 1)) < inject_Z (Qfloor x - 1 + 1))%Q).
  { unfold Z.sub. rewrite !inject_Z_plus, inject_Z_opp. change (inject_Z 1) with 1%Q. lra. }
  rewrite <- Zlt_Qlt in A, A'. lia.
Qed.

Lemma upper_limit_range osc :
  16384 <= osc <= UINT32_MAX -> 1 <= upper_limit osc <= 262143.
Proof.
  unfold upper_limit, UINT32_MAX. intros H. split.
  - apply Z.div_le_lower_bound; lia.
  - assert (osc / 16384 < 262144) by (apply Z.div_lt_upper_bound; lia). lia.
Qed.

Lemma prescaler_chain osc f vf :
  16384 <= osc <= UINT32_MAX ->
  Float.positive32 f vf -> (1 <= vf <= inject_Z (upper_limit osc))%Q ->
  exists vq, Float.positive32 (quotient osc f) vq /\ (4 <= vq)%Q /\
    Float.to_uint8 (limit_prescale (prescale_value osc f)) =
    Some (Z.max 3 (Z.min 255 (Qfloor (vq + (1 # 2)) - 1))).
Proof.
  intros Hosc Pf [Hf1 Hf2].
  pose proof (upper_limit_range osc Hosc) as Hu.
  pose proof Pf as Pf'. destruct Pf' as (mf & ef & -> & Bf & Vf).
  (* the magnitude of the frequency *)
  assert (Gf : 1 <= Zdigits2 (Z.pos mf) + ef <= 100).
  { split.
    - assert (A : (bpow 0 <= dy (Z.pos mf) ef)%Q).
      { change (bpow 0) with 1%Q. unfold F2Q in Vf. cbn [cond_Zopp] in Vf. rewrite Vf. exact Hf1. }
      apply bpow_le_dy in A; lia.
    - assert (A : (dy (Z.pos mf) ef < bpow 18)%Q).
      { unfold F2Q in Vf. cbn [cond_Zopp] in Vf. rewrite Vf.
        eapply Qle_lt_trans; [exact Hf2|].
        change (bpow 18) with (inject_Z 262144). rewrite <- Zlt_Qlt. lia. }
      apply dy_lt_bpow in A; lia. }
  (* 4096 * frequency *)
  destruct (mul_4096 mf ef Bf Gf) as (mY & eY & EY & BY & VY).
  assert (GY : 13 <= Zdigits2 (Z.pos mY) + eY).
  { assert (A : (bpow 12 <= dy (Z.pos mY) eY)%Q).
    { unfold F2Q in VY. cbn [cond_Zopp] in VY. rewrite VY.
      change (bpow 12) with 4096%Q. change (inject_Z 4096) with 4096%Q.
      rewrite Vf. lra. }
    apply bpow_le_dy in A; lia. }
  (* the oscillator frequency as a float *)
  destruct (of_int_uint32 osc) as (mX & eX & EX & BX & VX & GX).
  { unfold UINT32_MAX in Hosc. change (2 ^ 32) with 4294967296. lia. }
  assert (HXY : (inject_Z 4 * F2Q false mY eY <= F2Q false mX eX)%Q).
  { eapply Qle_trans; [|exact VX]. rewrite VY, Vf.
    fold (upper_limit osc). rewrite inject_Z_mult.
    change (inject_Z 4) with 4%Q. change (inject_Z 4096) with 4096%Q.
    change (inject_Z 16384) with 16384%Q. lra. }
  destruct (div_lower mX eX mY eY HXY GX GY) as (mq & eq & Eq & Bq & Gq).
  assert (Q : quotient osc (S754_finite false mf ef) = S754_finite false mq eq).
  { unfold quotient. rewrite EX, EY. exact Eq. }
  exists (F2Q false mq eq).
  assert (V4 : (4 <= F2Q false mq eq)%Q).
  { change 4%Q with (bpow 2). apply bpow_le_dy; [reflexivity|]. cbn [cond_Zopp]. lia. }
  split; [|split; [exact V4|]].
  { rewrite Q. exists mq, eq. split; [reflexivity|split; [exact Bq|reflexivity]]. }
  unfold prescale_value. rewrite Q.
  pose proof (prescale_value_exact mq eq Bq Gq) as Pv.
  rewrite (limit_prescale_spec _ _ Pv) by lra.
  f_equal.
  assert (F : Qfloor (F2Q false mq eq - (1 # 2)) = Qfloor (F2Q false mq eq + (1 # 2)) - 1).
  { rewrite <- Qfloor_minus_1. apply Qfloor_comp. lra. }
  assert (3 <= Qfloor (F2Q false mq eq - (1 # 2))).
  { change 3 with (Qfloor 3). apply Qfloor_resp_le. lra. }
  rewrite <- F. lia.
Qed.

Lemma limit_frequency_id osc f vf :
  16384 <= osc <= UINT32_MAX ->
  Float.positive32 f vf -> (1 <= vf <= inject_Z (upper_limit osc))%Q ->
  limit_frequency osc f = f.
Proof.
  intros Hosc Pf [H1 H2]. pose proof (upper_limit_range osc Hosc) as Hu.
  unfold limit_frequency.
  pose proof (of_int_exact 1 ltac:(cbn; lia)) as P1.
  pose proof (of_int_exact (upper_limit osc) ltac:(change (2 ^ 24) with 16777216; lia)) as PU.
  destruct (ltb_positive32 f vf _ _ Pf P1) as [L1 _].
  destruct (Float.ltb f (Float.of_int 1)).
  { specialize (L1 eq_refl). change (inject_Z 1) with 1%Q in L1. lra. }
  unfold Float.gtb.
  change (SFltb (Float.of_int (upper_limit osc)) f) with (Float.ltb (Float.of_int (upper_limit osc)) f).
  destruct (ltb_positive32 _ _ f vf PU Pf) as [L2 _].
  destruct (Float.ltb (Float.of_int (upper_limit osc)) f); [|reflexivity].
  specialize (L2 eq_refl). lra.
Qed.

(** ** The frequency and prescaler limits *)

Lemma ltb_bounded sx mx ex sy my ey :
  bounded Float.prec32 Float.emax32 mx ex = true ->
  bounded Float.prec32 Float.emax32 my ey = true ->
  (Float.ltb (S754_finite sx mx ex) (S754_finite sy my ey) = true ->
   (F2Q sx mx ex < F2Q sy my ey)%Q) /\
  (Float.ltb (S754_finite sx mx ex) (S754_finite sy my ey) = false ->
   (F2Q sy my ey <= F2Q sx mx ex)%Q).
Proof.
  intros Bx By. unfold Float.ltb, SFltb.
  rewrite (SFcompare_finite Float.prec32 Float.emax32 (proj1 prec32_ok) _ _ _ _ _ _ Bx By).
  destruct (F2Q sx mx ex ?= F2Q sy my ey)%Q eqn:C; split; intros H; try discriminate.
  - apply Qeq_alt in C. rewrite C. apply Qle_refl.
  - apply Qlt_alt. exact C.
  - apply Qgt_alt in C. apply Qlt_le_weak. exact C.
Qed.

Lemma positive32_of_valid f :
  valid_binary Float.prec32 Float.emax32 f = true -> (0 < value f)%Q ->
  Float.positive32 f (value f).
Proof.
  intros V P. destruct f as [s|s| |s m e]; cbn [value] in *;
    try (exfalso; apply (Qlt_irrefl 0); exact P).
  pose proof (F2Q_sign s m e P). subst s.
  exists m, e. split; [reflexivity|]. split; [exact V|reflexivity].
Qed.

Lemma of_int_value n :
  0 <= n < 2 ^ 24 ->
  is_finite (Float.of_int n) = true /\ (value (Float.of_int n) == inject_Z n)%Q.
Proof.
  intros H. destruct (Z.eq_dec n 0) as [->|N].
  - split; reflexivity.
  - destruct (of_int_exact n ltac:(lia)) as (m & e & E & B & V).
    rewrite E. split; [reflexivity|exact V].
Qed.

Lemma limit_frequency_range osc f :
  16384 <= osc <= UINT32_MAX ->
  valid_binary Float.prec32 Float.emax32 f = true -> is_nan f = false ->
  exists v, Float.positive32 (limit_frequency osc f) v /\
            (1 <= v <= inject_Z (upper_limit osc))%Q.
Proof.
  intros Hosc V N. pose proof (upper_limit_range osc Hosc) as Hu.
  pose proof (of_int_exact 1 ltac:(cbn; lia)) as P1.
  pose proof (of_int_exact (upper_limit osc) ltac:(change (2 ^ 24) with 16777216; lia)) as PU.
  assert (U1 : (1 <= inject_Z (upper_limit osc))%Q).
  { change 1%Q with (inject_Z 1). rewrite <- Zle_Qle. lia. }
  assert (R1 : exists v, Float.positive32 (Float.of_int 1) v /\
                         (1 <= v <= inject_Z (upper_limit osc))%Q).
  { exists (inject_Z 1). split; [exact P1|]. change (inject_Z 1) with 1%Q. lra. }
  assert (RU : exists v, Float.positive32 (Float.of_int (upper_limit osc)) v /\
                         (1 <= v <= inject_Z (upper_limit osc))%Q).
  { exists (inject_Z (upper_limit osc)). split; [exact PU|]. lra. }
  unfold limit_frequency.
  destruct f as [s|s| |s m e]; [| | discriminate N |].
  - (* a zero *)
    replace (Float.ltb (S754_zero s) (Float.of_int 1)) with true
      by (destruct s; reflexivity).
    exact R1.
  - (* an infinity *)
    destruct s.
    + replace (Float.ltb (S754_infinity true) (Float.of_int 1)) with true by reflexivity.
      exact R1.
    + replace (Float.ltb (S754_infinity false) (Float.of_int 1)) with false by reflexivity.
      destruct PU as (mu & eu & Eu & _). rewrite Eu in *. cbn. rewrite <- Eu in *. exact RU.
  - (* a finite number *)
    cbn [valid_binary] in V.
    destruct P1 as (m1 & e1 & E1 & B1 & V1). rewrite E1.
    destruct (ltb_bounded s m e false m1 e1 V B1) as [La Lb].
    destruct (Float.ltb (S754_finite s m e) (S754_finite false m1 e1)).
    { rewrite <- E1. exact R1. }
    specialize (Lb eq_refl). rewrite V1 in Lb. change (inject_Z 1) with 1%Q in Lb.
    unfold Float.gtb.
    change (SFltb ?a ?b) with (Float.ltb a b).
    destruct PU as (mu & eu & Eu & Bu & Vu). rewrite Eu.
    destruct (ltb_bounded false mu eu s m e Bu V) as [Lc Ld].
    destruct (Float.ltb (S754_finite false mu eu) (S754_finite s m e)).
    { rewrite <- Eu. exact RU. }
    specialize (Ld eq_refl). rewrite Vu in Ld.
    assert (P : (0 < F2Q s m e)%Q) by lra.
    pose proof (F2Q_sign s m e P). subst s.
    exists (F2Q false m e). split; [|lra].
    exists m, e. split; [reflexivity|]. split; [exact V|reflexivity].
Qed.

Lemma round_minus_one_clamped_range q : 3 <= round_minus_one_clamped q <= 255.
Proof. unfold round_minus_one_clamped. lia. Qed.

(** The prescaler for a frequency that is already within its limits. *)
Lemma prescaler_limited osc f v :
  16384 <= osc <= UINT32_MAX ->
  Float.positive32 f v -> (1 <= v <= inject_Z (upper_limit osc))%Q ->
  Float.to_uint8 (limit_prescale (prescale_value osc f)) =
    Some (round_minus_one_clamped (value (quotient osc f))) /\
  Float.positive32 (quotient osc f) (value (quotient osc f)) /\
  (4 <= value (quotient osc f))%Q.
Proof.
  intros Hosc P H.
  destruct (prescaler_chain osc f v Hosc P H) as (vq & Pq & H4 & E).
  destruct (positive32_value _ _ Pq) as [Vq _].
  assert (R : round_minus_one_clamped (value (quotient osc f)) =
              Z.max 3 (Z.min 255 (Qfloor (vq + (1 # 2)) - 1))).
  { unfold round_minus_one_clamped. f_equal. f_equal. f_equal.
    apply Qfloor_comp. rewrite Vq. reflexivity. }
  rewrite R. split; [exact E|]. split.
  - apply (positive32_ext _ vq); [symmetry; exact Vq|exact Pq].
  - rewrite Vq. exact H4.
Qed.

(** The prescaler for any frequency that is a number. *)
Lemma prescaler_defined osc f :
  16384 <= osc <= UINT32_MAX ->
  valid_binary Float.prec32 Float.emax32 f = true -> is_nan f = false ->
  prescaler osc f =
    Some (round_minus_one_clamped (value (quotient osc (limit_frequency osc f)))).
Proof.
  intros Hosc V N.
  destruct (limit_frequency_range osc f Hosc V N) as (v & P & H).
  unfold prescaler. apply (prescaler_limited osc _ v Hosc P H).
Qed.

Lemma upper_limit_positive osc :
  0 <= osc -> 1 <= upper_limit osc -> 16384 <= osc.
Proof.
  unfold upper_limit. intros H0 H.
  destruct (Z_lt_le_dec osc 16384) as [L|G]; [|exact G].
  rewrite Z.div_small in H by lia. lia.
Qed.

(** ** Register accesses *)

Lemma to_uint8_range x : 0 <= to_uint8 x < 256.
Proof. unfold to_uint8. apply Z.mod_pos_bound. lia. Qed.

Lemma to_uint8_small x : 0 <= x < 256 -> to_uint8 x = x.
Proof. intros H. unfold to_uint8. apply Z.mod_small. exact H. Qed.

Lemma to_uint8_idem x : to_uint8 (to_uint8 x) = to_uint8 x.
Proof. apply to_uint8_small, to_uint8_range. Qed.

Lemma update_same {A} (f : Z -> A) k v : update f k v k = v.
Proof. unfold update. rewrite Z.eqb_refl. reflexivity. Qed.

Lemma update_other {A} (f : Z -> A) k v x : x <> k -> update f k v x = f x.
Proof. intros H. unfold update. apply Z.eqb_neq in H. rewrite H. reflexivity. Qed.

Lemma readByte_run reg this :
  readByte reg this =
  Some (to_uint8 (register (_i2c this) (_i2c_address this) (to_uint8 reg)),
        with_i2c this (after_read (_i2c_address this) reg (_i2c this))).
Proof.
  unfold readByte, bind, this_field, i2c, i2c_read, ret, register, after_read.
  unfold Wire.read, Wire.requestFrom, Wire.endTransmission, Wire.write,
    Wire.beginTransmission, with_i2c.
  cbn. rewrite update_same. cbn. rewrite <- app_assoc. reflexivity.
Qed.

Lemma writeByte_run addressType reg data this :
  writeByte addressType reg data this =
  Some (tt, with_i2c this
              (after_write (getAddress this addressType) reg data (_i2c this))).
Proof. reflexivity. Qed.

Lemma debug_read_run reg this :
  debug_read reg this =
  Some (tt, with_i2c this (after_read (_i2c_address this) reg (_i2c this))).
Proof.
  unfold debug_read, when, ENABLE_DEBUG_OUTPUT, bind.
  rewrite readByte_run. reflexivity.
Qed.

Lemma register_after_read a r w a' r' :
  register (after_read a r w) a' r' = register w a' r'.
Proof.
  unfold register, after_read, update; cbn.
  destruct (a' =? a) eqn:E; [apply Z.eqb_eq in E; subst|]; reflexivity.
Qed.

Lemma register_after_write_same a r d w :
  register (after_write a r d w) a r = to_uint8 d.
Proof.
  unfold register, after_write; cbn. rewrite update_same; cbn.
  unfold to_uint8 at 1. rewrite Z.mod_mod by lia. apply update_same.
Qed.

Lemma register_after_write_other a r d w a' r' :
  a' <> a \/ r' mod 256 <> r mod 256 ->
  register (after_write a r d w) a' r' = register w a' r'.
Proof.
  intros H. unfold register, after_write, update; cbn.
  destruct (a' =? a) eqn:E; [apply Z.eqb_eq in E; subst|reflexivity].
  cbn. unfold to_uint8. rewrite Z.mod_mod by lia.
  destruct (r' mod 256 =? r mod 256) eqn:E'; [apply Z.eqb_eq in E'|reflexivity].
  destruct H; congruence.
Qed.

Lemma history_after_read a r w :
  history (after_read a r w) = history w ++ read_events a (to_uint8 r).
Proof. reflexivity. Qed.

Lemma history_after_write a r d w :
  history (after_write a r d w) = history w ++ [Transmit a [to_uint8 r; to_uint8 d]].
Proof. reflexivity. Qed.

Lemma history_elapse ms w : history (elapse ms w) = history w ++ [Delay ms].
Proof. reflexivity. Qed.

Lemma register_elapse ms w a r : register (elapse ms w) a r = register w a r.
Proof. reflexivity. Qed.

(** ** The member functions, run *)

Lemma getAddress_with_i2c this w addressType :
  getAddress (with_i2c this w) addressType = getAddress this addressType.
Proof. destruct addressType; reflexivity. Qed.

Lemma getAddress_with_osillator_freq this f addressType :
  getAddress (with_osillator_freq this f) addressType = getAddress this addressType.
Proof. destruct addressType; reflexivity. Qed.

(** Run the register accesses of a member function one after the other. *)
Ltac run :=
  repeat first
    [ rewrite readByte_run
    | rewrite debug_read_run
    | rewrite writeByte_run
    | rewrite getAddress_with_i2c
    | rewrite getAddress_with_osillator_freq
    | progress cbn [_i2c _i2c_address _osillator_freq with_i2c with_osillator_freq
                    lift ret delay i2c]
    | progress cbv beta iota ].

Lemma sleep_run addressType this :
  sleep addressType this =
  Some (tt, with_i2c this
    (after_write (getAddress this addressType) PCA9685_MODE1
       (Z.lor (to_uint8 (register (_i2c this) (_i2c_address this) PCA9685_MODE1)) MODE1_SLEEP)
       (after_read (_i2c_address this) PCA9685_MODE1 (_i2c this)))).
Proof. unfold sleep, bind. rewrite readByte_run. reflexivity. Qed.

Lemma wakeUp_run addressType this :
  wakeUp addressType this =
  Some (tt, with_i2c this
    (after_write (getAddress this addressType) PCA9685_MODE1
       (Z.land (to_uint8 (register (_i2c this) (_i2c_address this) PCA9685_MODE1))
               (Z.lnot MODE1_SLEEP))
       (after_read (_i2c_address this) PCA9685_MODE1 (_i2c this)))).
Proof. unfold wakeUp, bind. rewrite readByte_run. reflexivity. Qed.

Lemma setOutputType_run type addressType this :
  setOutputType type addressType this =
  Some (tt, with_i2c this
    (after_read (_i2c_address this) PCA9685_MODE2
       (after_write (getAddress this addressType) PCA9685_MODE2
          (to_uint8 (register (_i2c this) (_i2c_address this) PCA9685_MODE2))
          (after_read (_i2c_address this) PCA9685_MODE2 (_i2c this))))).
Proof.
  unfold setOutputType, bind. rewrite readByte_run.
  rewrite writeByte_run. rewrite debug_read_run. reflexivity.
Qed.

Lemma getPWMFrequency_run this :
  getPWMFrequency this =
  Some (Float.of_int
          (_osillator_freq this /
           (4096 * (to_uint8 (register (_i2c this) (_i2c_address this) PCA9685_PRESCALE) + 1))),
        with_i2c this (after_read (_i2c_address this) PCA9685_PRESCALE (_i2c this))).
Proof. unfold getPWMFrequency, bind, this_field. rewrite readByte_run. reflexivity. Qed.

(** The bus after the register sequence of [setPWMFrequency]. *)
Lemma setPWMFrequency_run frequency addressType this prescale :
  prescaler (_osillator_freq this) frequency = Some prescale ->
  setPWMFrequency frequency addressType this =
  let address := getAddress this addressType in
  let primary := _i2c_address this in
  let current_mode1 := to_uint8 (register (_i2c this) primary PCA9685_MODE1) in
  Some (Float.of_int (_osillator_freq this / (4096 * (prescale + 1))),
        with_i2c this
         (after_read primary PCA9685_MODE1
           (after_write address PCA9685_MODE1
              (Z.lor (Z.lor current_mode1 MODE1_RESTART) MODE1_AI)
             (elapse 5
               (after_write address PCA9685_MODE1 current_mode1
                 (after_write address PCA9685_PRESCALE prescale
                   (after_write address PCA9685_MODE1
                      (Z.lor (Z.land current_mode1 (Z.lnot MODE1_RESTART)) MODE1_SLEEP)
                     (after_read primary PCA9685_MODE1
                       (after_read primary PCA9685_MODE1 (_i2c this)))))))))).
Proof.
  intros H. unfold setPWMFrequency, bind, this_field. rewrite H.
  run. reflexivity.
Qed.

Lemma setPWMFrequency_undefined frequency addressType this :
  prescaler (_osillator_freq this) frequency = None ->
  setPWMFrequency frequency addressType this = None.
Proof. intros H. unfold setPWMFrequency, bind, this_field. rewrite H. reflexivity. Qed.

(** The bus after the register sequence of [setExtClock]. *)
Lemma setExtClock_run frequency pwmFrequency addressType this osc prescale :
  Float.to_uint32 frequency = Some osc ->
  prescaler osc pwmFrequency = Some prescale ->
  setExtClock frequency pwmFrequency addressType this =
  let address := getAddress this addressType in
  let primary := _i2c_address this in
  let mode1 := to_uint8 (register (_i2c this) primary PCA9685_MODE1) in
  let mode := to_uint8 (Z.lor (Z.land mode1 (Z.lnot MODE1_RESTART)) MODE1_SLEEP) in
  let mode' := to_uint8 (Z.lor mode MODE1_EXTCLK) in
  Some (tt,
        with_i2c (with_osillator_freq this osc)
         (after_read primary PCA9685_MODE1
           (after_write address PCA9685_MODE1
              (Z.lor (Z.lor (Z.land mode' (Z.lnot MODE1_SLEEP)) MODE1_RESTART) MODE1_AI)
             (after_write address PCA9685_PRESCALE prescale
               (after_write address PCA9685_MODE1 mode'
                 (after_write address PCA9685_MODE1 mode
                   (after_read primary PCA9685_MODE1 (_i2c this)))))))).
Proof.
  intros H1 H2. unfold setExtClock, bind, this_field, setOscillFrequency.
  run. rewrite H1. run. rewrite H2. run. reflexivity.
Qed.

(** Spell out the history of a bus built from register accesses. *)
Ltac histories :=
  unfold extends; cbn [_i2c with_i2c with_osillator_freq];
  repeat first
    [ rewrite history_after_read
    | rewrite history_after_write
    | rewrite history_elapse ];
  rewrite <- ?app_assoc.

(** The bus after a burst of five bytes. *)
Lemma setPWMOutput_run output on off addressType this :
  setPWMOutput output on off addressType this =
  Some (tt, with_i2c this
    (burst (getAddress this addressType)
       [to_uint8 (PCA9685_LED0_ON_L + 4 * output);
        to_uint8 (Z.land on 0xFF); to_uint8 (Z.land (Z.shiftr on 8) 0xFF);
        to_uint8 (Z.land off 0xFF); to_uint8 (Z.land (Z.shiftr off 8) 0xFF)]
       (_i2c this))).
Proof. reflexivity. Qed.

(** ** Bytes and bits *)

Lemma to_uint8_land_ones x : to_uint8 x = Z.land x (Z.ones 8).
Proof. unfold to_uint8. rewrite Z.land_ones by lia. reflexivity. Qed.

Lemma to_uint8_lor a b : to_uint8 (Z.lor a b) = Z.lor (to_uint8 a) (to_uint8 b).
Proof. rewrite !to_uint8_land_ones. apply Z.land_lor_distr_l. Qed.

Lemma to_uint8_land a b : to_uint8 (Z.land a b) = Z.land (to_uint8 a) b.
Proof.
  rewrite !to_uint8_land_ones.
  rewrite <- !Z.land_assoc. f_equal. apply Z.land_comm.
Qed.

Lemma land_255 x : Z.land x 0xFF = to_uint8 x.
Proof. rewrite to_uint8_land_ones. reflexivity. Qed.

Lemma testbit_to_uint8 x i :
  Z.testbit (to_uint8 x) i = if i <? 8 then Z.testbit x i else false.
Proof.
  unfold to_uint8. change 256 with (2 ^ 8).
  destruct (i <? 8) eqn:E.
  - apply Z.ltb_lt in E. destruct (Z_lt_le_dec i 0) as [L|G].
    + rewrite !Z.testbit_neg_r by lia. reflexivity.
    + apply Z.mod_pow2_bits_low. lia.
  - apply Z.ltb_ge in E. apply Z.mod_pow2_bits_high. lia.
Qed.

Lemma testbit_MODE1_SLEEP i : Z.testbit MODE1_SLEEP i = (i =? 4).
Proof.
  change MODE1_SLEEP with (2 ^ 4).
  destruct (Z_lt_le_dec i 0) as [L|G].
  - rewrite Z.testbit_neg_r by lia. symmetry. apply Z.eqb_neq. lia.
  - rewrite Z.pow2_bits_eqb by lia. apply Z.eqb_sym.
Qed.

(** * The claims *)

(** C7. For each of the five address selectors, [getAddress] returns the
    correspondingly stored address: [Normal] gives the primary address
    whatever the four alternate fields hold, and [AllCall], [SubCall1],
    [SubCall2], [SubCall3] give the stored all-call and sub-call
    addresses. *)
Theorem getAddress_resolves :
  forall (i2c : TwoWire) (primary allCall sub1 sub2 sub3 osc : Z),
    getAddress (Build_PCA9685_Driver i2c primary allCall sub1 sub2 sub3 osc) Normal = primary /\
    getAddress (Build_PCA9685_Driver i2c primary allCall sub1 sub2 sub3 osc) AllCall = allCall /\
    getAddress (Build_PCA9685_Driver i2c primary allCall sub1 sub2 sub3 osc) SubCall1 = sub1 /\
    getAddress (Build_PCA9685_Driver i2c primary allCall sub1 sub2 sub3 osc) SubCall2 = sub2 /\
    getAddress (Build_PCA9685_Driver i2c primary allCall sub1 sub2 sub3 osc) SubCall3 = sub3.
Proof. intros. repeat split. Qed.

(** C6. For every channel 0..15 and all 16-bit on/off ticks,
    [setPWMOutput] succeeds and adds exactly one transaction to the bus
    history: a transmission to the selected address of the base register
    [0x06 + 4 * channel] followed by the four data bytes [on & 0xFF],
    [(on >> 8) & 0xFF], [off & 0xFF], [(off >> 8) & 0xFF], in that
    order. *)
Theorem setPWMOutput_burst :
  forall (this : PCA9685_Driver) (channel on off : Z) (addressType : EAddressType),
    0 <= channel <= 15 -> 0 <= on < 65536 -> 0 <= off < 65536 ->
    exists this',
      setPWMOutput channel on off addressType this = Some (tt, this') /\
      extends this this'
        [Transmit (getAddress this addressType)
           [0x06 + 4 * channel;
            Z.land on 0xFF; Z.land (Z.shiftr on 8) 0xFF;
            Z.land off 0xFF; Z.land (Z.shiftr off 8) 0xFF]].
Proof.
  intros this channel on off addressType Hc Hon Hoff.
  eexists. split; [apply setPWMOutput_run|].
  unfold extends, burst. cbn [history _i2c with_i2c]. unfold PCA9685_LED0_ON_L.
  rewrite !land_255, !to_uint8_idem.
  rewrite (to_uint8_small (6 + 4 * channel)) by lia. reflexivity.
Qed.

Lemma setPWMOutput_burst_witness :
  (0 <= 3 <= 15 /\ 0 <= 0x123 < 65536 /\ 0 <= 0xABC < 65536) /\
  exists this',
    setPWMOutput 3 0x123 0xABC AllCall (sample_driver 0 OSC_FREQ) = Some (tt, this') /\
    extends (sample_driver 0 OSC_FREQ) this'
      [Transmit 0x70 [0x12; 0x23; 0x01; 0xBC; 0x0A]].
Proof.
  split; [lia|].
  apply (setPWMOutput_burst (sample_driver 0 OSC_FREQ) 3 0x123 0xABC AllCall); lia.
Defined.

(** C9. For every frequency [f], [setOscillFrequency f] touches nothing
    on the bus: the bus object (buffers, chip registers, history) and the
    five addresses stay as they were and only the cached oscillator field
    changes.  A following [getOscillFrequency] returns [f], and the
    frequency arithmetic that follows uses [f]: [getPWMFrequency] divides
    [f], and [setPWMFrequency] derives its prescaler and its result from
    [f]. *)
Theorem setOscillFrequency_frame :
  forall (this : PCA9685_Driver) (f : Z),
    exists this',
      setOscillFrequency f this = Some (tt, this') /\
      _i2c this' = _i2c this /\
      _i2c_address this' = _i2c_address this /\
      _i2c_allCall_address this' = _i2c_allCall_address this /\
      _i2c_sub1_address this' = _i2c_sub1_address this /\
      _i2c_sub2_address this' = _i2c_sub2_address this /\
      _i2c_sub3_address this' = _i2c_sub3_address this /\
      _osillator_freq this' = f /\
      getOscillFrequency this' = Some (f, this') /\
      (exists this'',
         getPWMFrequency this' =
         Some (Float.of_int
                 (f / (4096 * (to_uint8 (register (_i2c this) (_i2c_address this)
                                           PCA9685_PRESCALE) + 1))),
               this'')) /\
      (forall frequency addressType,
         match prescaler f frequency with
         | Some prescale =>
             exists this'',
               setPWMFrequency frequency addressType this' =
               Some (Float.of_int (f / (4096 * (prescale + 1))), this'')
         | None => setPWMFrequency frequency addressType this' = None
         end).
Proof.
  intros this f. eexists. split; [reflexivity|].
  repeat (split; [reflexivity|]). split.
  - eexists. rewrite getPWMFrequency_run. reflexivity.
  - intros frequency addressType.
    destruct (prescaler f frequency) as [prescale|] eqn:E.
    + eexists. rewrite (setPWMFrequency_run _ _ _ prescale) by exact E. reflexivity.
    + apply setPWMFrequency_undefined. exact E.
Qed.

(** C8. For every output type and every mode-2 value, [setOutputType]
    drops the result of its bit manipulation: the byte it writes to
    mode-2 is exactly the byte it has just read, whichever type was asked
    for, so the call does the same as with any other type and bit 2
    (OUTDRV) and every other bit of the chip's mode-2 value stay as they
    were.  (With [ENABLE_DEBUG_OUTPUT] the register is read back once
    more for the log.) *)
Theorem setOutputType_writes_back_what_it_read :
  forall (this : PCA9685_Driver) (type : EOutputType) (addressType : EAddressType),
    exists this',
      setOutputType type addressType this = Some (tt, this') /\
      extends this this'
        (read_events (_i2c_address this) PCA9685_MODE2 ++
         [Transmit (getAddress this addressType)
            [PCA9685_MODE2;
             to_uint8 (register (_i2c this) (_i2c_address this) PCA9685_MODE2)]] ++
         read_events (_i2c_address this) PCA9685_MODE2) /\
      setOutputType type addressType this = setOutputType OpenDrain addressType this /\
      setOutputType type addressType this = setOutputType TotemPole addressType this /\
      (forall i,
         Z.testbit (to_uint8 (register (_i2c this') (_i2c_address this) PCA9685_MODE2)) i =
         Z.testbit (to_uint8 (register (_i2c this) (_i2c_address this) PCA9685_MODE2)) i).
Proof.
  intros this type addressType. eexists. split; [apply setOutputType_run|].
  split; [|split; [|split]].
  - histories. rewrite to_uint8_idem. reflexivity.
  - rewrite !setOutputType_run. reflexivity.
  - rewrite !setOutputType_run. reflexivity.
  - intros i. cbn [_i2c with_i2c].
    rewrite register_after_read.
    destruct (Z.eq_dec (_i2c_address this) (getAddress this addressType)) as [E|N].
    + rewrite <- E, register_after_write_same, !to_uint8_idem. reflexivity.
    + rewrite register_after_write_other by (left; exact N).
      rewrite register_after_read. reflexivity.
Qed.

(** C10. Every register read of the driver is addressed to the primary
    address, whatever address selector the enclosing operation was given:
    [readByte] selects the register and requests one byte at
    [_i2c_address]; [sleep] and [wakeUp] read mode-1 there and then write
    the modified value to the selected address; and every request made by
    [readRegister], [getPWMFrequency], [setOutputType], [setExtClock] and
    [setPWMFrequency] goes to the primary address. *)
Theorem reads_go_to_the_primary_address :
  forall (this : PCA9685_Driver),
    (forall reg,
       exists this',
         readByte reg this =
           Some (to_uint8 (register (_i2c this) (_i2c_address this) reg), this') /\
         extends this this' (read_events (_i2c_address this) (to_uint8 reg))) /\
    (forall addressType,
       exists this',
         sleep addressType this = Some (tt, this') /\
         extends this this'
           (read_events (_i2c_address this) PCA9685_MODE1 ++
            [Transmit (getAddress this addressType)
               [PCA9685_MODE1;
                to_uint8 (Z.lor (to_uint8 (register (_i2c this) (_i2c_address this)
                                             PCA9685_MODE1)) MODE1_SLEEP)]])) /\
    (forall addressType,
       exists this',
         wakeUp addressType this = Some (tt, this') /\
         extends this this'
           (read_events (_i2c_address this) PCA9685_MODE1 ++
            [Transmit (getAddress this addressType)
               [PCA9685_MODE1;
                to_uint8 (Z.land (to_uint8 (register (_i2c this) (_i2c_address this)
                                              PCA9685_MODE1)) (Z.lnot MODE1_SLEEP))]])) /\
    (forall reg,
       exists v this' events,
         readRegister reg this = Some (v, this') /\
         extends this this' events /\ requests_to (_i2c_address this) events) /\
    (exists v this' events,
       getPWMFrequency this = Some (v, this') /\
       extends this this' events /\ requests_to (_i2c_address this) events) /\
    (forall type addressType,
       exists this' events,
         setOutputType type addressType this = Some (tt, this') /\
         extends this this' events /\ requests_to (_i2c_address this) events) /\
    (forall frequency pwmFrequency addressType,
       match setExtClock frequency pwmFrequency addressType this with
       | Some (_, this') =>
           exists events,
             extends this this' events /\ requests_to (_i2c_address this) events
       | None => True
       end) /\
    (forall frequency addressType,
       match setPWMFrequency frequency addressType this with
       | Some (_, this') =>
           exists events,
             extends this this' events /\ requests_to (_i2c_address this) events
       | None => True
       end).
Proof.
  intros this.
  assert (R : forall reg, register (_i2c this) (_i2c_address this) (to_uint8 reg) =
                          register (_i2c this) (_i2c_address this) reg).
  { intros reg. unfold register, to_uint8. rewrite Z.mod_mod by lia. reflexivity. }
  split; [|split; [|split; [|split; [|split; [|split; [|split]]]]]].
  - intros reg. eexists. rewrite readByte_run, R. split; [reflexivity|].
    histories. reflexivity.
  - intros addressType. eexists. split; [apply sleep_run|]. histories. reflexivity.
  - intros addressType. eexists. split; [apply wakeUp_run|]. histories. reflexivity.
  - intros reg. unfold readRegister. do 3 eexists. rewrite readByte_run.
    split; [reflexivity|]. split; [histories; reflexivity|].
    repeat constructor.
  - do 3 eexists. split; [apply getPWMFrequency_run|].
    split; [histories; reflexivity|].
    repeat constructor.
  - intros type addressType. do 2 eexists. split; [apply setOutputType_run|].
    split.
    + histories. reflexivity.
    + repeat constructor.
  - intros frequency pwmFrequency addressType.
    destruct (setExtClock frequency pwmFrequency addressType this) as [[u this']|] eqn:E;
      [|exact I].
    unfold setExtClock, bind, this_field, setOscillFrequency in E.
    revert E. run.
    destruct (Float.to_uint32 frequency) as [osc|]; [|discriminate]. run.
    destruct (prescaler osc pwmFrequency) as [prescale|]; [|discriminate]. run.
    intros E. injection E as _ E. subst this'.
    eexists. split.
    + histories. reflexivity.
    + repeat constructor.
  - intros frequency addressType.
    destruct (prescaler (_osillator_freq this) frequency) as [prescale|] eqn:P.
    + rewrite (setPWMFrequency_run _ _ _ prescale P). cbv zeta.
      eexists. split.
      * histories. reflexivity.
      * repeat constructor.
    + rewrite (setPWMFrequency_undefined _ _ _ P). exact I.
Qed.

Lemma lor_SLEEP_bits v i :
  Z.testbit (Z.lor v MODE1_SLEEP) i = if i =? 4 then true else Z.testbit v i.
Proof.
  rewrite Z.lor_spec, testbit_MODE1_SLEEP.
  destruct (i =? 4); [apply orb_true_r|apply orb_false_r].
Qed.

Lemma land_not_SLEEP_bits v i :
  Z.testbit (Z.land v (Z.lnot MODE1_SLEEP)) i = if i =? 4 then false else Z.testbit v i.
Proof.
  destruct (Z_lt_le_dec i 0) as [L|G].
  - rewrite !Z.testbit_neg_r by lia. destruct (i =? 4); reflexivity.
  - rewrite Z.land_spec, Z.lnot_spec, testbit_MODE1_SLEEP by lia.
    destruct (i =? 4); [apply andb_false_r|apply andb_true_r].
Qed.

Lemma land_not_SLEEP_value v :
  Z.land v (Z.lnot MODE1_SLEEP) = if Z.testbit v 4 then v - MODE1_SLEEP else v.
Proof.
  destruct (Z.testbit v 4) eqn:E.
  - rewrite <- Z.ldiff_land. symmetry. apply Z.sub_nocarry_ldiff.
    apply Z.bits_inj'. intros i Hi.
    rewrite Z.ldiff_spec, testbit_MODE1_SLEEP, Z.bits_0.
    destruct (i =? 4) eqn:E4; [|reflexivity].
    apply Z.eqb_eq in E4. subst i. rewrite E. reflexivity.
  - apply Z.bits_inj'. intros i Hi. rewrite land_not_SLEEP_bits.
    destruct (i =? 4) eqn:E4; [|reflexivity].
    apply Z.eqb_eq in E4. subst i. symmetry. exact E.
Qed.

Lemma wake_after_sleep v :
  Z.land (Z.lor v MODE1_SLEEP) (Z.lnot MODE1_SLEEP) = Z.land v (Z.lnot MODE1_SLEEP).
Proof.
  apply Z.bits_inj'. intros i Hi.
  rewrite !land_not_SLEEP_bits, lor_SLEEP_bits.
  destruct (i =? 4); reflexivity.
Qed.

(** C4, as the code has it.  For every initial mode-1 value [v],
    [sleep] sets only the SLEEP bit (bit 4) and [wakeUp] clears only the
    SLEEP bit, each by a read-modify-write that keeps every other bit.
    After [sleep] followed by [wakeUp] mode-1 is [v] with the SLEEP bit
    cleared: all other bits are those of [v], and the register equals [v]
    itself exactly when SLEEP was clear in [v]. *)
Theorem sleep_then_wakeUp :
  forall (this : PCA9685_Driver),
    exists asleep awake woken,
      sleep Normal this = Some (tt, asleep) /\
      wakeUp Normal asleep = Some (tt, awake) /\
      wakeUp Normal this = Some (tt, woken) /\
      (forall i,
         Z.testbit (register (_i2c asleep) (_i2c_address this) PCA9685_MODE1) i =
         if i =? 4 then true
         else Z.testbit (to_uint8 (register (_i2c this) (_i2c_address this) PCA9685_MODE1)) i) /\
      (forall i,
         Z.testbit (register (_i2c woken) (_i2c_address this) PCA9685_MODE1) i =
         if i =? 4 then false
         else Z.testbit (to_uint8 (register (_i2c this) (_i2c_address this) PCA9685_MODE1)) i) /\
      (forall i,
         Z.testbit (register (_i2c awake) (_i2c_address this) PCA9685_MODE1) i =
         if i =? 4 then false
         else Z.testbit (to_uint8 (register (_i2c this) (_i2c_address this) PCA9685_MODE1)) i) /\
      register (_i2c awake) (_i2c_address this) PCA9685_MODE1 =
        (if Z.testbit (to_uint8 (register (_i2c this) (_i2c_address this) PCA9685_MODE1)) 4
         then to_uint8 (register (_i2c this) (_i2c_address this) PCA9685_MODE1) - MODE1_SLEEP
         else to_uint8 (register (_i2c this) (_i2c_address this) PCA9685_MODE1)).
Proof.
  intros this.
  set (v := to_uint8 (register (_i2c this) (_i2c_address this) PCA9685_MODE1)).
  assert (Hv : to_uint8 v = v) by apply to_uint8_idem.
  assert (S1 : to_uint8 (Z.lor v MODE1_SLEEP) = Z.lor v MODE1_SLEEP).
  { rewrite to_uint8_lor, Hv. reflexivity. }
  assert (W1 : forall x, to_uint8 x = x ->
                 to_uint8 (Z.land x (Z.lnot MODE1_SLEEP)) = Z.land x (Z.lnot MODE1_SLEEP)).
  { intros x Hx. rewrite to_uint8_land, Hx. reflexivity. }
  do 3 eexists.
  split; [apply sleep_run|]. split; [apply wakeUp_run|]. split; [apply wakeUp_run|].
  cbn [_i2c _i2c_address with_i2c getAddress]. fold v.
  repeat first [rewrite register_after_write_same | rewrite register_after_read].
  fold v. rewrite ?S1, ?(W1 v Hv). rewrite ?S1, ?(W1 _ S1), ?wake_after_sleep.
  split; [intros i; apply lor_SLEEP_bits|].
  split; [intros i; apply land_not_SLEEP_bits|].
  split; [intros i; apply land_not_SLEEP_bits|].
  apply land_not_SLEEP_value.
Qed.

(** C4 as stated fails when SLEEP is already set: with mode-1 at its
    power-on value 0x11, [sleep] then [wakeUp] leave 0x01 in the
    register, not 0x11. *)
Lemma sleep_then_wakeUp_counterexample :
  exists asleep awake,
    sleep Normal (sample_driver 0x11 OSC_FREQ) = Some (tt, asleep) /\
    wakeUp Normal asleep = Some (tt, awake) /\
    register (_i2c (sample_driver 0x11 OSC_FREQ)) PCA9685_I2C_ADDR PCA9685_MODE1 = 0x11 /\
    register (_i2c awake) PCA9685_I2C_ADDR PCA9685_MODE1 = 0x01.
Proof.
  do 2 eexists.
  split; [apply sleep_run|]. split; [apply wakeUp_run|]. split; reflexivity.
Qed.

(** ** Setting the PWM frequency *)

Lemma to_unsigned_range max x n :
  Float.to_unsigned max x = Some n -> 0 <= n <= max.
Proof.
  unfold Float.to_unsigned. destruct (Float.truncate x) as [k|]; [|discriminate].
  destruct (0 <=? k) eqn:E1; [|discriminate].
  destruct (k <=? max) eqn:E2; [|discriminate].
  cbn [andb]. intros H. injection H as <-.
  apply Z.leb_le in E1. apply Z.leb_le in E2. lia.
Qed.

Lemma prescaler_range osc frequency prescale :
  prescaler osc frequency = Some prescale -> 0 <= prescale <= 255.
Proof. apply to_unsigned_range. Qed.

Lemma setPWMFrequency_ext f1 f2 addressType this :
  prescaler (_osillator_freq this) f1 = prescaler (_osillator_freq this) f2 ->
  setPWMFrequency f1 addressType this = setPWMFrequency f2 addressType this.
Proof.
  intros H. unfold setPWMFrequency, bind, this_field. rewrite H. reflexivity.
Qed.

Lemma prescaler_limit_frequency osc frequency :
  16384 <= osc <= UINT32_MAX ->
  valid_binary Float.prec32 Float.emax32 frequency = true -> is_nan frequency = false ->
  prescaler osc frequency = prescaler osc (limit_frequency osc frequency).
Proof.
  intros Hosc V N.
  destruct (limit_frequency_range osc frequency Hosc V N) as (v & P & H).
  unfold prescaler. rewrite (limit_frequency_id osc _ v Hosc P H). reflexivity.
Qed.

(** The registers after the sequence of [setPWMFrequency]. *)
Lemma prescale_register_after_sequence w primary address mode1 prescale m2 m3 m4 :
  register
    (after_read primary PCA9685_MODE1
       (after_write address PCA9685_MODE1 m4
          (elapse 5
             (after_write address PCA9685_MODE1 m3
                (after_write address PCA9685_PRESCALE prescale
                   (after_write address PCA9685_MODE1 m2
                      (after_read primary PCA9685_MODE1
                         (after_read primary mode1 w))))))))
    address PCA9685_PRESCALE = to_uint8 prescale.
Proof.
  rewrite register_after_read.
  rewrite register_after_write_other by (right; discriminate).
  rewrite register_elapse.
  rewrite register_after_write_other by (right; discriminate).
  apply register_after_write_same.
Qed.

Lemma actual_frequency_value osc prescale :
  0 <= osc <= UINT32_MAX -> 0 <= prescale ->
  is_finite (Float.of_int (osc / (4096 * (prescale + 1)))) = true /\
  (value (Float.of_int (osc / (4096 * (prescale + 1)))) ==
   inject_Z (osc / (4096 * (prescale + 1))))%Q.
Proof.
  intros Hosc Hp. apply of_int_value. split.
  - apply Z.div_pos; lia.
  - apply Z.div_lt_upper_bound; [lia|].
    unfold UINT32_MAX in Hosc. change (2 ^ 24) with 16777216. nia.
Qed.

(** C1, the prescale as the code computes it.  For every target
    frequency (a binary32 number) in [1, oscillatorFrequencyHz / 16384],
    [setPWMFrequency] leaves the frequency as it is, forms the
    single-precision quotient [q] of the oscillator frequency and
    [4096 * frequency], takes [prescale = floor(q + 0.5) - 1] clamped to
    [3, 255] (the value always lies in [3, 255]), and writes it to the
    prescaler register between the mode-1 writes. *)
Theorem setPWMFrequency_prescale :
  forall (this : PCA9685_Driver) (frequency : Float.float) (addressType : EAddressType),
    0 <= _osillator_freq this <= UINT32_MAX ->
    valid_binary Float.prec32 Float.emax32 frequency = true ->
    (1 <= value frequency <= inject_Z (upper_limit (_osillator_freq this)))%Q ->
    exists prescale actual this',
      limit_frequency (_osillator_freq this) frequency = frequency /\
      prescale =
        round_minus_one_clamped (value (quotient (_osillator_freq this) frequency)) /\
      3 <= prescale <= 255 /\
      setPWMFrequency frequency addressType this = Some (actual, this') /\
      extends this this'
        (read_events (_i2c_address this) PCA9685_MODE1 ++
         read_events (_i2c_address this) PCA9685_MODE1 ++
         [Transmit (getAddress this addressType)
            [PCA9685_MODE1;
             to_uint8 (Z.lor (Z.land (to_uint8 (register (_i2c this) (_i2c_address this)
                                                  PCA9685_MODE1))
                                     (Z.lnot MODE1_RESTART)) MODE1_SLEEP)];
          Transmit (getAddress this addressType) [PCA9685_PRESCALE; prescale];
          Transmit (getAddress this addressType)
            [PCA9685_MODE1;
             to_uint8 (register (_i2c this) (_i2c_address this) PCA9685_MODE1)];
          Delay 5;
          Transmit (getAddress this addressType)
            [PCA9685_MODE1;
             to_uint8 (Z.lor (Z.lor (to_uint8 (register (_i2c this) (_i2c_address this)
                                                 PCA9685_MODE1))
                                    MODE1_RESTART) MODE1_AI)]] ++
         read_events (_i2c_address this) PCA9685_MODE1) /\
      register (_i2c this') (getAddress this addressType) PCA9685_PRESCALE = prescale.
Proof.
  intros this frequency addressType Hosc V [H1 H2].
  assert (P : Float.positive32 frequency (value frequency)).
  { apply positive32_of_valid; [exact V|lra]. }
  assert (Hu : 1 <= upper_limit (_osillator_freq this)).
  { rewrite Zle_Qle. change (inject_Z 1) with 1%Q. lra. }
  assert (Hosc' : 16384 <= _osillator_freq this <= UINT32_MAX).
  { split; [apply upper_limit_positive; lia|lia]. }
  pose proof (limit_frequency_id _ _ _ Hosc' P (conj H1 H2)) as L.
  destruct (prescaler_limited _ _ _ Hosc' P (conj H1 H2)) as (E & _ & _).
  pose proof (round_minus_one_clamped_range
                (value (quotient (_osillator_freq this) frequency))) as R.
  set (prescale := round_minus_one_clamped
                     (value (quotient (_osillator_freq this) frequency))) in *.
  assert (Pr : prescaler (_osillator_freq this) frequency = Some prescale).
  { unfold prescaler. rewrite L. exact E. }
  exists prescale. do 2 eexists.
  split; [exact L|]. split; [reflexivity|]. split; [exact R|].
  split; [apply (setPWMFrequency_run _ _ _ prescale Pr)|].
  split.
  - histories. rewrite !to_uint8_idem, (to_uint8_small prescale) by lia. reflexivity.
  - cbn [_i2c with_i2c]. rewrite prescale_register_after_sequence.
    apply to_uint8_small. lia.
Qed.

Lemma setPWMFrequency_prescale_witness :
  exists actual this',
    setPWMFrequency (Float.of_int 1000) Normal (sample_driver 0 OSC_FREQ) =
      Some (actual, this') /\
    register (_i2c this') PCA9685_I2C_ADDR PCA9685_PRESCALE = 5.
Proof.
  destruct (setPWMFrequency_prescale (sample_driver 0 OSC_FREQ) (Float.of_int 1000) Normal)
    as (prescale & actual & this' & _ & E & _ & Run & _ & Reg).
  - vm_compute. split; discriminate.
  - vm_compute. reflexivity.
  - split; vm_compute; discriminate.
  - exists actual, this'. split; [exact Run|].
    assert (E5 : prescale = 5) by (rewrite E; vm_compute; reflexivity).
    rewrite <- E5. exact Reg.
Defined.

(** C1, counterexample.  The prescale comes from a single-precision
    quotient, not from the exact one.  With the nominal 25 MHz oscillator
    and a target of 147929/2048 Hz (a binary32 number within the limits)
    the call writes 84 to the prescaler register, where the formula
    [round(osc / (4096 * f)) - 1] over the exact quotient gives 83; with a
    34815999 Hz oscillator and a target of 1000 Hz the prescale is 8
    where the formula gives 7. *)
Lemma setPWMFrequency_prescale_counterexample :
  (exists actual this',
     setPWMFrequency frequency_72_23 Normal (sample_driver 0 OSC_FREQ) =
       Some (actual, this') /\
     register (_i2c this') PCA9685_I2C_ADDR PCA9685_PRESCALE = 84 /\
     (value frequency_72_23 == 147929 # 2048)%Q /\
     valid_binary Float.prec32 Float.emax32 frequency_72_23 = true /\
     limit_frequency OSC_FREQ frequency_72_23 = frequency_72_23 /\
     spec_prescale OSC_FREQ (147929 # 2048) = 83) /\
  (prescaler 34815999 (Float.of_int 1000) = Some 8 /\
   limit_frequency 34815999 (Float.of_int 1000) = Float.of_int 1000 /\
   spec_prescale 34815999 1000 = 7).
Proof.
  split.
  - assert (Pr : prescaler (_osillator_freq (sample_driver 0 OSC_FREQ)) frequency_72_23
                 = Some 84) by (vm_compute; reflexivity).
    do 2 eexists. split; [apply (setPWMFrequency_run _ _ _ 84 Pr)|].
    split; [|repeat split; vm_compute; reflexivity].
    cbn [_i2c with_i2c]. apply prescale_register_after_sequence.
  - repeat split; vm_compute; reflexivity.
Qed.

(** The value returned, at the default target.  The function is declared
    [float] and documented to return the actual frequency, but the
    expression [_osillator_freq / (4096 * ((uint8_t)prescale_value + 1))]
    divides an unsigned integer by an [int]: with the 25 MHz oscillator
    and a target of 1000 Hz the prescale is 5 and the call returns 1017,
    where 25000000 / (4096 * 6) is 390625/384 = 1017.25... *)
Lemma setPWMFrequency_return_divergence :
  exists actual this',
    setPWMFrequency (Float.of_int 1000) Normal (sample_driver 0 OSC_FREQ) =
      Some (actual, this') /\
    register (_i2c this') PCA9685_I2C_ADDR PCA9685_PRESCALE = 5 /\
    (value actual == 1017)%Q /\
    (spec_actual_frequency OSC_FREQ 5 == 390625 # 384)%Q /\
    (value actual < spec_actual_frequency OSC_FREQ 5)%Q.
Proof.
  assert (Pr : prescaler (_osillator_freq (sample_driver 0 OSC_FREQ)) (Float.of_int 1000)
               = Some 5) by (vm_compute; reflexivity).
  do 2 eexists. split; [apply (setPWMFrequency_run _ _ _ 5 Pr)|].
  split; [|split; [|split]].
  - cbn [_i2c with_i2c]. apply prescale_register_after_sequence.
  - vm_compute. reflexivity.
  - vm_compute. reflexivity.
  - vm_compute. reflexivity.
Qed.

(** ** Clamping of the target frequency *)

Lemma setPWMFrequency_history frequency addressType this prescale :
  prescaler (_osillator_freq this) frequency = Some prescale ->
  3 <= prescale <= 255 ->
  exists actual this',
    setPWMFrequency frequency addressType this = Some (actual, this') /\
    extends this this'
      (read_events (_i2c_address this) PCA9685_MODE1 ++
       read_events (_i2c_address this) PCA9685_MODE1 ++
       [Transmit (getAddress this addressType)
          [PCA9685_MODE1;
           to_uint8 (Z.lor (Z.land (to_uint8 (register (_i2c this) (_i2c_address this)
                                                PCA9685_MODE1))
                                   (Z.lnot MODE1_RESTART)) MODE1_SLEEP)];
        Transmit (getAddress this addressType) [PCA9685_PRESCALE; prescale];
        Transmit (getAddress this addressType)
          [PCA9685_MODE1;
           to_uint8 (register (_i2c this) (_i2c_address this) PCA9685_MODE1)];
        Delay 5;
        Transmit (getAddress this addressType)
          [PCA9685_MODE1;
           to_uint8 (Z.lor (Z.lor (to_uint8 (register (_i2c this) (_i2c_address this)
                                               PCA9685_MODE1))
                                  MODE1_RESTART) MODE1_AI)]] ++
       read_events (_i2c_address this) PCA9685_MODE1) /\
    register (_i2c this') (getAddress this addressType) PCA9685_PRESCALE = prescale.
Proof.
  intros Pr R. do 2 eexists.
  split; [apply (setPWMFrequency_run _ _ _ prescale Pr)|]. split.
  - histories. rewrite !to_uint8_idem, (to_uint8_small prescale) by lia. reflexivity.
  - cbn [_i2c with_i2c]. rewrite prescale_register_after_sequence.
    apply to_uint8_small. lia.
Qed.

(** C2.  [setPWMFrequency] limits the target frequency to
    [1, oscillatorFrequencyHz / 16384] (integer division) before it
    computes the prescaler, and rejects no target: whenever the oscillator
    frequency is at least 16384 Hz, every target that is a number gives the
    call made with the limited target, the call returns, and the prescale
    it writes to the prescaler register is the one computed from the
    limited target, [floor(q + 0.5) - 1] kept within [3, 255] for [q] the
    single-precision quotient of the oscillator frequency and
    [4096 * limited target].  With the nominal 25 MHz oscillator the upper
    limit is 1525 Hz; a target of 0 behaves as 1 and writes the prescale
    of 1 Hz, 255; a target of 100000 behaves as 1526 and writes the
    prescale of 1525 Hz, 3.  That the limit comes first shows where it
    matters: at 16384 Hz a target of 1/2 gives prescale 3, the prescale of
    1 Hz, where the same arithmetic on 1/2 itself would give 7; at 25 MHz
    a target of -1 gives 255 where the arithmetic on -1 would give 3. *)
Theorem setPWMFrequency_limits_the_target :
  forall (this : PCA9685_Driver) (addressType : EAddressType),
    let nominal := with_osillator_freq this OSC_FREQ in
    (upper_limit OSC_FREQ = 1525 /\
     limit_frequency OSC_FREQ (Float.of_int 0) = Float.of_int 1 /\
     limit_frequency OSC_FREQ (Float.of_int 100000) = Float.of_int 1525 /\
     limit_frequency OSC_FREQ (Float.of_int 1526) = Float.of_int 1525) /\
    (setPWMFrequency (Float.of_int 0) addressType nominal =
       setPWMFrequency (Float.of_int 1) addressType nominal /\
     setPWMFrequency (Float.of_int 100000) addressType nominal =
       setPWMFrequency (Float.of_int 1526) addressType nominal /\
     (exists actual this',
        setPWMFrequency (Float.of_int 0) addressType nominal = Some (actual, this')) /\
     (exists actual this',
        setPWMFrequency (Float.of_int 100000) addressType nominal = Some (actual, this'))) /\
    (forall (osc : Z) (frequency : Float.float),
       16384 <= osc <= UINT32_MAX ->
       valid_binary Float.prec32 Float.emax32 frequency = true ->
       is_nan frequency = false ->
       let driver := with_osillator_freq this osc in
       (exists v : Q,
          Float.positive32 (limit_frequency osc frequency) v /\
          (1 <= v <= inject_Z (upper_limit osc))%Q) /\
       limit_frequency osc (limit_frequency osc frequency) = limit_frequency osc frequency /\
       setPWMFrequency frequency addressType driver =
         setPWMFrequency (limit_frequency osc frequency) addressType driver /\
       exists actual this',
         setPWMFrequency frequency addressType driver = Some (actual, this')) /\
    (* the prescale written is that of the limited target *)
    (forall (osc : Z) (frequency : Float.float),
       16384 <= osc <= UINT32_MAX ->
       valid_binary Float.prec32 Float.emax32 frequency = true ->
       is_nan frequency = false ->
       let driver := with_osillator_freq this osc in
       let limited := limit_frequency osc frequency in
       let prescale := round_minus_one_clamped (value (quotient osc limited)) in
       3 <= prescale <= 255 /\
       prescaler osc frequency = Some prescale /\
       Float.to_uint8 (limit_prescale (prescale_value osc limited)) = Some prescale /\
       exists actual this',
         setPWMFrequency frequency addressType driver = Some (actual, this') /\
         extends driver this'
           (read_events (_i2c_address this) PCA9685_MODE1 ++
            read_events (_i2c_address this) PCA9685_MODE1 ++
            [Transmit (getAddress this addressType)
               [PCA9685_MODE1;
                to_uint8 (Z.lor (Z.land (to_uint8 (register (_i2c this) (_i2c_address this)
                                                     PCA9685_MODE1))
                                        (Z.lnot MODE1_RESTART)) MODE1_SLEEP)];
             Transmit (getAddress this addressType) [PCA9685_PRESCALE; prescale];
             Transmit (getAddress this addressType)
               [PCA9685_MODE1;
                to_uint8 (register (_i2c this) (_i2c_address this) PCA9685_MODE1)];
             Delay 5;
             Transmit (getAddress this addressType)
               [PCA9685_MODE1;
                to_uint8 (Z.lor (Z.lor (to_uint8 (register (_i2c this) (_i2c_address this)
                                                    PCA9685_MODE1))
                                       MODE1_RESTART) MODE1_AI)]] ++
            read_events (_i2c_address this) PCA9685_MODE1) /\
         register (_i2c this') (getAddress this addressType) PCA9685_PRESCALE = prescale) /\
    (* the two examples write the prescale of 1 Hz and of 1525 Hz *)
    ((exists actual this',
        setPWMFrequency (Float.of_int 0) addressType nominal = Some (actual, this') /\
        register (_i2c this') (getAddress this addressType) PCA9685_PRESCALE = 255 /\
        round_minus_one_clamped (value (quotient OSC_FREQ (Float.of_int 1))) = 255) /\
     (exists actual this',
        setPWMFrequency (Float.of_int 100000) addressType nominal = Some (actual, this') /\
        register (_i2c this') (getAddress this addressType) PCA9685_PRESCALE = 3 /\
        round_minus_one_clamped (value (quotient OSC_FREQ (Float.of_int 1525))) = 3)) /\
    (* where the limit decides the prescale *)
    ((value frequency_0_5 == 1 # 2)%Q /\
     limit_frequency 16384 frequency_0_5 = Float.of_int 1 /\
     prescaler 16384 frequency_0_5 = Some 3 /\
     Float.to_uint8 (limit_prescale (prescale_value 16384 (Float.of_int 1))) = Some 3 /\
     Float.to_uint8 (limit_prescale (prescale_value 16384 frequency_0_5)) = Some 7 /\
     limit_frequency OSC_FREQ (Float.of_int (-1)) = Float.of_int 1 /\
     prescaler OSC_FREQ (Float.of_int (-1)) = Some 255 /\
     Float.to_uint8 (limit_prescale (prescale_value OSC_FREQ (Float.of_int (-1)))) = Some 3).
Proof.
  intros this addressType nominal.
  assert (P0 : prescaler (_osillator_freq nominal) (Float.of_int 0) = Some 255)
    by (vm_compute; reflexivity).
  assert (P1 : prescaler (_osillator_freq nominal) (Float.of_int 1) = Some 255)
    by (vm_compute; reflexivity).
  assert (P2 : prescaler (_osillator_freq nominal) (Float.of_int 100000) = Some 3)
    by (vm_compute; reflexivity).
  assert (P3 : prescaler (_osillator_freq nominal) (Float.of_int 1526) = Some 3)
    by (vm_compute; reflexivity).
  split; [|split; [|split; [|split; [|split]]]].
  - repeat split; vm_compute; reflexivity.
  - split; [|split; [|split]].
    + apply setPWMFrequency_ext. rewrite P0, P1. reflexivity.
    + apply setPWMFrequency_ext. rewrite P2, P3. reflexivity.
    + do 2 eexists. apply (setPWMFrequency_run _ _ _ 255 P0).
    + do 2 eexists. apply (setPWMFrequency_run _ _ _ 3 P2).
  - intros osc frequency Hosc V N driver.
    destruct (limit_frequency_range osc frequency Hosc V N) as (v & P & H).
    split; [exists v; split; assumption|].
    split; [apply (limit_frequency_id osc _ v Hosc P H)|].
    split.
    + apply setPWMFrequency_ext. apply (prescaler_limit_frequency osc frequency Hosc V N).
    + pose proof (prescaler_defined osc frequency Hosc V N) as D.
      do 2 eexists. apply (setPWMFrequency_run _ _ driver _ D).
  - intros osc frequency Hosc V N driver limited prescale.
    pose proof (prescaler_defined osc frequency Hosc V N) as D.
    pose proof (round_minus_one_clamped_range (value (quotient osc limited))) as R.
    fold limited in D. fold prescale in D, R.
    split; [exact R|]. split; [exact D|]. split; [exact D|].
    destruct (setPWMFrequency_history frequency addressType driver prescale D R)
      as (actual & this' & Run & Ext & Reg).
    exists actual, this'. split; [exact Run|].
    unfold driver in Ext, Reg.
    rewrite getAddress_with_osillator_freq in Ext, Reg.
    split; [exact Ext|exact Reg].
  - split.
    + destruct (setPWMFrequency_history (Float.of_int 0) addressType nominal 255 P0)
        as (actual & this' & Run & _ & Reg); [lia|].
      exists actual, this'. split; [exact Run|]. split; [|vm_compute; reflexivity].
      unfold nominal in Reg. rewrite getAddress_with_osillator_freq in Reg. exact Reg.
    + destruct (setPWMFrequency_history (Float.of_int 100000) addressType nominal 3 P2)
        as (actual & this' & Run & _ & Reg); [lia|].
      exists actual, this'. split; [exact Run|]. split; [|vm_compute; reflexivity].
      unfold nominal in Reg. rewrite getAddress_with_osillator_freq in Reg. exact Reg.
  - repeat split; vm_compute; reflexivity.
Qed.

(** ** The external clock *)

Lemma testbit_MODE1_RESTART i : Z.testbit MODE1_RESTART i = (i =? 7).
Proof.
  change MODE1_RESTART with (2 ^ 7).
  destruct (Z_lt_le_dec i 0) as [L|G].
  - rewrite Z.testbit_neg_r by lia. symmetry. apply Z.eqb_neq. lia.
  - rewrite Z.pow2_bits_eqb by lia. apply Z.eqb_sym.
Qed.

Lemma testbit_MODE1_EXTCLK i : Z.testbit MODE1_EXTCLK i = (i =? 6).
Proof.
  change MODE1_EXTCLK with (2 ^ 6).
  destruct (Z_lt_le_dec i 0) as [L|G].
  - rewrite Z.testbit_neg_r by lia. symmetry. apply Z.eqb_neq. lia.
  - rewrite Z.pow2_bits_eqb by lia. apply Z.eqb_sym.
Qed.

Lemma testbit_MODE1_AI i : Z.testbit MODE1_AI i = (i =? 5).
Proof.
  change MODE1_AI with (2 ^ 5).
  destruct (Z_lt_le_dec i 0) as [L|G].
  - rewrite Z.testbit_neg_r by lia. symmetry. apply Z.eqb_neq. lia.
  - rewrite Z.pow2_bits_eqb by lia. apply Z.eqb_sym.
Qed.

(** Decide a statement on the bits of a mode-1 byte built with the masks. *)
Ltac mode1_bits i :=
  destruct (Z_lt_le_dec i 0) as [?|?];
  [ rewrite !(Z.testbit_neg_r _ i) by lia;
    repeat match goal with |- context [i =? ?k] =>
      destruct (Z.eqb_spec i k); [lia|] end;
    reflexivity
  | rewrite ?testbit_to_uint8, ?Z.lor_spec, ?Z.land_spec, ?Z.lnot_spec,
            ?testbit_to_uint8, ?Z.lor_spec, ?Z.land_spec, ?Z.lnot_spec,
            ?testbit_to_uint8, ?Z.lor_spec, ?Z.land_spec, ?Z.lnot_spec,
            ?testbit_to_uint8,
            ?testbit_MODE1_SLEEP, ?testbit_MODE1_RESTART,
            ?testbit_MODE1_EXTCLK, ?testbit_MODE1_AI by lia;
    repeat match goal with |- context [i =? ?k] =>
      destruct (Z.eqb_spec i k) end;
    destruct (Z.ltb_spec i 8); try lia;
    cbn [andb orb negb];
    rewrite ?andb_true_r, ?andb_false_r, ?orb_false_r, ?orb_true_r;
    reflexivity ].

Lemma setExtClock_mode_bits mode1 i :
  Z.testbit (to_uint8 (Z.lor (Z.land (to_uint8 mode1) (Z.lnot MODE1_RESTART)) MODE1_SLEEP)) i =
  if i =? 4 then true else if i =? 7 then false else Z.testbit (to_uint8 mode1) i.
Proof. mode1_bits i. Qed.

Lemma setExtClock_extclk_bits mode i :
  Z.testbit (to_uint8 (Z.lor (to_uint8 mode) MODE1_EXTCLK)) i =
  if i =? 6 then true else Z.testbit (to_uint8 mode) i.
Proof. mode1_bits i. Qed.

Lemma setExtClock_final_bits mode i :
  Z.testbit (to_uint8 (Z.lor (Z.lor (Z.land (to_uint8 mode) (Z.lnot MODE1_SLEEP))
                                    MODE1_RESTART) MODE1_AI)) i =
  if i =? 4 then false
  else if i =? 7 then true
  else if i =? 5 then true
  else Z.testbit (to_uint8 mode) i.
Proof. mode1_bits i. Qed.

(** C3, as the code has it.  [setExtClock extFreq pwmFrequency], for an
    external frequency whose integer part [osc] fits 32 bits and is at
    least 16384 and a PWM frequency that is a number, performs, each as a
    bus transaction of its own: a read of mode-1; a write of that byte with
    the restart bit cleared and the sleep bit set; a write of the same
    value with the external-clock bit also set; (the oscillator field
    becomes [osc], the integer part of [extFreq]; the PWM frequency is
    limited to [1, osc / 16384]; the prescale is [floor(q + 0.5) - 1]
    kept within [3, 255], for [q] the single-precision quotient of [osc]
    and [4096 * pwmFrequency]); a write of the prescale to the prescaler
    register; a write of mode-1 with sleep cleared and the restart and
    auto-increment bits set; and a closing diagnostic read of mode-1. *)
Theorem setExtClock_sequence :
  forall (this : PCA9685_Driver) (extFreq pwmFrequency : Float.float)
         (addressType : EAddressType) (osc : Z),
    Float.to_uint32 extFreq = Some osc ->
    16384 <= osc ->
    valid_binary Float.prec32 Float.emax32 pwmFrequency = true ->
    is_nan pwmFrequency = false ->
    let primary := _i2c_address this in
    let address := getAddress this addressType in
    let mode1 := to_uint8 (register (_i2c this) primary PCA9685_MODE1) in
    let mode := to_uint8 (Z.lor (Z.land mode1 (Z.lnot MODE1_RESTART)) MODE1_SLEEP) in
    let mode' := to_uint8 (Z.lor mode MODE1_EXTCLK) in
    let final :=
      to_uint8 (Z.lor (Z.lor (Z.land mode' (Z.lnot MODE1_SLEEP)) MODE1_RESTART) MODE1_AI) in
    let limited := limit_frequency osc pwmFrequency in
    let prescale := round_minus_one_clamped (value (quotient osc limited)) in
    exists this',
      setExtClock extFreq pwmFrequency addressType this = Some (tt, this') /\
      extends this this'
        (read_events primary PCA9685_MODE1 ++
         [Transmit address [PCA9685_MODE1; mode];
          Transmit address [PCA9685_MODE1; mode'];
          Transmit address [PCA9685_PRESCALE; prescale];
          Transmit address [PCA9685_MODE1; final]] ++
         read_events primary PCA9685_MODE1) /\
      (forall i, Z.testbit mode i =
                 if i =? 4 then true else if i =? 7 then false else Z.testbit mode1 i) /\
      (forall i, Z.testbit mode' i = if i =? 6 then true else Z.testbit mode i) /\
      (forall i, Z.testbit final i =
                 if i =? 4 then false
                 else if i =? 7 then true
                 else if i =? 5 then true
                 else Z.testbit mode' i) /\
      _osillator_freq this' = osc /\
      (exists v : Q,
         Float.positive32 limited v /\ (1 <= v <= inject_Z (upper_limit osc))%Q) /\
      3 <= prescale <= 255.
Proof.
  intros this extFreq pwmFrequency addressType osc H Hlow V N
         primary address mode1 mode mode' final limited prescale.
  pose proof (to_unsigned_range _ _ _ H) as Hr.
  assert (Hosc : 16384 <= osc <= UINT32_MAX) by lia.
  pose proof (prescaler_defined osc pwmFrequency Hosc V N) as D.
  pose proof (round_minus_one_clamped_range (value (quotient osc limited))) as R.
  fold limited in D. fold prescale in D, R.
  eexists. split; [apply (setExtClock_run _ _ _ _ osc prescale H D)|].
  split; [|split; [|split; [|split; [|split; [|split]]]]].
  - histories. fold primary address mode1. fold mode. fold mode'. fold final.
    unfold mode at 1, mode' at 1.
    rewrite !to_uint8_idem, (to_uint8_small prescale) by lia. reflexivity.
  - intros i. apply setExtClock_mode_bits.
  - intros i. apply setExtClock_extclk_bits.
  - intros i. apply setExtClock_final_bits.
  - reflexivity.
  - apply (limit_frequency_range osc pwmFrequency Hosc V N).
  - exact R.
Qed.

Lemma setExtClock_sequence_witness :
  exists this',
    setExtClock (Float.of_int 20000000) (Float.of_int 50) Normal (sample_driver 0x01 OSC_FREQ) =
      Some (tt, this') /\
    history (_i2c this') =
      [Transmit 0x40 [0x00]; Request 0x40 1;
       Transmit 0x40 [0x00; 0x11];
       Transmit 0x40 [0x00; 0x51];
       Transmit 0x40 [0xFE; 97];
       Transmit 0x40 [0x00; 0xE1];
       Transmit 0x40 [0x00]; Request 0x40 1] /\
    _osillator_freq this' = 20000000.
Proof.
  destruct (setExtClock_sequence (sample_driver 0x01 OSC_FREQ)
              (Float.of_int 20000000) (Float.of_int 50) Normal 20000000)
    as (this' & Run & Ext & _ & _ & _ & Osc & _).
  - vm_compute. reflexivity.
  - lia.
  - vm_compute. reflexivity.
  - vm_compute. reflexivity.
  - exists this'. split; [exact Run|]. split; [|exact Osc].
    unfold extends in Ext. rewrite Ext. vm_compute. reflexivity.
Defined.

(** C3, counterexample.  On a chip whose mode-1 register holds 0x01, with
    a 25 MHz external clock and a PWM frequency of 147929/2048 Hz, the
    call writes 84 to the prescaler register, where the formula over the
    exact quotient gives 83, and its bus traffic ends with one more read
    of mode-1 after the last write.  With an external frequency of
    1000000.5 Hz the oscillator field becomes 1000000. *)
Lemma setExtClock_sequence_counterexample :
  (exists this',
     setExtClock (Float.of_int 25000000) frequency_72_23 Normal (sample_driver 0x01 OSC_FREQ) =
       Some (tt, this') /\
     history (_i2c this') =
       [Transmit 0x40 [0x00]; Request 0x40 1;
        Transmit 0x40 [0x00; 0x11];
        Transmit 0x40 [0x00; 0x51];
        Transmit 0x40 [0xFE; 84];
        Transmit 0x40 [0x00; 0xE1];
        Transmit 0x40 [0x00]; Request 0x40 1] /\
     (value frequency_72_23 == 147929 # 2048)%Q /\
     spec_prescale 25000000 (147929 # 2048) = 83) /\
  (exists this',
     setExtClock frequency_1000000_5 (Float.of_int 50) Normal (sample_driver 0x01 OSC_FREQ) =
       Some (tt, this') /\
     _osillator_freq this' = 1000000 /\
     valid_binary Float.prec32 Float.emax32 frequency_1000000_5 = true /\
     (value frequency_1000000_5 == 2000001 # 2)%Q).
Proof.
  split.
  - assert (H : Float.to_uint32 (Float.of_int 25000000) = Some 25000000)
      by (vm_compute; reflexivity).
    assert (D : prescaler 25000000 frequency_72_23 = Some 84) by (vm_compute; reflexivity).
    eexists. split; [apply (setExtClock_run _ _ _ _ _ _ H D)|].
    split; [vm_compute; reflexivity|]. split; vm_compute; reflexivity.
  - assert (H : Float.to_uint32 frequency_1000000_5 = Some 1000000)
      by (vm_compute; reflexivity).
    assert (D : prescaler 1000000 (Float.of_int 50) = Some 4) by (vm_compute; reflexivity).
    eexists. split; [apply (setExtClock_run _ _ _ _ _ _ H D)|].
    split; [reflexivity|]. split; vm_compute; reflexivity.
Qed.

(** ** Reading the PWM frequency back *)

(** C5.  Whatever the frequency, whenever [setPWMFrequency frequency]
    (at the driver's own address) returns a value, [getPWMFrequency]
    called next, with the prescaler register and the oscillator field
    untouched in between, returns that same value; and the first call does
    return, for every frequency that is a number, when the oscillator
    frequency is at least 16384 Hz. *)
Theorem getPWMFrequency_after_setPWMFrequency :
  forall (this : PCA9685_Driver) (frequency : Float.float),
    (forall (actual : Float.float) (this' : PCA9685_Driver),
       setPWMFrequency frequency Normal this = Some (actual, this') ->
       _osillator_freq this' = _osillator_freq this /\
       exists this'', getPWMFrequency this' = Some (actual, this'')) /\
    (16384 <= _osillator_freq this <= UINT32_MAX ->
     valid_binary Float.prec32 Float.emax32 frequency = true ->
     is_nan frequency = false ->
     exists (actual : Float.float) (this' : PCA9685_Driver),
       setPWMFrequency frequency Normal this = Some (actual, this')).
Proof.
  intros this frequency. split.
  - intros actual this' Run.
    destruct (prescaler (_osillator_freq this) frequency) as [prescale|] eqn:Pr.
    + rewrite (setPWMFrequency_run _ _ _ prescale Pr) in Run.
      cbv zeta in Run. injection Run as <- <-.
      split; [reflexivity|].
      rewrite getPWMFrequency_run. eexists. f_equal. f_equal.
      cbn [_i2c _i2c_address _osillator_freq with_i2c].
      change (_i2c_address this) with (getAddress this Normal) at 1.
      rewrite prescale_register_after_sequence, to_uint8_idem.
      rewrite (to_uint8_small prescale); [reflexivity|].
      pose proof (prescaler_range _ _ _ Pr). lia.
    + rewrite (setPWMFrequency_undefined _ _ _ Pr) in Run. discriminate.
  - intros Hosc V N.
    pose proof (prescaler_defined _ frequency Hosc V N) as D.
    do 2 eexists. apply (setPWMFrequency_run _ _ _ _ D).
Qed.

(** * Further properties of the driver *)

(** ** Single register accesses *)

Lemma restart_run addressType this :
  restart addressType this =
  Some (tt, with_i2c this
    (elapse 10
       (after_write (getAddress this addressType) PCA9685_MODE1 MODE1_RESTART (_i2c this)))).
Proof. reflexivity. Qed.

Lemma writeRegister_run reg data addressType this :
  writeRegister reg data addressType this =
  Some (tt, with_i2c this
              (after_write (getAddress this addressType) reg data (_i2c this))).
Proof. reflexivity. Qed.

Lemma readRegister_run reg this :
  readRegister reg this =
  Some (to_uint8 (register (_i2c this) (_i2c_address this) (to_uint8 reg)),
        with_i2c this (after_read (_i2c_address this) reg (_i2c this))).
Proof. apply readByte_run. Qed.

Lemma setMode1_run value addressType this :
  setMode1 value addressType this =
  Some (tt, with_i2c this
    (after_read (_i2c_address this) PCA9685_MODE1
       (after_write (getAddress this addressType) PCA9685_MODE1 value
          (after_read (_i2c_address this) PCA9685_MODE1 (_i2c this))))).
Proof. unfold setMode1, bind. run. reflexivity. Qed.

Lemma setMode2_run value addressType this :
  setMode2 value addressType this =
  Some (tt, with_i2c this
    (after_read (_i2c_address this) PCA9685_MODE2
       (after_write (getAddress this addressType) PCA9685_MODE2 value
          (after_read (_i2c_address this) PCA9685_MODE2 (_i2c this))))).
Proof. unfold setMode2, bind. run. reflexivity. Qed.

Lemma register_to_uint8 w a r : register w a (to_uint8 r) = register w a r.
Proof. unfold register, to_uint8. rewrite Z.mod_mod by lia. reflexivity. Qed.

(** X1.  [restart] does not read mode-1 first: it sends the one byte
    0x80 (the restart bit alone) to the mode-1 register of the selected
    address, then pauses 10 ms.  Whatever mode-1 held, it holds 0x80
    afterwards, so sleep, auto-increment, external clock and the call
    enables are all cleared; every other register, and every other chip,
    is left alone. *)
Theorem restart_overwrites_mode1 :
  forall (this : PCA9685_Driver) (addressType : EAddressType),
    exists this',
      restart addressType this = Some (tt, this') /\
      extends this this'
        [Transmit (getAddress this addressType) [PCA9685_MODE1; 0x80]; Delay 10] /\
      register (_i2c this') (getAddress this addressType) PCA9685_MODE1 = 0x80 /\
      (forall i, Z.testbit (register (_i2c this') (getAddress this addressType)
                              PCA9685_MODE1) i = (i =? 7)) /\
      (forall address reg,
         address <> getAddress this addressType \/ reg mod 256 <> PCA9685_MODE1 ->
         register (_i2c this') address reg = register (_i2c this) address reg).
Proof.
  intros this addressType. eexists. split; [apply restart_run|].
  cbn [_i2c with_i2c]. split; [|split; [|split]].
  - histories. reflexivity.
  - rewrite register_elapse, register_after_write_same. reflexivity.
  - intros i. rewrite register_elapse, register_after_write_same.
    change (to_uint8 MODE1_RESTART) with MODE1_RESTART. apply testbit_MODE1_RESTART.
  - intros address reg H. rewrite register_elapse.
    apply register_after_write_other. exact H.
Qed.

(** X2.  A register written with [writeRegister] at the driver's own
    address reads back with [readRegister] as the byte written (the data
    modulo 256); every other register reads as it did before the write;
    and [readRegister] itself changes no register. *)
Theorem readRegister_after_writeRegister :
  forall (this : PCA9685_Driver) (reg data : Z),
    exists this' this'',
      writeRegister reg data Normal this = Some (tt, this') /\
      readRegister reg this' = Some (to_uint8 data, this'') /\
      (forall address r, register (_i2c this'') address r = register (_i2c this') address r) /\
      (forall reg', reg' mod 256 <> reg mod 256 ->
         returned (readRegister reg' this') = returned (readRegister reg' this)).
Proof.
  intros this reg data. do 2 eexists.
  split; [apply writeRegister_run|]. split; [|split].
  - rewrite readRegister_run. cbn [_i2c _i2c_address with_i2c getAddress].
    rewrite register_to_uint8, register_after_write_same, to_uint8_idem. reflexivity.
  - intros address r. cbn [_i2c _i2c_address with_i2c]. apply register_after_read.
  - intros reg' H. rewrite !readRegister_run. cbn [returned option_map fst].
    cbn [_i2c _i2c_address with_i2c getAddress].
    rewrite !register_to_uint8.
    rewrite register_after_write_other by (right; exact H). reflexivity.
Qed.

(** X3.  [setMode1] and [setMode2] write the given byte as it is, with no
    masking and no merge with the old value, between two diagnostic reads
    of the same register; the register then holds that byte, and the other
    mode register is untouched. *)
Theorem setMode_writes_the_value :
  forall (this : PCA9685_Driver) (value : Z) (addressType : EAddressType),
    0 <= value < 256 ->
    (exists this',
       setMode1 value addressType this = Some (tt, this') /\
       extends this this'
         (read_events (_i2c_address this) PCA9685_MODE1 ++
          [Transmit (getAddress this addressType) [PCA9685_MODE1; value]] ++
          read_events (_i2c_address this) PCA9685_MODE1) /\
       register (_i2c this') (getAddress this addressType) PCA9685_MODE1 = value /\
       register (_i2c this') (getAddress this addressType) PCA9685_MODE2 =
         register (_i2c this) (getAddress this addressType) PCA9685_MODE2) /\
    (exists this',
       setMode2 value addressType this = Some (tt, this') /\
       extends this this'
         (read_events (_i2c_address this) PCA9685_MODE2 ++
          [Transmit (getAddress this addressType) [PCA9685_MODE2; value]] ++
          read_events (_i2c_address this) PCA9685_MODE2) /\
       register (_i2c this') (getAddress this addressType) PCA9685_MODE2 = value /\
       register (_i2c this') (getAddress this addressType) PCA9685_MODE1 =
         register (_i2c this) (getAddress this addressType) PCA9685_MODE1).
Proof.
  intros this value addressType Hv. split.
  - eexists. split; [apply setMode1_run|]. cbn [_i2c with_i2c]. split; [|split].
    + histories. rewrite (to_uint8_small value) by lia. reflexivity.
    + rewrite register_after_read, register_after_write_same. apply to_uint8_small. lia.
    + rewrite register_after_read.
      rewrite register_after_write_other by (right; discriminate).
      apply register_after_read.
  - eexists. split; [apply setMode2_run|]. cbn [_i2c with_i2c]. split; [|split].
    + histories. rewrite (to_uint8_small value) by lia. reflexivity.
    + rewrite register_after_read, register_after_write_same. apply to_uint8_small. lia.
    + rewrite register_after_read.
      rewrite register_after_write_other by (right; discriminate).
      apply register_after_read.
Qed.

Lemma setMode_writes_the_value_witness :
  exists this',
    setMode1 0x21 AllCall (sample_driver 0x11 OSC_FREQ) = Some (tt, this') /\
    history (_i2c this') =
      [Transmit 0x40 [0x00]; Request 0x40 1;
       Transmit 0x70 [0x00; 0x21];
       Transmit 0x40 [0x00]; Request 0x40 1] /\
    register (_i2c this') 0x70 PCA9685_MODE1 = 0x21.
Proof.
  destruct (setMode_writes_the_value (sample_driver 0x11 OSC_FREQ) 0x21 AllCall)
    as [(this' & Run & Ext & Reg & _) _].
  - lia.
  - exists this'. split; [exact Run|]. split; [|exact Reg].
    unfold extends in Ext. rewrite Ext. reflexivity.
Defined.

(** ** The output registers *)

Lemma setAllPWMOutputs_run on off addressType this :
  setAllPWMOutputs on off addressType this =
  Some (tt, with_i2c this
    (burst (getAddress this addressType)
       [to_uint8 PCA9685_ALL_LED_ON_L;
        to_uint8 (Z.land on 0xFF); to_uint8 (Z.land (Z.shiftr on 8) 0xFF);
        to_uint8 (Z.land off 0xFF); to_uint8 (Z.land (Z.shiftr off 8) 0xFF)]
       (_i2c this))).
Proof. reflexivity. Qed.

Lemma low_byte x : to_uint8 (Z.land x 0xFF) = x mod 256.
Proof. rewrite land_255, to_uint8_idem. reflexivity. Qed.

Lemma high_byte x : 0 <= x < 65536 -> to_uint8 (Z.land (Z.shiftr x 8) 0xFF) = x / 256.
Proof.
  intros H. rewrite land_255, to_uint8_idem, Z.shiftr_div_pow2 by lia.
  change (2 ^ 8) with 256. apply to_uint8_small.
  split; [apply Z.div_pos; lia|apply Z.div_lt_upper_bound; lia].
Qed.

(** X4.  [setAllPWMOutputs] is one transmission of five bytes to the
    selected address: the register 0xFA (ALL_LED_ON_L), then the low and
    high byte of [on] and the low and high byte of [off].  The two 16-bit
    arguments are sent whole, [on = low + 256 * high]: nothing limits them
    to the 12 bits 0..4095 of the parameter description. *)
Theorem setAllPWMOutputs_burst :
  forall (this : PCA9685_Driver) (on off : Z) (addressType : EAddressType),
    0 <= on < 65536 -> 0 <= off < 65536 ->
    exists this',
      setAllPWMOutputs on off addressType this = Some (tt, this') /\
      extends this this'
        [Transmit (getAddress this addressType)
           [0xFA; on mod 256; on / 256; off mod 256; off / 256]] /\
      on = on mod 256 + 256 * (on / 256) /\
      off = off mod 256 + 256 * (off / 256) /\
      _osillator_freq this' = _osillator_freq this.
Proof.
  intros this on off addressType Hon Hoff.
  eexists. split; [apply setAllPWMOutputs_run|].
  split; [|split; [|split]].
  - unfold extends, burst. cbn [history _i2c with_i2c].
    rewrite !high_byte, !low_byte by lia. reflexivity.
  - pose proof (Z.div_mod on 256). lia.
  - pose proof (Z.div_mod off 256). lia.
  - reflexivity.
Qed.

Lemma setAllPWMOutputs_burst_witness :
  exists this',
    setAllPWMOutputs 0x1000 0xFFFF SubCall2 (sample_driver 0 OSC_FREQ) = Some (tt, this') /\
    history (_i2c this') = [Transmit 0x72 [0xFA; 0x00; 0x10; 0xFF; 0xFF]].
Proof.
  destruct (setAllPWMOutputs_burst (sample_driver 0 OSC_FREQ) 0x1000 0xFFFF SubCall2)
    as (this' & Run & Ext & _).
  - lia.
  - lia.
  - exists this'. split; [exact Run|].
    unfold extends in Ext. rewrite Ext. reflexivity.
Defined.

Lemma start_register_period output :
  to_uint8 (PCA9685_LED0_ON_L + 4 * (output + 64)) =
  to_uint8 (PCA9685_LED0_ON_L + 4 * output).
Proof.
  unfold to_uint8.
  replace (PCA9685_LED0_ON_L + 4 * (output + 64))
    with (PCA9685_LED0_ON_L + 4 * output + 1 * 256) by ring.
  apply Z.mod_add. lia.
Qed.

(** X5.  [setPWMOutput] does not check its output number: for any output
    number the call is one transmission whose first byte, the register it
    starts at, is [(0x06 + 4 * output) mod 256], so two output numbers 64
    apart give the very same call. *)
Theorem setPWMOutput_output_wraps :
  forall (this : PCA9685_Driver) (output on off : Z) (addressType : EAddressType),
    setPWMOutput (output + 64) on off addressType this =
    setPWMOutput output on off addressType this /\
    exists this',
      setPWMOutput output on off addressType this = Some (tt, this') /\
      extends this this'
        [Transmit (getAddress this addressType)
           [(PCA9685_LED0_ON_L + 4 * output) mod 256;
            on mod 256; Z.shiftr on 8 mod 256;
            off mod 256; Z.shiftr off 8 mod 256]] /\
      (PCA9685_LED0_ON_L + 4 * (output + 64)) mod 256 =
        (PCA9685_LED0_ON_L + 4 * output) mod 256.
Proof.
  intros this output on off addressType. split.
  - rewrite !setPWMOutput_run, start_register_period. reflexivity.
  - eexists. split; [apply setPWMOutput_run|]. split.
    + unfold extends, burst. cbn [history _i2c with_i2c].
      rewrite !low_byte. reflexivity.
    + apply start_register_period.
Qed.

(** X6.  For an output number that is 61 modulo 64 the start register of
    [setPWMOutput] is 0xFA, ALL_LED_ON_L: the call is then the same as
    [setAllPWMOutputs] with the same ticks, and sets every output. *)
Theorem setPWMOutput_61_sets_all_outputs :
  forall (this : PCA9685_Driver) (output on off : Z) (addressType : EAddressType),
    output mod 64 = 61 ->
    setPWMOutput output on off addressType this =
    setAllPWMOutputs on off addressType this.
Proof.
  intros this output on off addressType H.
  rewrite setPWMOutput_run, setAllPWMOutputs_run.
  replace (to_uint8 (PCA9685_LED0_ON_L + 4 * output)) with (to_uint8 PCA9685_ALL_LED_ON_L);
    [reflexivity|].
  unfold to_uint8, PCA9685_LED0_ON_L, PCA9685_ALL_LED_ON_L.
  pose proof (Z.div_mod output 64).
  replace (6 + 4 * output) with (250 + (output / 64) * 256) by lia.
  rewrite Z.mod_add by lia. reflexivity.
Qed.

Lemma setPWMOutput_61_sets_all_outputs_witness :
  setPWMOutput 125 0 0x1000 Normal (sample_driver 0 OSC_FREQ) =
  setAllPWMOutputs 0 0x1000 Normal (sample_driver 0 OSC_FREQ).
Proof.
  apply (setPWMOutput_61_sets_all_outputs (sample_driver 0 OSC_FREQ) 125 0 0x1000 Normal).
  reflexivity.
Defined.

(** ** The frequency read back *)

(** X7.  [getPWMFrequency] never divides by zero: the prescale byte is
    promoted to [int] before 1 is added, so the divisor
    [4096 * (prescale + 1)] lies between 4096 and 1048576 whatever the
    register holds.  The call always returns, its result is the whole
    number [osc div (4096 * (prescale + 1))], at most [osc div 4096]; on
    the bus it is one read of the prescaler register at the primary
    address, and no register changes. *)
Theorem getPWMFrequency_defined :
  forall (this : PCA9685_Driver),
    0 <= _osillator_freq this <= UINT32_MAX ->
    let prescale := to_uint8 (register (_i2c this) (_i2c_address this) PCA9685_PRESCALE) in
    let divisor := 4096 * (prescale + 1) in
    exists actual this',
      getPWMFrequency this = Some (actual, this') /\
      4096 <= divisor <= 1048576 /\
      is_finite actual = true /\
      (value actual == inject_Z (_osillator_freq this / divisor))%Q /\
      _osillator_freq this / 1048576 <= _osillator_freq this / divisor
        <= _osillator_freq this / 4096 /\
      extends this this' (read_events (_i2c_address this) PCA9685_PRESCALE) /\
      (forall address reg,
         register (_i2c this') address reg = register (_i2c this) address reg) /\
      _osillator_freq this' = _osillator_freq this.
Proof.
  intros this Hosc prescale divisor.
  pose proof (to_uint8_range (register (_i2c this) (_i2c_address this) PCA9685_PRESCALE)) as Hp.
  fold prescale in Hp.
  assert (Hd : 4096 <= divisor <= 1048576) by (unfold divisor; lia).
  do 2 eexists. split; [apply getPWMFrequency_run|].
  fold prescale. fold divisor.
  split; [exact Hd|].
  destruct (actual_frequency_value (_osillator_freq this) prescale Hosc) as [F V]; [lia|].
  fold divisor in F, V.
  split; [exact F|]. split; [exact V|]. split; [|split; [|split]].
  - split.
    + apply Z.div_le_compat_l; lia.
    + apply Z.div_le_compat_l; lia.
  - histories. reflexivity.
  - intros address reg. cbn [_i2c with_i2c]. apply register_after_read.
  - reflexivity.
Qed.

Lemma getPWMFrequency_defined_witness :
  exists actual this',
    getPWMFrequency (sample_driver 0 OSC_FREQ) = Some (actual, this') /\
    (value actual == 6103)%Q.
Proof.
  destruct (getPWMFrequency_defined (sample_driver 0 OSC_FREQ))
    as (actual & this' & Run & _ & _ & V & _).
  - vm_compute. split; discriminate.
  - exists actual, this'. split; [exact Run|].
    rewrite V. vm_compute. reflexivity.
Defined.

(** ** Mode-1 after the frequency calls *)

Lemma restart_ai_bits mode1 i :
  Z.testbit (to_uint8 (Z.lor (Z.lor (to_uint8 mode1) MODE1_RESTART) MODE1_AI)) i =
  if i =? 5 then true else if i =? 7 then true else Z.testbit (to_uint8 mode1) i.
Proof. mode1_bits i. Qed.

(** X8.  Whenever [setPWMFrequency] returns, the mode-1 register of the
    selected address holds the byte read from mode-1 at the start of the
    call with the restart and auto-increment bits set and every other bit
    as read.  The sleep bit in particular is as it was found: the call
    puts the chip to sleep to load the prescaler and then restores the old
    mode, so a chip that was asleep before the call is asleep after it. *)
Theorem setPWMFrequency_restores_mode1 :
  forall (this : PCA9685_Driver) (frequency : Float.float) (addressType : EAddressType)
         (actual : Float.float) (this' : PCA9685_Driver),
    setPWMFrequency frequency addressType this = Some (actual, this') ->
    let before := to_uint8 (register (_i2c this) (_i2c_address this) PCA9685_MODE1) in
    let after := register (_i2c this') (getAddress this addressType) PCA9685_MODE1 in
    after = to_uint8 (Z.lor (Z.lor before MODE1_RESTART) MODE1_AI) /\
    (forall i, Z.testbit after i =
               if i =? 5 then true else if i =? 7 then true else Z.testbit before i) /\
    Z.testbit after 4 = Z.testbit before 4.
Proof.
  intros this frequency addressType actual this' Run before after.
  destruct (prescaler (_osillator_freq this) frequency) as [prescale|] eqn:Pr.
  - rewrite (setPWMFrequency_run _ _ _ prescale Pr) in Run.
    cbv zeta in Run. injection Run as _ <-.
    assert (E : after = to_uint8 (Z.lor (Z.lor before MODE1_RESTART) MODE1_AI)).
    { unfold after. cbn [_i2c with_i2c].
      rewrite register_after_read. apply register_after_write_same. }
    split; [exact E|]. rewrite E. split.
    + intros i. apply restart_ai_bits.
    + apply (restart_ai_bits _ 4).
  - rewrite (setPWMFrequency_undefined _ _ _ Pr) in Run. discriminate.
Qed.

Lemma setPWMFrequency_restores_mode1_witness :
  exists actual this',
    setPWMFrequency (Float.of_int 1000) Normal (sample_driver 0x11 OSC_FREQ) =
      Some (actual, this') /\
    register (_i2c this') 0x40 PCA9685_MODE1 = 0xB1.
Proof.
  destruct (setPWMFrequency (Float.of_int 1000) Normal (sample_driver 0x11 OSC_FREQ))
    as [[actual this']|] eqn:Run.
  - exists actual, this'. split; [reflexivity|].
    apply (setPWMFrequency_restores_mode1 _ _ _ _ _ Run).
  - rewrite (setPWMFrequency_run _ _ _ 5) in Run by (vm_compute; reflexivity).
    discriminate.
Defined.

(** ** The frequency returned *)

(** X9.  With an oscillator frequency of at least 16384 Hz,
    [setPWMFrequency] returns for every target that is a number, however
    far outside the limits, and the frequency it returns is a whole number
    between [osc div 1048576] and the upper limit [osc div 16384]. *)
Theorem setPWMFrequency_result_range :
  forall (this : PCA9685_Driver) (frequency : Float.float) (addressType : EAddressType),
    16384 <= _osillator_freq this <= UINT32_MAX ->
    valid_binary Float.prec32 Float.emax32 frequency = true ->
    is_nan frequency = false ->
    exists (actual : Float.float) (this' : PCA9685_Driver) (n : Z),
      setPWMFrequency frequency addressType this = Some (actual, this') /\
      is_finite actual = true /\
      (value actual == inject_Z n)%Q /\
      _osillator_freq this / 1048576 <= n <= upper_limit (_osillator_freq this).
Proof.
  intros this frequency addressType Hosc V N.
  pose proof (prescaler_defined _ frequency Hosc V N) as D.
  pose proof (round_minus_one_clamped_range
                (value (quotient (_osillator_freq this)
                          (limit_frequency (_osillator_freq this) frequency)))) as R.
  set (prescale := round_minus_one_clamped _) in *.
  destruct (actual_frequency_value (_osillator_freq this) prescale) as [F Val]; [lia|lia|].
  do 2 eexists. exists (_osillator_freq this / (4096 * (prescale + 1))).
  split; [apply (setPWMFrequency_run _ _ _ _ D)|].
  split; [exact F|]. split; [exact Val|].
  unfold upper_limit. split; apply Z.div_le_compat_l; lia.
Qed.

Lemma setPWMFrequency_result_range_witness :
  exists (actual : Float.float) (this' : PCA9685_Driver) (n : Z),
    setPWMFrequency (Float.of_int 100000) Normal (sample_driver 0 OSC_FREQ) =
      Some (actual, this') /\
    (value actual == inject_Z n)%Q /\ 23 <= n <= 1525.
Proof.
  destruct (setPWMFrequency_result_range (sample_driver 0 OSC_FREQ)
              (Float.of_int 100000) Normal)
    as (actual & this' & n & Run & _ & Val & Range).
  - vm_compute. split; discriminate.
  - vm_compute. reflexivity.
  - vm_compute. reflexivity.
  - exists actual, this', n. split; [exact Run|]. split; [exact Val|]. exact Range.
Defined.

(** ** Targets that are not numbers *)

Lemma begin_run frequency this :
  begin frequency this =
  match setPWMFrequency frequency Normal
          (with_osillator_freq
             (with_i2c this
                (elapse 10
                   (after_write (_i2c_address this) PCA9685_MODE1 MODE1_RESTART
                      (_i2c this))))
             OSC_FREQ) with
  | Some (_, this') => Some (tt, this')
  | None => None
  end.
Proof. reflexivity. Qed.

Lemma setExtClock_undefined frequency pwmFrequency addressType this :
  match Float.to_uint32 frequency with
  | Some osc => prescaler osc pwmFrequency = None
  | None => True
  end ->
  setExtClock frequency pwmFrequency addressType this = None.
Proof.
  intros H. unfold setExtClock, bind, this_field, setOscillFrequency. run.
  destruct (Float.to_uint32 frequency) as [osc|]; [|reflexivity].
  run. rewrite H. reflexivity.
Qed.

Lemma ltb_nan_r x : Float.ltb x S754_nan = false.
Proof. destruct x as [| | |[]]; reflexivity. Qed.

Lemma mul_nan_r x : Float.mul x S754_nan = S754_nan.
Proof. destruct x; reflexivity. Qed.

Lemma div_nan_r x : Float.div x S754_nan = S754_nan.
Proof. destruct x; reflexivity. Qed.

Lemma prescaler_nan osc : prescaler osc S754_nan = None.
Proof.
  unfold prescaler, limit_frequency, Float.gtb.
  change (Float.ltb S754_nan (Float.of_int 1)) with false. cbv iota.
  change (SFltb (Float.of_int (upper_limit osc)) S754_nan)
    with (Float.ltb (Float.of_int (upper_limit osc)) S754_nan).
  rewrite ltb_nan_r.
  unfold prescale_value, quotient. rewrite mul_nan_r, div_nan_r. reflexivity.
Qed.

(** X10.  A target that is not a number (NaN) is caught by neither
    limiting statement, every comparison with it being false: the limited
    frequency and the prescale value are NaN again, and the conversion of
    the prescale to [uint8_t] has no defined result.  So
    [setPWMFrequency], [begin] and [setExtClock] have no defined outcome
    for such a target. *)
Theorem nan_target_is_not_limited :
  forall (this : PCA9685_Driver) (frequency : Float.float) (addressType : EAddressType),
    is_nan frequency = true ->
    (forall osc,
       limit_frequency osc frequency = frequency /\
       is_nan (prescale_value osc frequency) = true /\
       limit_prescale (prescale_value osc frequency) = prescale_value osc frequency /\
       prescaler osc frequency = None) /\
    setPWMFrequency frequency addressType this = None /\
    begin frequency this = None /\
    (forall extFreq, setExtClock extFreq frequency addressType this = None).
Proof.
  intros this frequency addressType H.
  destruct frequency; try discriminate.
  split; [|split; [|split]].
  - intros osc.
    assert (L : limit_frequency osc S754_nan = S754_nan).
    { unfold limit_frequency, Float.gtb.
      change (Float.ltb S754_nan (Float.of_int 1)) with false. cbv iota.
      change (SFltb (Float.of_int (upper_limit osc)) S754_nan)
        with (Float.ltb (Float.of_int (upper_limit osc)) S754_nan).
      rewrite ltb_nan_r. reflexivity. }
    assert (P : prescale_value osc S754_nan = S754_nan).
    { unfold prescale_value, quotient. rewrite mul_nan_r, div_nan_r. reflexivity. }
    split; [exact L|]. rewrite P. split; [reflexivity|]. split; [reflexivity|].
    apply prescaler_nan.
  - apply setPWMFrequency_undefined, prescaler_nan.
  - rewrite begin_run, setPWMFrequency_undefined; [reflexivity|apply prescaler_nan].
  - intros extFreq. apply setExtClock_undefined.
    destruct (Float.to_uint32 extFreq); [apply prescaler_nan|exact I].
Qed.

Lemma nan_target_is_not_limited_witness :
  setPWMFrequency S754_nan Normal (sample_driver 0 OSC_FREQ) = None /\
  begin S754_nan (sample_driver 0 OSC_FREQ) = None.
Proof.
  destruct (nan_target_is_not_limited (sample_driver 0 OSC_FREQ) S754_nan Normal)
    as (_ & S & B & _).
  - reflexivity.
  - split; [exact S|exact B].
Defined.

(** ** Whole-number targets with the usual oscillators *)

Lemma forallb_seq (P : Z -> bool) (a n : nat) :
  forallb P (map Z.of_nat (seq a n)) = true ->
  forall x, Z.of_nat a <= x < Z.of_nat (a + n) -> P x = true.
Proof.
  intros H x Hx. rewrite forallb_forall in H. apply H.
  apply in_map_iff. exists (Z.to_nat x). split; [lia|].
  apply in_seq. lia.
Qed.

(** X11.  With the nominal 25 MHz oscillator and a target of a whole
    number of hertz within the limits, 1 to 1525, the prescale the code
    derives from its single-precision quotient is the one of the formula
    in the source comment, [round(osc_clock / (4096 * frequency)) - 1]
    kept within [3, 255], taken over the exact quotient.  The same holds
    for a 50 MHz external clock and the targets 1 to 3051. *)
Theorem prescaler_whole_targets :
  forall osc n : Z,
    (osc = OSC_FREQ /\ 1 <= n <= 1525) \/ (osc = 50000000 /\ 1 <= n <= 3051) ->
    prescaler osc (Float.of_int n) = Some (spec_prescale osc (inject_Z n)).
Proof.
  intros osc n [[-> H]|[-> H]].
  - pose (P := fun n => match prescaler OSC_FREQ (Float.of_int n) with
                        | Some p => p =? spec_prescale OSC_FREQ (inject_Z n)
                        | None => false
                        end).
    assert (A : forallb P (map Z.of_nat (seq 1 1525)) = true) by (vm_compute; reflexivity).
    pose proof (forallb_seq P 1 1525 A n) as B. unfold P in B.
    destruct (prescaler OSC_FREQ (Float.of_int n)) as [p|].
    + f_equal. apply Z.eqb_eq. apply B. lia.
    + discriminate B. lia.
  - pose (P := fun n => match prescaler 50000000 (Float.of_int n) with
                        | Some p => p =? spec_prescale 50000000 (inject_Z n)
                        | None => false
                        end).
    assert (A : forallb P (map Z.of_nat (seq 1 3051)) = true) by (vm_compute; reflexivity).
    pose proof (forallb_seq P 1 3051 A n) as B. unfold P in B.
    destruct (prescaler 50000000 (Float.of_int n)) as [p|].
    + f_equal. apply Z.eqb_eq. apply B. lia.
    + discriminate B. lia.
Qed.

Lemma prescaler_whole_targets_witness :
  prescaler OSC_FREQ (Float.of_int 1000) = Some 5.
Proof.
  apply (prescaler_whole_targets OSC_FREQ 1000). left. split; [reflexivity|lia].
Defined.

(** ** An oscillator frequency below 16384 Hz *)

Lemma limit_frequency_below f osc :
  Float.ltb f (Float.of_int 1) = true -> limit_frequency osc f = Float.of_int 1.
Proof. intros H. unfold limit_frequency. rewrite H. reflexivity. Qed.

Lemma limit_frequency_no_room f osc :
  upper_limit osc = 0 -> is_nan f = false ->
  Float.ltb f (Float.of_int 1) = false -> limit_frequency osc f = Float.of_int 0.
Proof.
  intros U N H. unfold limit_frequency. rewrite H, U.
  destruct f as [s|s| |s m e]; [| |discriminate N|].
  - destruct s; discriminate H.
  - destruct s; [discriminate H|reflexivity].
  - destruct s; [discriminate H|reflexivity].
Qed.

(** X12.  When the oscillator frequency is below 16384 Hz the upper limit
    [osc / 16384] is 0, and the two limiting statements no longer give a
    range: a target below 1 becomes 1, while every target of 1 or more
    becomes 0, the quotient is a division by zero, and the prescale is 255
    (the quotient being +infinity) or, with an oscillator frequency of 0,
    has no defined value (the quotient being NaN). *)
Theorem low_oscillator_limits :
  forall (osc : Z) (frequency : Float.float),
    0 <= osc < 16384 -> is_nan frequency = false ->
    upper_limit osc = 0 /\
    (Float.ltb frequency (Float.of_int 1) = true ->
     limit_frequency osc frequency = Float.of_int 1) /\
    (Float.ltb frequency (Float.of_int 1) = false ->
     limit_frequency osc frequency = Float.of_int 0 /\
     quotient osc (Float.of_int 0) =
       (if osc =? 0 then S754_nan else S754_infinity false) /\
     prescaler osc frequency = if osc =? 0 then None else Some 255).
Proof.
  intros osc frequency Hosc N.
  assert (U : upper_limit osc = 0) by (apply Z.div_small; lia).
  split; [exact U|]. split.
  - intros H. apply limit_frequency_below. exact H.
  - intros H. pose proof (limit_frequency_no_room frequency osc U N H) as L.
    split; [exact L|].
    unfold prescaler. rewrite L.
    destruct (Z.eqb_spec osc 0) as [->|Hne].
    + split; reflexivity.
    + destruct (of_int_exact osc) as (m & e & E & _).
      { change (2 ^ 24) with 16777216. lia. }
      unfold prescale_value, quotient. rewrite E. split; reflexivity.
Qed.

Lemma low_oscillator_limits_witness :
  prescaler 10000 (Float.of_int 50) = Some 255 /\
  limit_frequency 10000 (Float.of_int 0) = Float.of_int 1.
Proof.
  destruct (low_oscillator_limits 10000 (Float.of_int 50)) as (_ & _ & H50);
    [lia|reflexivity|].
  destruct (low_oscillator_limits 10000 (Float.of_int 0)) as (_ & H0 & _);
    [lia|reflexivity|].
  split.
  - apply H50. reflexivity.
  - apply H0. reflexivity.
Defined.

(** ** Sequences of calls *)

Lemma traffic_refl this w : traffic this w w.
Proof. exists []. split; [symmetry; apply app_nil_r|constructor]. Qed.

Lemma traffic_step this w0 w w' events :
  history w' = history w ++ events -> Forall (driver_event this) events ->
  traffic this w0 w -> traffic this w0 w'.
Proof.
  intros H F (events0 & H0 & F0). exists (events0 ++ events). split.
  - rewrite H, H0. symmetry. apply app_assoc.
  - apply Forall_app. split; assumption.
Qed.

Lemma traffic_after_read this w0 w reg :
  traffic this w0 w -> traffic this w0 (after_read (_i2c_address this) reg w).
Proof.
  apply (traffic_step this w0 w _ (read_events (_i2c_address this) (to_uint8 reg)));
    [reflexivity|].
  constructor; [|constructor; [|constructor]].
  - split; [exists Normal; reflexivity|]. split; [left; reflexivity|].
    constructor; [apply to_uint8_range|constructor].
  - split; reflexivity.
Qed.

Lemma traffic_after_write this w0 w addressType reg data :
  traffic this w0 w ->
  traffic this w0 (after_write (getAddress this addressType) reg data w).
Proof.
  apply (traffic_step this w0 w _
           [Transmit (getAddress this addressType) [to_uint8 reg; to_uint8 data]]);
    [reflexivity|].
  constructor; [|constructor].
  split; [exists addressType; reflexivity|]. split; [right; left; reflexivity|].
  repeat (constructor; [apply to_uint8_range|]). constructor.
Qed.

Lemma traffic_elapse this w0 w ms :
  ms = 5 \/ ms = 10 -> traffic this w0 w -> traffic this w0 (elapse ms w).
Proof.
  intros H. apply (traffic_step this w0 w _ [Delay ms]); [reflexivity|].
  constructor; [exact H|constructor].
Qed.

Lemma traffic_burst this w0 w addressType b0 b1 b2 b3 b4 :
  traffic this w0 w ->
  traffic this w0
    (burst (getAddress this addressType)
       [to_uint8 b0; to_uint8 b1; to_uint8 b2; to_uint8 b3; to_uint8 b4] w).
Proof.
  apply (traffic_step this w0 w _
           [Transmit (getAddress this addressType)
              [to_uint8 b0; to_uint8 b1; to_uint8 b2; to_uint8 b3; to_uint8 b4]]);
    [reflexivity|].
  constructor; [|constructor]. cbn [driver_event]. split; [|split].
  - exists addressType. reflexivity.
  - right. right. reflexivity.
  - repeat (constructor; [apply to_uint8_range|]). constructor.
Qed.

Lemma driver_event_same_addresses this this' ev :
  same_addresses this this' -> driver_event this' ev -> driver_event this ev.
Proof.
  intros (A0 & A1 & A2 & A3 & A4) H. destruct ev as [address bytes|address quantity|ms].
  - destruct H as ((addressType & E) & L & R). split; [|split; assumption].
    exists addressType. rewrite E. destruct addressType; cbn [getAddress]; assumption.
  - destruct H as (E & Q). split; [congruence|exact Q].
  - exact H.
Qed.

(** Discharge the bus part of a call that has been run. *)
Ltac traffic :=
  cbn [_i2c _i2c_address with_i2c with_osillator_freq];
  rewrite ?getAddress_with_i2c, ?getAddress_with_osillator_freq;
  repeat first
    [ apply traffic_refl
    | apply traffic_after_read
    | apply traffic_after_write
    | apply (traffic_after_write _ _ _ Normal)
    | apply traffic_burst
    | apply traffic_elapse; [first [left; reflexivity | right; reflexivity]|] ].

Lemma call_keeps_addresses c this this' :
  call c this = Some (tt, this') ->
  same_addresses this this' /\ traffic this (_i2c this) (_i2c this').
Proof.
  destruct c; cbn [call]; unfold discard, bind.
  - (* begin *)
    rewrite begin_run.
    destruct (prescaler OSC_FREQ frequency) as [prescale|] eqn:Pr.
    + rewrite (setPWMFrequency_run _ _ _ prescale) by exact Pr. cbv zeta.
      intros H. injection H as <-. split; [repeat split|]. traffic.
    + rewrite setPWMFrequency_undefined by exact Pr. discriminate.
  - rewrite restart_run. intros H. injection H as <-. split; [repeat split|]. traffic.
  - rewrite sleep_run. intros H. injection H as <-. split; [repeat split|]. traffic.
  - rewrite wakeUp_run. intros H. injection H as <-. split; [repeat split|]. traffic.
  - rewrite setMode1_run. intros H. injection H as <-. split; [repeat split|]. traffic.
  - rewrite setMode2_run. intros H. injection H as <-. split; [repeat split|]. traffic.
  - rewrite readRegister_run. intros H. injection H as <-. split; [repeat split|]. traffic.
  - rewrite writeRegister_run. intros H. injection H as <-. split; [repeat split|]. traffic.
  - (* setExtClock *)
    destruct (Float.to_uint32 frequency) as [osc|] eqn:E.
    + destruct (prescaler osc pwmFrequency) as [prescale|] eqn:Pr.
      * rewrite (setExtClock_run _ _ _ _ osc prescale E Pr). cbv zeta.
        intros H. injection H as <-. split; [repeat split|]. traffic.
      * rewrite setExtClock_undefined by (rewrite E; exact Pr). discriminate.
    + rewrite setExtClock_undefined by (rewrite E; exact I). discriminate.
  - (* setPWMFrequency *)
    destruct (prescaler (_osillator_freq this) frequency) as [prescale|] eqn:Pr.
    + rewrite (setPWMFrequency_run _ _ _ prescale) by exact Pr. cbv zeta.
      intros H. injection H as <-. split; [repeat split|]. traffic.
    + rewrite setPWMFrequency_undefined by exact Pr. discriminate.
  - rewrite getPWMFrequency_run. intros H. injection H as <-. split; [repeat split|]. traffic.
  - rewrite setOutputType_run. intros H. injection H as <-. split; [repeat split|]. traffic.
  - rewrite setPWMOutput_run. intros H. injection H as <-. split; [repeat split|]. traffic.
  - rewrite setAllPWMOutputs_run. intros H. injection H as <-. split; [repeat split|]. traffic.
  - cbn. intros H. injection H as <-. split; [repeat split|]. traffic.
  - cbn. intros H. injection H as <-. split; [repeat split|]. traffic.
Qed.

Lemma calls_same_addresses cs :
  forall this this', calls cs this = Some (tt, this') -> same_addresses this this'.
Proof.
  induction cs as [|c rest IH]; intros this this' Run.
  - cbn in Run. injection Run as <-. repeat split.
  - cbn [calls] in Run. unfold bind in Run.
    destruct (call c this) as [[[] middle]|] eqn:First; [|discriminate].
    destruct (call_keeps_addresses c this middle First) as ((A0 & A1 & A2 & A3 & A4) & _).
    destruct (IH middle this' Run) as (B0 & B1 & B2 & B3 & B4).
    repeat split; congruence.
Qed.

(** X13.  Over any sequence of calls of the public member functions that
    runs to its end, the five bus addresses of the driver object stay what
    they were (no member function assigns them, so the all-call and
    sub-call selectors keep resolving to the same addresses whatever is
    written to the chip), and the bus sees nothing but transmissions of
    one, two or five bytes to one of these five addresses, requests for a
    single byte at the primary address, and pauses of 5 or 10 ms. *)
Theorem calls_keep_addresses :
  forall (cs : list Call) (this this' : PCA9685_Driver),
    calls cs this = Some (tt, this') ->
    same_addresses this this' /\
    (forall addressType, getAddress this' addressType = getAddress this addressType) /\
    exists events, extends this this' events /\ Forall (driver_event this) events.
Proof.
  induction cs as [|c rest IH]; intros this this' Run.
  - cbn in Run. injection Run as <-. split; [repeat split|]. split; [reflexivity|].
    exists []. split; [unfold extends; symmetry; apply app_nil_r|constructor].
  - cbn [calls] in Run. unfold bind in Run.
    destruct (call c this) as [[[] middle]|] eqn:First; [|discriminate].
    destruct (call_keeps_addresses c this middle First) as (S1 & events1 & H1 & F1).
    destruct (IH middle this' Run) as (S2 & _ & events2 & H2 & F2).
    assert (S : same_addresses this this').
    { destruct S1 as (A0 & A1 & A2 & A3 & A4), S2 as (B0 & B1 & B2 & B3 & B4).
      repeat split; congruence. }
    split; [exact S|]. split.
    + intros addressType. destruct S as (A0 & A1 & A2 & A3 & A4).
      destruct addressType; cbn [getAddress]; assumption.
    + exists (events1 ++ events2). split.
      * unfold extends in *. rewrite H2, H1. symmetry. apply app_assoc.
      * apply Forall_app. split; [exact F1|].
        apply (Forall_impl _ (fun ev => driver_event_same_addresses this middle ev S1) F2).
Qed.

Lemma calls_keep_addresses_witness :
  exists this',
    calls [Begin (Float.of_int 1000);
           WriteRegister PCA9685_ALLCALLADR 0x50 Normal;
           SetPWMOutput 0 0 2048 AllCall;
           Sleep SubCall1]
      (sample_driver 0x11 0) = Some (tt, this') /\
    getAddress this' AllCall = 0x70 /\
    getAddress this' SubCall1 = 0x71.
Proof.
  destruct (calls [Begin (Float.of_int 1000);
                   WriteRegister PCA9685_ALLCALLADR 0x50 Normal;
                   SetPWMOutput 0 0 2048 AllCall;
                   Sleep SubCall1]
              (sample_driver 0x11 0)) as [[[] this']|] eqn:Run.
  - exists this'. split; [reflexivity|].
    destruct (calls_keep_addresses _ _ _ Run) as (_ & A & _).
    rewrite !A. split; reflexivity.
  - vm_compute in Run. discriminate Run.
Defined.

(** ** Initialisation *)

(** X14.  [begin] works whatever the oscillator field holds beforehand
    (the constructors leave it unset): it sends the restart byte 0x80 to
    mode-1 at the primary address, pauses 10 ms, sets the oscillator field
    to 25 MHz and only then runs [setPWMFrequency], so for every target
    that is a number the call returns, its outcome does not depend on the
    earlier field value, and the prescaler register receives
    [floor(q + 0.5) - 1] kept within [3, 255], [q] being the
    single-precision quotient for 25 MHz and the limited target.  With a
    chip that reads back the 0x80 just written, the mode-1 bytes that
    follow are 0x10, 0x80 and 0xA0. *)
Theorem begin_initialises :
  forall (this : PCA9685_Driver) (frequency : Float.float),
    valid_binary Float.prec32 Float.emax32 frequency = true ->
    is_nan frequency = false ->
    let primary := _i2c_address this in
    let prescale :=
      round_minus_one_clamped
        (value (quotient OSC_FREQ (limit_frequency OSC_FREQ frequency))) in
    exists this',
      begin frequency this = Some (tt, this') /\
      _osillator_freq this' = OSC_FREQ /\
      (forall osc, begin frequency (with_osillator_freq this osc) = begin frequency this) /\
      3 <= prescale <= 255 /\
      extends this this'
        ([Transmit primary [PCA9685_MODE1; 0x80]; Delay 10] ++
         read_events primary PCA9685_MODE1 ++
         read_events primary PCA9685_MODE1 ++
         [Transmit primary [PCA9685_MODE1; 0x10];
          Transmit primary [PCA9685_PRESCALE; prescale];
          Transmit primary [PCA9685_MODE1; 0x80];
          Delay 5;
          Transmit primary [PCA9685_MODE1; 0xA0]] ++
         read_events primary PCA9685_MODE1) /\
      register (_i2c this') primary PCA9685_PRESCALE = prescale.
Proof.
  intros this frequency V N primary prescale.
  assert (Hosc : 16384 <= OSC_FREQ <= UINT32_MAX) by (vm_compute; split; discriminate).
  pose proof (prescaler_defined OSC_FREQ frequency Hosc V N) as D.
  pose proof (round_minus_one_clamped_range
                (value (quotient OSC_FREQ (limit_frequency OSC_FREQ frequency)))) as R.
  fold prescale in D, R.
  eexists. split.
  { rewrite begin_run, (setPWMFrequency_run _ _ _ prescale) by exact D. reflexivity. }
  split; [reflexivity|]. split; [intros osc; reflexivity|]. split; [exact R|].
  cbn [_i2c _i2c_address getAddress with_i2c with_osillator_freq]. fold primary.
  rewrite register_elapse, register_after_write_same.
  split.
  - histories. rewrite (to_uint8_small prescale) by lia. reflexivity.
  - change primary with (getAddress this Normal).
    rewrite prescale_register_after_sequence. apply to_uint8_small. lia.
Qed.

Lemma begin_initialises_witness :
  exists this',
    begin (Float.of_int 1000) (sample_driver 0x11 0) = Some (tt, this') /\
    _osillator_freq this' = 25000000 /\
    register (_i2c this') 0x40 PCA9685_PRESCALE = 5.
Proof.
  destruct (begin_initialises (sample_driver 0x11 0) (Float.of_int 1000))
    as (this' & Run & Osc & _ & _ & _ & Reg).
  - vm_compute. reflexivity.
  - vm_compute. reflexivity.
  - exists this'. split; [exact Run|]. split; [exact Osc|].
    etransitivity; [exact Reg|]. vm_compute. reflexivity.
Defined.

(** ** The external clock, read back *)

Lemma prescale_register_after_setExtClock w primary address reg m1 m2 prescale m4 :
  register
    (after_read primary PCA9685_MODE1
       (after_write address PCA9685_MODE1 m4
          (after_write address PCA9685_PRESCALE prescale
             (after_write address PCA9685_MODE1 m2
                (after_write address PCA9685_MODE1 m1
                   (after_read primary reg w))))))
    address PCA9685_PRESCALE = to_uint8 prescale.
Proof.
  rewrite register_after_read.
  rewrite register_after_write_other by (right; discriminate).
  apply register_after_write_same.
Qed.

(** X15.  Whenever [setExtClock extFreq pwmFrequency] at the driver's own
    address returns, the oscillator field holds the integer part of
    [extFreq], which [getOscillFrequency] then reports, and
    [getPWMFrequency] called next returns
    [osc div (4096 * (prescale + 1))] for that integer and the prescale
    the call has just written. *)
Theorem getPWMFrequency_after_setExtClock :
  forall (this this' : PCA9685_Driver) (extFreq pwmFrequency : Float.float),
    setExtClock extFreq pwmFrequency Normal this = Some (tt, this') ->
    exists (osc prescale : Z) (this'' : PCA9685_Driver),
      Float.truncate extFreq = Some osc /\ 0 <= osc <= UINT32_MAX /\
      prescaler osc pwmFrequency = Some prescale /\
      register (_i2c this') (_i2c_address this) PCA9685_PRESCALE = prescale /\
      getOscillFrequency this' = Some (osc, this') /\
      getPWMFrequency this' =
        Some (Float.of_int (osc / (4096 * (prescale + 1))), this'').
Proof.
  intros this this' extFreq pwmFrequency Run.
  destruct (Float.to_uint32 extFreq) as [osc|] eqn:E.
  - destruct (prescaler osc pwmFrequency) as [prescale|] eqn:Pr.
    + rewrite (setExtClock_run _ _ _ _ osc prescale E Pr) in Run. cbv zeta in Run.
      injection Run as <-.
      pose proof (to_unsigned_range _ _ _ E) as Hr.
      pose proof (prescaler_range _ _ _ Pr) as Hp.
      exists osc, prescale. eexists.
      split.
      { unfold Float.to_uint32, Float.to_unsigned in E.
        destruct (Float.truncate extFreq) as [n|]; [|discriminate].
        destruct ((0 <=? n) && (n <=? UINT32_MAX)); [|discriminate].
        exact E. }
      split; [exact Hr|]. split; [exact Pr|].
      split; [|split; [reflexivity|]].
      * cbn [_i2c with_i2c getAddress].
        rewrite prescale_register_after_setExtClock. apply to_uint8_small. lia.
      * rewrite getPWMFrequency_run.
        cbn [_i2c _i2c_address _osillator_freq with_i2c with_osillator_freq getAddress].
        rewrite prescale_register_after_setExtClock, to_uint8_idem.
        rewrite (to_uint8_small prescale) by lia. reflexivity.
    + rewrite setExtClock_undefined in Run by (rewrite E; exact Pr). discriminate.
  - rewrite setExtClock_undefined in Run by (rewrite E; exact I). discriminate.
Qed.

Lemma getPWMFrequency_after_setExtClock_witness :
  exists this' this'',
    setExtClock frequency_1000000_5 (Float.of_int 50) Normal (sample_driver 0x01 OSC_FREQ) =
      Some (tt, this') /\
    getOscillFrequency this' = Some (1000000, this') /\
    getPWMFrequency this' = Some (Float.of_int 48, this'').
Proof.
  destruct (setExtClock frequency_1000000_5 (Float.of_int 50) Normal
              (sample_driver 0x01 OSC_FREQ)) as [[[] this']|] eqn:Run.
  - destruct (getPWMFrequency_after_setExtClock _ _ _ _ Run)
      as (osc & prescale & this'' & T & _ & Pr & _ & Osc & Get).
    assert (Eo : osc = 1000000) by (vm_compute in T; congruence).
    subst osc.
    assert (Ep : prescale = 4) by (vm_compute in Pr; congruence).
    subst prescale.
    exists this', this''. split; [reflexivity|]. split; [exact Osc|exact Get].
  - rewrite (setExtClock_run _ _ _ _ 1000000 4) in Run by (vm_compute; reflexivity).
    discriminate Run.
Defined.

(** ** How far the prescale is from the formula *)

Lemma of_int_near n :
  0 < n < 2 ^ 32 ->
  exists m e, Float.of_int n = S754_finite false m e /\
    bounded Float.prec32 Float.emax32 m e = true /\
    (inject_Z n - 256 <= F2Q false m e <= inject_Z n + 256)%Q.
Proof.
  intros H. destruct n as [|p|p]; try lia. unfold Float.of_int. cbn [binary_normalize].
  unfold binary_round.
  change (Z.pos (digits2_pos p)) with (Zdigits2 (Z.pos p)).
  remember (Zdigits2 (Z.pos p) + 0) as g eqn:Eg.
  assert (Dp : 0 < Zdigits2 (Z.pos p) <= 32).
  { split; [reflexivity|]. apply Zdigits2_lt_pow; lia. }
  assert (F : fexp Float.prec32 Float.emax32 g = g - 24).
  { unfold fexp, SpecFloat.emin, Float.prec32, Float.emax32. lia. }
  destruct (shl_align_spec p 0 (fexp Float.prec32 Float.emax32 g)) as [S1 S2].
  destruct (shl_align p 0 (fexp Float.prec32 Float.emax32 g)) as [mz ez]. cbn [fst snd] in S1, S2.
  rewrite F in *.
  assert (Gz : Zdigits2 (Z.pos mz) + ez = g).
  { rewrite S2. rewrite Zdigits2_mul_pow2 by lia. lia. }
  destruct (binary_round_aux_spec Float.prec32 Float.emax32 (proj1 prec32_ok) (proj2 prec32_ok)
              false (Z.pos mz) ez loc_Exact)
    as (m2 & e2 & m' & R & Bd & B & Ex & V & Be & Gm);
    try rewrite Gz; try rewrite F; try (unfold SpecFloat.emin, Float.prec32, Float.emax32; lia).
  rewrite Gz, F in *.
  exists m2, e2. split; [exact R|]. split; [exact Bd|].
  unfold F2Q. cbn [cond_Zopp].
  rewrite (dy_align _ e2 (g - 24)) by lia. rewrite V.
  destruct (Z_le_gt_dec g 24) as [L|G].
  - (* the integer fits the mantissa *)
    replace ez with (g - 24) in * by lia.
    replace (g - 24 - (g - 24)) with 0 in B, Ex by lia.
    rewrite Z.pow_0_r, Z.div_1_r in B, Ex.
    rewrite (Ex eq_refl (Z.divide_1_l _)).
    replace (0 - Z.min 0 (g - 24)) with (0 - (g - 24)) in S2 by lia.
    rewrite S2, dy_shift by lia.
    replace (g - 24 + (0 - (g - 24))) with 0 by lia. rewrite dy_Z. lra.
  - (* the low bits are rounded away *)
    replace ez with 0 in * by lia.
    replace (0 - Z.min 0 (g - 24)) with 0 in S2 by lia.
    rewrite Z.mul_1_r in S2. rewrite S2 in B.
    replace (g - 24 - 0) with (g - 24) in B by lia.
    rewrite <- (dy_shift m' (g - 24) 0) by lia. rewrite dy_Z.
    pose proof (pow2_pos (g - 24) ltac:(lia)) as PP.
    assert (P8 : 2 ^ (g - 24) <= 256).
    { change 256 with (2 ^ 8). apply pow2_le; lia. }
    pose proof (Z.div_mod (Z.pos p) (2 ^ (g - 24)) ltac:(lia)) as DM.
    pose proof (Z.mod_pos_bound (Z.pos p) (2 ^ (g - 24)) PP) as MB.
    assert (A : Z.pos p <= m' * 2 ^ (g - 24) + 256 /\
                m' * 2 ^ (g - 24) <= Z.pos p + 256) by nia.
    destruct A as [A1 A2].
    rewrite Zle_Qle, inject_Z_plus in A1, A2.
    change (inject_Z 256) with 256%Q in A1, A2.
    lra.
Qed.

Lemma dy_mul a e b f : (dy a e * dy b f == dy (a * b) (e + f))%Q.
Proof. unfold dy. rewrite inject_Z_mult, bpow_add. ring. Qed.

Lemma dy_one_bpow e : (dy 1 e == bpow e)%Q.
Proof. unfold dy. ring. Qed.

Lemma div_faithful mX eX mY eY :
  (inject_Z 4 * F2Q false mY eY <= F2Q false mX eX)%Q ->
  Zdigits2 (Z.pos mX) + eX <= 33 -> 13 <= Zdigits2 (Z.pos mY) + eY ->
  exists mq eq F,
    Float.div (S754_finite false mX eX) (S754_finite false mY eY) = S754_finite false mq eq /\
    (bpow (F + 23) * F2Q false mY eY <= F2Q false mX eX)%Q /\
    ((F2Q false mq eq - bpow F) * F2Q false mY eY <= F2Q false mX eX)%Q /\
    (F2Q false mX eX <= (F2Q false mq eq + bpow F) * F2Q false mY eY)%Q.
Proof.
  intros HXY GX GY. unfold Float.div. cbn [SFdiv xorb]. unfold SFdiv_core_binary.
  remember (Zdigits2 (Z.pos mX)) as d1 eqn:Ed1.
  remember (Zdigits2 (Z.pos mY)) as d2 eqn:Ed2.
  assert (P1 : 0 < d1) by (subst d1; reflexivity).
  assert (P2 : 0 < d2) by (subst d2; reflexivity).
  assert (Dl : d2 + eY + 2 <= d1 + eX).
  { assert (A : (bpow (d2 + eY - 1) <= F2Q false mY eY)%Q).
    { apply bpow_le_dy; [reflexivity|]. cbn [cond_Zopp]. lia. }
    assert (A2 : (bpow (d2 + eY + 1) <= F2Q false mX eX)%Q).
    { eapply Qle_trans; [|exact HXY].
      replace (d2 + eY + 1) with (2 + (d2 + eY - 1)) by lia. rewrite bpow_add.
      change (bpow 2) with (inject_Z 4). apply Qmult_le_l; [reflexivity|exact A]. }
    apply bpow_le_dy in A2; [|reflexivity]. cbn [cond_Zopp] in A2. lia. }
  remember (d1 + eX - (d2 + eY)) as D eqn:ED.
  rewrite (fexp32_normal D) by lia.
  remember (Z.min (D - 24) (eX - eY)) as e' eqn:Ee'.
  remember (eX - eY - e') as s eqn:Es.
  assert (Hs : 0 <= s) by lia.
  set (m' := match s with Z.pos _ => Z.shiftl (Z.pos mX) s | 0 => Z.pos mX | Z.neg _ => 0 end).
  assert (Hm' : m' = Z.pos mX * 2 ^ s).
  { unfold m'. destruct s as [|p|p]; [lia| |lia]. apply Z.shiftl_mul_pow2. lia. }
  clearbody m'.
  pose proof (div_eucl_div m' (Z.pos mY)) as Q0.
  pose proof (Z.div_mod m' (Z.pos mY) ltac:(lia)) as DM.
  pose proof (Z.mod_pos_bound m' (Z.pos mY) ltac:(lia)) as MB.
  destruct (Z.div_eucl m' (Z.pos mY)) as [q0 r]. cbn [fst] in Q0.
  rewrite <- Q0 in DM.
  pose proof (Zdigits2_bounds (Z.pos mX) ltac:(lia)) as BX. rewrite <- Ed1 in BX.
  pose proof (Zdigits2_bounds (Z.pos mY) ltac:(lia)) as BY. rewrite <- Ed2 in BY.
  pose proof (pow2_pos s Hs) as Ps.
  unfold F2Q in *. cbn [cond_Zopp] in *.
  assert (X4 : (dy (Z.pos mX) eX == dy m' (eY + e'))%Q).
  { rewrite Hm', dy_shift by lia. replace (eY + e' + s) with eX by lia. reflexivity. }
  assert (L4 : 2 ^ (2 - e') <= q0).
  { rewrite Q0. apply Z.div_le_lower_bound; [lia|].
    assert (Y4 : (inject_Z 4 * dy (Z.pos mY) eY == dy (Z.pos mY * 2 ^ (2 - e')) (eY + e'))%Q).
    { rewrite dy_shift by lia. replace (eY + e' + (2 - e')) with (eY + 2) by lia.
      unfold dy. rewrite bpow_add. change (bpow 2) with (inject_Z 4). ring. }
    rewrite Y4, X4 in HXY. apply dy_le_same_exp in HXY. lia. }
  pose proof (pow2_pos (2 - e') ltac:(lia)) as P4.
  assert (Hq : 0 < q0) by lia.
  assert (Lq : 2 ^ (D - e' - 1) <= q0).
  { rewrite Q0. apply Z.div_le_lower_bound; [lia|].
    assert (2 ^ (d1 + s - 1) = 2 ^ d2 * 2 ^ (D - e' - 1)).
    { rewrite <- pow2_add by lia. f_equal. lia. }
    assert (2 ^ (d1 + s - 1) = 2 ^ (d1 - 1) * 2 ^ s).
    { rewrite <- pow2_add by lia. f_equal. lia. }
    pose proof (pow2_pos (D - e' - 1) ltac:(lia)). nia. }
  assert (Uq : q0 < 2 ^ (D - e' + 1)).
  { rewrite Q0. apply Z.div_lt_upper_bound; [lia|].
    assert (2 ^ (d1 + s) = 2 ^ (d2 - 1) * 2 ^ (D - e' + 1)).
    { rewrite <- pow2_add by lia. f_equal. lia. }
    assert (2 ^ (d1 + s) = 2 ^ d1 * 2 ^ s).
    { rewrite <- pow2_add by lia. f_equal. }
    pose proof (pow2_pos (D - e' + 1) ltac:(lia)). nia. }
  assert (Gq : 3 <= Zdigits2 q0 + e' <= D + 1 /\ D <= Zdigits2 q0 + e').
  { apply Zdigits2_ge_pow in L4; [|lia|lia].
    apply Zdigits2_ge_pow in Lq; [|lia|lia].
    apply Zdigits2_lt_pow in Uq; [|lia|lia]. lia. }
  remember (Zdigits2 q0 + e') as g eqn:Eg.
  destruct (binary_round_aux_spec Float.prec32 Float.emax32 (proj1 prec32_ok) (proj2 prec32_ok)
              false q0 e' (new_location (Z.pos mY) r))
    as (m2 & e2 & m'' & R & Bd & B & _ & V & Be & Gm).
  - exact Hq.
  - rewrite <- Eg. unfold SpecFloat.emin, Float.prec32, Float.emax32. lia.
  - rewrite <- Eg. rewrite fexp32_normal by lia. lia.
  - rewrite <- Eg. unfold Float.emax32. lia.
  - rewrite <- Eg in *. rewrite (fexp32_normal g) in * by lia.
    exists m2, e2, (g - 24). split; [exact R|].
    set (k := g - 24 - e') in *.
    assert (Hk : 0 <= k) by (unfold k; lia).
    pose proof (pow2_pos k Hk) as Pk.
    pose proof (Z.div_mod q0 (2 ^ k) ltac:(lia)) as DMk.
    pose proof (Z.mod_pos_bound q0 (2 ^ k) Pk) as MBk.
    set (a := q0 / 2 ^ k) in *.
    assert (Vq : (dy (Z.pos m2) e2 == dy m'' (g - 24))%Q).
    { rewrite (dy_align _ e2 (g - 24)) by lia. rewrite V. reflexivity. }
    assert (Ypos : (0 < dy (Z.pos mY) eY)%Q) by (apply dy_pos; lia).
    assert (Lo : (dy q0 e' * dy (Z.pos mY) eY <= dy (Z.pos mX) eX)%Q).
    { rewrite X4, dy_mul, (Z.add_comm e' eY). apply dy_le_same_exp. nia. }
    assert (Hi : (dy (Z.pos mX) eX <= dy (q0 + 1) e' * dy (Z.pos mY) eY)%Q).
    { rewrite X4, dy_mul, (Z.add_comm e' eY). apply dy_le_same_exp. nia. }
    assert (Fa : forall x, (dy x (g - 24) == dy (x * 2 ^ k) e')%Q).
    { intros x. rewrite dy_shift by lia. unfold k.
      replace (e' + (g - 24 - e')) with (g - 24) by lia. reflexivity. }
    split; [|split].
    + (* the magnitude *)
      eapply Qle_trans; [|exact Lo].
      apply Qmult_le_compat_r; [|apply Qlt_le_weak; exact Ypos].
      replace (g - 24 + 23) with (e' + (Zdigits2 q0 - 1)) by lia.
      rewrite <- dy_one_bpow, <- dy_shift by (pose proof (Zdigits2_pos q0 Hq); lia).
      apply dy_le_same_exp. pose proof (Zdigits2_bounds q0 Hq). lia.
    + eapply Qle_trans; [|exact Lo].
      apply Qmult_le_compat_r; [|apply Qlt_le_weak; exact Ypos].
      rewrite Vq, <- dy_one_bpow, dy_sub, Fa. apply dy_le_same_exp. nia.
    + eapply Qle_trans; [exact Hi|].
      apply Qmult_le_compat_r; [|apply Qlt_le_weak; exact Ypos].
      rewrite Vq, <- dy_one_bpow, dy_add, Fa. apply dy_le_same_exp. nia.
Qed.

Lemma quotient_accuracy osc f vf :
  16384 <= osc <= UINT32_MAX ->
  Float.positive32 f vf -> (1 <= vf <= inject_Z (upper_limit osc))%Q ->
  (inject_Z osc / (4096 * vf) - (1 # 4) < value (quotient osc f)
   < inject_Z osc / (4096 * vf) + (1 # 4))%Q.
Proof.
  intros Hosc Pf [Hf1 Hf2].
  pose proof (upper_limit_range osc Hosc) as Hu.
  destruct Pf as (mf & ef & -> & Bf & Vf).
  assert (Gf : 1 <= Zdigits2 (Z.pos mf) + ef <= 100).
  { split.
    - assert (A : (bpow 0 <= dy (Z.pos mf) ef)%Q).
      { change (bpow 0) with 1%Q. unfold F2Q in Vf. cbn [cond_Zopp] in Vf. rewrite Vf. exact Hf1. }
      apply bpow_le_dy in A; lia.
    - assert (A : (dy (Z.pos mf) ef < bpow 18)%Q).
      { unfold F2Q in Vf. cbn [cond_Zopp] in Vf. rewrite Vf.
        eapply Qle_lt_trans; [exact Hf2|].
        change (bpow 18) with (inject_Z 262144). rewrite <- Zlt_Qlt. lia. }
      apply dy_lt_bpow in A; lia. }
  destruct (mul_4096 mf ef Bf Gf) as (mY & eY & EY & BY & VY).
  assert (GY : 13 <= Zdigits2 (Z.pos mY) + eY).
  { assert (A : (bpow 12 <= dy (Z.pos mY) eY)%Q).
    { unfold F2Q in VY. cbn [cond_Zopp] in VY. rewrite VY.
      change (bpow 12) with 4096%Q. change (inject_Z 4096) with 4096%Q.
      rewrite Vf. lra. }
    apply bpow_le_dy in A; lia. }
  assert (Ho : 0 < osc < 2 ^ 32).
  { unfold UINT32_MAX in Hosc. change (2 ^ 32) with 4294967296. lia. }
  destruct (of_int_uint32 osc Ho) as (mX & eX & EX & BX & VX & GX).
  destruct (of_int_near osc Ho) as (mX' & eX' & EX' & _ & NX).
  rewrite EX in EX'. injection EX' as <- <-.
  assert (HXY : (inject_Z 4 * F2Q false mY eY <= F2Q false mX eX)%Q).
  { eapply Qle_trans; [|exact VX]. rewrite VY, Vf.
    fold (upper_limit osc). rewrite inject_Z_mult.
    change (inject_Z 4) with 4%Q. change (inject_Z 4096) with 4096%Q.
    change (inject_Z 16384) with 16384%Q. lra. }
  destruct (div_faithful mX eX mY eY HXY GX GY) as (mq & eq & F & Eq & Mag & Lo & Hi).
  assert (Q : quotient osc (S754_finite false mf ef) = S754_finite false mq eq).
  { unfold quotient. rewrite EX, EY. exact Eq. }
  rewrite Q. cbn [value].
  assert (EYv : (F2Q false mY eY == 4096 * vf)%Q).
  { rewrite VY, Vf. change (inject_Z 4096) with 4096%Q. reflexivity. }
  set (vq := F2Q false mq eq) in *. set (X := F2Q false mX eX) in *.
  set (Y := F2Q false mY eY) in *.
  assert (Ypos : (0 < Y)%Q) by (rewrite EYv; lra).
  rewrite <- EYv.
  assert (Ipos : (0 < / Y)%Q) by (apply Qinv_lt_0_compat; exact Ypos).
  assert (I1 : (Y * / Y == 1)%Q).
  { apply Qmult_inv_r. intros K. rewrite K in Ypos. inversion Ypos. }
  assert (I2 : (4096 * / Y <= Y * / Y)%Q).
  { apply Qmult_le_compat_r; [rewrite EYv; lra|apply Qlt_le_weak; exact Ipos]. }
  apply Qle_shift_div_l in Mag; [|exact Ypos].
  apply Qle_shift_div_l in Lo; [|exact Ypos].
  apply Qle_shift_div_r in Hi; [|exact Ypos].
  unfold Qdiv in *.
  assert (B23 : (bpow (F + 23) == bpow F * 8388608)%Q).
  { rewrite bpow_add. change (bpow 23) with 8388608%Q. reflexivity. }
  rewrite B23 in Mag.
  destruct NX as [N1 N2].
  assert (M1 : ((inject_Z osc - 256) * / Y <= X * / Y)%Q).
  { apply Qmult_le_compat_r; [exact N1|apply Qlt_le_weak; exact Ipos]. }
  assert (M2 : (X * / Y <= (inject_Z osc + 256) * / Y)%Q).
  { apply Qmult_le_compat_r; [exact N2|apply Qlt_le_weak; exact Ipos]. }
  assert (M3 : (inject_Z osc * / Y <= 4294967296 * / Y)%Q).
  { apply Qmult_le_compat_r; [|apply Qlt_le_weak; exact Ipos].
    change 4294967296%Q with (inject_Z 4294967296). rewrite <- Zle_Qle. lia. }
  assert (Bp : (0 < bpow F)%Q) by apply bpow_pos.
  set (iy := (/ Y)%Q) in *. set (b := bpow F) in *. set (o := inject_Z osc) in *.
  clearbody iy b o vq X Y.
  split; lra.
Qed.

Lemma Qfloor_plus_1 x : Qfloor (x + 1) = Qfloor x + 1.
Proof.
  pose proof (Qfloor_minus_1 (x + 1)) as H.
  assert (E : Qfloor (x + 1 - 1) = Qfloor x) by (apply Qfloor_comp; ring).
  lia.
Qed.

(** X16.  For every oscillator frequency from 16384 Hz up and every
    target within the limits, the single-precision quotient the code forms
    is less than 1/4 away from the exact quotient
    [osc / (4096 * frequency)], so the prescale written differs from the
    formula of the source comment,
    [round(osc_clock / (4096 * frequency)) - 1] kept within [3, 255], by at
    most one; and the two agree whenever the exact quotient is not within
    1/4 of a rounding boundary (a whole number plus one half). *)
Theorem prescaler_within_one :
  forall (osc : Z) (frequency : Float.float),
    16384 <= osc <= UINT32_MAX ->
    valid_binary Float.prec32 Float.emax32 frequency = true ->
    (1 <= value frequency <= inject_Z (upper_limit osc))%Q ->
    let exact := (inject_Z osc / (4096 * value frequency))%Q in
    exists prescale,
      prescaler osc frequency = Some prescale /\
      (exact - (1 # 4) < value (quotient osc frequency) < exact + (1 # 4))%Q /\
      spec_prescale osc (value frequency) - 1 <= prescale
        <= spec_prescale osc (value frequency) + 1 /\
      (Qfloor (exact + (1 # 4)) = Qfloor (exact + (3 # 4)) ->
       prescale = spec_prescale osc (value frequency)).
Proof.
  intros osc frequency Hosc V H exact.
  assert (P : Float.positive32 frequency (value frequency)).
  { apply positive32_of_valid; [exact V|lra]. }
  pose proof (limit_frequency_id _ _ _ Hosc P H) as L.
  destruct (prescaler_limited _ _ _ Hosc P H) as (E & _ & _).
  pose proof (quotient_accuracy osc frequency _ Hosc P H) as [A1 A2].
  fold exact in A1, A2.
  exists (round_minus_one_clamped (value (quotient osc frequency))).
  split; [unfold prescaler; rewrite L; exact E|].
  split; [split; assumption|].
  unfold spec_prescale. fold exact. unfold round_minus_one_clamped.
  set (vq := value (quotient osc frequency)) in *.
  assert (F1 : Qfloor (exact + (1 # 4)) <= Qfloor (vq + (1 # 2))).
  { apply Qfloor_resp_le. lra. }
  assert (F2 : Qfloor (vq + (1 # 2)) <= Qfloor (exact + (3 # 4))).
  { apply Qfloor_resp_le. lra. }
  assert (F3 : Qfloor (exact + (1 # 4)) <= Qfloor (exact + (1 # 2))).
  { apply Qfloor_resp_le. lra. }
  assert (F4 : Qfloor (exact + (1 # 2)) <= Qfloor (exact + (3 # 4))).
  { apply Qfloor_resp_le. lra. }
  assert (F5 : Qfloor (exact + (3 # 4)) <= Qfloor (exact + (1 # 4)) + 1).
  { rewrite <- Qfloor_plus_1. apply Qfloor_resp_le. lra. }
  split; [lia|]. intros K. lia.
Qed.

Lemma prescaler_within_one_witness :
  exists prescale,
    prescaler OSC_FREQ frequency_72_23 = Some prescale /\
    spec_prescale OSC_FREQ (value frequency_72_23) - 1 <= prescale
      <= spec_prescale OSC_FREQ (value frequency_72_23) + 1.
Proof.
  destruct (prescaler_within_one OSC_FREQ frequency_72_23)
    as (prescale & Pr & _ & Range & _).
  - vm_compute. split; discriminate.
  - vm_compute. reflexivity.
  - split; vm_compute; discriminate.
  - exists prescale. split; [exact Pr|exact Range].
Defined.

(** ** What the calls leave alone *)

Lemma register_burst_other a bytes w a' r :
  a' <> a -> register (burst a bytes w) a' r = register w a' r.
Proof.
  intros H. unfold register, burst. cbn [devices].
  rewrite update_other by exact H. reflexivity.
Qed.

Lemma call_keeps_oscillator c this this' :
  sets_oscillator c = false ->
  call c this = Some (tt, this') -> _osillator_freq this' = _osillator_freq this.
Proof.
  destruct c; cbn [sets_oscillator]; try discriminate; intros _;
    cbn [call]; unfold discard, bind.
  - rewrite restart_run. intros H. injection H as <-. reflexivity.
  - rewrite sleep_run. intros H. injection H as <-. reflexivity.
  - rewrite wakeUp_run. intros H. injection H as <-. reflexivity.
  - rewrite setMode1_run. intros H. injection H as <-. reflexivity.
  - rewrite setMode2_run. intros H. injection H as <-. reflexivity.
  - rewrite readRegister_run. intros H. injection H as <-. reflexivity.
  - rewrite writeRegister_run. intros H. injection H as <-. reflexivity.
  - destruct (prescaler (_osillator_freq this) frequency) as [prescale|] eqn:Pr.
    + rewrite (setPWMFrequency_run _ _ _ prescale) by exact Pr. cbv zeta.
      intros H. injection H as <-. reflexivity.
    + rewrite setPWMFrequency_undefined by exact Pr. discriminate.
  - rewrite getPWMFrequency_run. intros H. injection H as <-. reflexivity.
  - rewrite setOutputType_run. intros H. injection H as <-. reflexivity.
  - rewrite setPWMOutput_run. intros H. injection H as <-. reflexivity.
  - rewrite setAllPWMOutputs_run. intros H. injection H as <-. reflexivity.
  - cbn. intros H. injection H as <-. reflexivity.
Qed.

Lemma getter_keeps_registers c this this' :
  getter c = true ->
  call c this = Some (tt, this') ->
  _osillator_freq this' = _osillator_freq this /\
  forall address reg, register (_i2c this') address reg = register (_i2c this) address reg.
Proof.
  destruct c; cbn [getter]; try discriminate; intros _;
    cbn [call]; unfold discard, bind.
  - rewrite readRegister_run. intros H. injection H as <-. split; [reflexivity|].
    intros address reg. cbn [_i2c with_i2c]. apply register_after_read.
  - rewrite getPWMFrequency_run. intros H. injection H as <-. split; [reflexivity|].
    intros address reg. cbn [_i2c with_i2c]. apply register_after_read.
  - cbn. intros H. injection H as <-. split; reflexivity.
Qed.

(** X17.  Only [begin], [setExtClock] and [setOscillFrequency] assign the
    oscillator field: a sequence of any other calls that runs to its end
    leaves the field, and with it the result of [getOscillFrequency], as
    it was.  In particular [setPWMFrequency] never adjusts it. *)
Theorem calls_keep_oscillator :
  forall (cs : list Call) (this this' : PCA9685_Driver),
    forallb (fun c => negb (sets_oscillator c)) cs = true ->
    calls cs this = Some (tt, this') ->
    _osillator_freq this' = _osillator_freq this /\
    returned (getOscillFrequency this') = returned (getOscillFrequency this).
Proof.
  assert (K : forall cs this this',
             forallb (fun c => negb (sets_oscillator c)) cs = true ->
             calls cs this = Some (tt, this') ->
             _osillator_freq this' = _osillator_freq this).
  { induction cs as [|c rest IH]; intros this this' F Run.
    - cbn in Run. injection Run as <-. reflexivity.
    - cbn [forallb] in F. apply andb_prop in F. destruct F as [Fc Fr].
      apply negb_true_iff in Fc.
      cbn [calls] in Run. unfold bind in Run.
      destruct (call c this) as [[[] middle]|] eqn:First; [|discriminate].
      rewrite (IH middle this' Fr Run). apply (call_keeps_oscillator c _ _ Fc First). }
  intros cs this this' F Run. pose proof (K cs this this' F Run) as E.
  split; [exact E|]. unfold getOscillFrequency, this_field, returned. cbn. rewrite E.
  reflexivity.
Qed.

Lemma calls_keep_oscillator_witness :
  exists this',
    calls [SetPWMFrequency (Float.of_int 50) Normal; Sleep Normal; SetMode2 0x04 Normal;
           SetPWMOutput 3 0 2048 Normal; GetPWMFrequency]
      (sample_driver 0x11 27000000) = Some (tt, this') /\
    _osillator_freq this' = 27000000.
Proof.
  destruct (calls [SetPWMFrequency (Float.of_int 50) Normal; Sleep Normal;
                   SetMode2 0x04 Normal; SetPWMOutput 3 0 2048 Normal; GetPWMFrequency]
              (sample_driver 0x11 27000000)) as [[[] this']|] eqn:Run.
  - exists this'. split; [reflexivity|].
    apply (fun F => proj1 (calls_keep_oscillator _ _ _ F Run)). reflexivity.
  - vm_compute in Run. discriminate Run.
Defined.

(** X18.  The three reporting calls, [readRegister], [getPWMFrequency]
    and [getOscillFrequency], write nothing: over any sequence of them no
    register of any chip changes and the oscillator field stays as it
    was, so a value read is read again by the next such call. *)
Theorem getters_write_nothing :
  forall (cs : list Call) (this this' : PCA9685_Driver),
    forallb getter cs = true ->
    calls cs this = Some (tt, this') ->
    _osillator_freq this' = _osillator_freq this /\
    (forall address reg,
       register (_i2c this') address reg = register (_i2c this) address reg) /\
    (forall reg, returned (readRegister reg this') = returned (readRegister reg this)) /\
    returned (getPWMFrequency this') = returned (getPWMFrequency this).
Proof.
  assert (K : forall cs this this',
             forallb getter cs = true ->
             calls cs this = Some (tt, this') ->
             same_addresses this this' /\
             _osillator_freq this' = _osillator_freq this /\
             forall address reg,
               register (_i2c this') address reg = register (_i2c this) address reg).
  { induction cs as [|c rest IH]; intros this this' F Run.
    - cbn in Run. injection Run as <-. split; [repeat split|]. split; reflexivity.
    - cbn [forallb] in F. apply andb_prop in F. destruct F as [Fc Fr].
      cbn [calls] in Run. unfold bind in Run.
      destruct (call c this) as [[[] middle]|] eqn:First; [|discriminate].
      destruct (getter_keeps_registers c _ _ Fc First) as (O1 & R1).
      destruct (call_keeps_addresses c _ _ First) as (S1 & _).
      destruct (IH middle this' Fr Run) as (S2 & O2 & R2).
      split; [|split].
      + destruct S1 as (A0 & A1 & A2 & A3 & A4), S2 as (B0 & B1 & B2 & B3 & B4).
        repeat split; congruence.
      + congruence.
      + intros address reg. rewrite R2. apply R1. }
  intros cs this this' F Run.
  destruct (K cs this this' F Run) as ((A0 & _) & O & R).
  split; [exact O|]. split; [exact R|]. split.
  - intros reg. rewrite !readRegister_run. cbn [returned option_map fst].
    rewrite A0, R. reflexivity.
  - rewrite !getPWMFrequency_run. cbn [returned option_map fst].
    rewrite A0, O, R. reflexivity.
Qed.

Lemma getters_write_nothing_witness :
  exists this',
    calls [ReadRegister PCA9685_MODE1; GetPWMFrequency; GetOscillFrequency;
           ReadRegister PCA9685_PRESCALE]
      (sample_driver 0x11 OSC_FREQ) = Some (tt, this') /\
    returned (readRegister PCA9685_MODE1 this') = Some 0x11.
Proof.
  destruct (calls [ReadRegister PCA9685_MODE1; GetPWMFrequency; GetOscillFrequency;
                   ReadRegister PCA9685_PRESCALE]
              (sample_driver 0x11 OSC_FREQ)) as [[[] this']|] eqn:Run.
  - exists this'. split; [reflexivity|].
    assert (F : forallb getter [ReadRegister PCA9685_MODE1; GetPWMFrequency;
                                GetOscillFrequency; ReadRegister PCA9685_PRESCALE] = true)
      by reflexivity.
    destruct (getters_write_nothing _ _ _ F Run) as (_ & _ & Read & _).
    rewrite Read. reflexivity.
  - vm_compute in Run. discriminate Run.
Defined.

(** ** The registers of one output *)

Lemma register_burst_four a r b0 b1 b2 b3 w x :
  0 <= r -> r + 3 < 256 -> 0 <= x < 256 ->
  register (burst a [r; b0; b1; b2; b3] w) a x =
  if x =? r + 3 then b3
  else if x =? r + 2 then b2
  else if x =? r + 1 then b1
  else if x =? r then b0
  else register w a x.
Proof.
  intros H0 H3 Hx. unfold register, burst. cbn [devices].
  rewrite update_same. cbn [deliver registers store]. unfold update.
  rewrite (Z.mod_small x), (Z.mod_small r), (Z.mod_small (r + 1)),
    (Z.mod_small (r + 1 + 1)), (Z.mod_small (r + 1 + 1 + 1)) by lia.
  replace (r + 1 + 1 + 1) with (r + 3) by lia.
  replace (r + 1 + 1) with (r + 2) by lia.
  reflexivity.
Qed.

(** X19.  On a chip that stores the bytes of a transmission in
    consecutive registers (register auto-increment, the mode
    [setPWMFrequency] and [setExtClock] switch on), [setPWMOutput] for an
    output 0..15 fills exactly the four registers [6 + 4 * output] to
    [9 + 4 * output] of the selected address with the low and high bytes of
    [on] and [off]; every other register, the mode and prescale registers
    and the registers of the other fifteen outputs among them, keeps its
    value, as does every chip at another address. *)
Theorem setPWMOutput_registers :
  forall (this : PCA9685_Driver) (output on off : Z) (addressType : EAddressType),
    0 <= output <= 15 -> 0 <= on < 65536 -> 0 <= off < 65536 ->
    let address := getAddress this addressType in
    let base := PCA9685_LED0_ON_L + 4 * output in
    exists this',
      setPWMOutput output on off addressType this = Some (tt, this') /\
      PCA9685_LED0_ON_L <= base /\ base + 3 <= 0x45 /\
      register (_i2c this') address base = on mod 256 /\
      register (_i2c this') address (base + 1) = on / 256 /\
      register (_i2c this') address (base + 2) = off mod 256 /\
      register (_i2c this') address (base + 3) = off / 256 /\
      (forall reg, 0 <= reg < 256 -> reg < base \/ base + 3 < reg ->
         register (_i2c this') address reg = register (_i2c this) address reg) /\
      (forall other reg, other <> address ->
         register (_i2c this') other reg = register (_i2c this) other reg).
Proof.
  intros this output on off addressType Ho Hon Hoff address base.
  assert (Hb : 6 <= base <= 66) by (unfold base, PCA9685_LED0_ON_L; lia).
  eexists. split; [apply setPWMOutput_run|].
  cbn [_i2c with_i2c]. fold address. fold base.
  rewrite !high_byte, !low_byte by lia.
  rewrite (to_uint8_small base) by lia.
  split; [unfold PCA9685_LED0_ON_L; lia|]. split; [lia|].
  split; [|split; [|split; [|split; [|split]]]].
  - rewrite register_burst_four by lia.
    destruct (Z.eqb_spec base (base + 3)); [lia|].
    destruct (Z.eqb_spec base (base + 2)); [lia|].
    destruct (Z.eqb_spec base (base + 1)); [lia|].
    rewrite Z.eqb_refl. reflexivity.
  - rewrite register_burst_four by lia.
    destruct (Z.eqb_spec (base + 1) (base + 3)); [lia|].
    destruct (Z.eqb_spec (base + 1) (base + 2)); [lia|].
    rewrite Z.eqb_refl. reflexivity.
  - rewrite register_burst_four by lia.
    destruct (Z.eqb_spec (base + 2) (base + 3)); [lia|].
    rewrite Z.eqb_refl. reflexivity.
  - rewrite register_burst_four by lia.
    rewrite Z.eqb_refl. reflexivity.
  - intros reg Hr Hout. rewrite register_burst_four by lia.
    destruct (Z.eqb_spec reg (base + 3)); [lia|].
    destruct (Z.eqb_spec reg (base + 2)); [lia|].
    destruct (Z.eqb_spec reg (base + 1)); [lia|].
    destruct (Z.eqb_spec reg base); [lia|]. reflexivity.
  - intros other reg Hne. apply register_burst_other. exact Hne.
Qed.

Lemma setPWMOutput_registers_witness :
  exists this',
    setPWMOutput 15 0x0123 0x0ABC Normal (sample_driver 0x21 OSC_FREQ) = Some (tt, this') /\
    register (_i2c this') 0x40 0x42 = 0x23 /\
    register (_i2c this') 0x40 0x45 = 0x0A /\
    register (_i2c this') 0x40 PCA9685_MODE1 = 0x21.
Proof.
  destruct (setPWMOutput_registers (sample_driver 0x21 OSC_FREQ) 15 0x0123 0x0ABC Normal)
    as (this' & Run & _ & _ & R0 & _ & _ & R3 & Rest & _); try lia.
  exists this'. split; [exact Run|]. split; [exact R0|]. split; [exact R3|].
  etransitivity; [apply Rest|reflexivity].
  - unfold PCA9685_MODE1. lia.
  - left. unfold PCA9685_MODE1, PCA9685_LED0_ON_L. lia.
Defined.

(** ** The two ends of the range *)

Lemma prescaler_of_limited osc f :
  prescaler osc f =
  Float.to_uint8 (limit_prescale (prescale_value osc (limit_frequency osc f))).
Proof. reflexivity. Qed.

Lemma prescaler_slowest osc :
  1050624 <= osc <= UINT32_MAX ->
  Float.to_uint8 (limit_prescale (prescale_value osc (Float.of_int 1))) = Some 255.
Proof.
  intros Hosc.
  assert (Hosc' : 16384 <= osc <= UINT32_MAX) by lia.
  pose proof (upper_limit_range osc Hosc') as Hu.
  pose proof (of_int_exact 1 ltac:(cbn; lia)) as P1.
  assert (H1 : (1 <= inject_Z 1 <= inject_Z (upper_limit osc))%Q).
  { split; [apply Qle_refl|]. rewrite <- Zle_Qle. lia. }
  destruct (prescaler_limited osc _ _ Hosc' P1 H1) as (E & _ & _).
  destruct (quotient_accuracy osc _ _ Hosc' P1 H1) as [A _].
  rewrite E. f_equal. unfold round_minus_one_clamped.
  set (vq := value (quotient osc (Float.of_int 1))) in *.
  assert (HQ : (513 # 2 <= inject_Z osc / (4096 * inject_Z 1))%Q).
  { apply Qle_shift_div_l; [reflexivity|].
    change (inject_Z 1) with 1%Q.
    setoid_replace ((513 # 2) * (4096 * 1))%Q with (inject_Z 1050624) by reflexivity.
    rewrite <- Zle_Qle. lia. }
  set (exact := (inject_Z osc / (4096 * inject_Z 1))%Q) in *. clearbody exact vq.
  assert (F : 256 <= Qfloor (vq + (1 # 2))).
  { change 256 with (Qfloor 256). apply Qfloor_resp_le. clear - A HQ. lra. }
  lia.
Qed.

Lemma prescaler_fastest osc :
  262144 <= osc <= UINT32_MAX ->
  Float.to_uint8 (limit_prescale (prescale_value osc (Float.of_int (upper_limit osc)))) =
  Some 3.
Proof.
  intros Hosc.
  assert (Hosc' : 16384 <= osc <= UINT32_MAX) by lia.
  pose proof (upper_limit_range osc Hosc') as Hu.
  assert (U16 : 16 <= upper_limit osc).
  { unfold upper_limit. apply Z.div_le_lower_bound; lia. }
  pose proof (of_int_exact (upper_limit osc) ltac:(change (2 ^ 24) with 16777216; lia)) as PU.
  assert (HU : (1 <= inject_Z (upper_limit osc) <= inject_Z (upper_limit osc))%Q).
  { split; [|apply Qle_refl]. change 1%Q with (inject_Z 1). rewrite <- Zle_Qle. lia. }
  destruct (prescaler_limited osc _ _ Hosc' PU HU) as (E & _ & _).
  destruct (quotient_accuracy osc _ _ Hosc' PU HU) as [_ A].
  rewrite E. f_equal. unfold round_minus_one_clamped.
  set (vq := value (quotient osc (Float.of_int (upper_limit osc)))) in *.
  assert (HQ : (inject_Z osc / (4096 * inject_Z (upper_limit osc)) < 17 # 4)%Q).
  { apply Qlt_shift_div_r.
    - change 0%Q with (4096 * 0)%Q.
      apply Qmult_lt_l; [reflexivity|]. change 0%Q with (inject_Z 0).
      rewrite <- Zlt_Qlt. lia.
    - setoid_replace ((17 # 4) * (4096 * inject_Z (upper_limit osc)))%Q
        with (inject_Z (17408 * upper_limit osc))
        by (rewrite inject_Z_mult; change (inject_Z 17408) with 17408%Q; ring).
      rewrite <- Zlt_Qlt.
      pose proof (Z.div_mod osc 16384 ltac:(lia)) as DM.
      pose proof (Z.mod_pos_bound osc 16384 ltac:(lia)) as MB.
      unfold upper_limit in *. lia. }
  set (exact := (inject_Z osc / (4096 * inject_Z (upper_limit osc)))%Q) in *.
  clearbody exact vq.
  assert (F : Qfloor (vq + (1 # 2)) <= 4).
  { pose proof (Qfloor_le (vq + (1 # 2))) as Fl.
    assert (Lt : (inject_Z (Qfloor (vq + (1 # 2))) < inject_Z 5)%Q).
    { change (inject_Z 5) with 5%Q. clear - A HQ Fl. lra. }
    rewrite <- Zlt_Qlt in Lt. lia. }
  lia.
Qed.

(** X20.  Where the limits lead: with an oscillator frequency of at least
    1050624 Hz (the nominal 25 MHz among them) every target below 1 Hz,
    the default 0 of [setExtClock] included, is raised to 1 Hz and gives
    the slowest setting, prescale 255; with an oscillator frequency of at
    least 262144 Hz every target above the upper limit [osc / 16384] is
    lowered to it and gives the fastest setting, prescale 3. *)
Theorem prescaler_at_the_limits :
  forall (osc : Z) (frequency : Float.float),
    262144 <= osc <= UINT32_MAX ->
    (Float.ltb frequency (Float.of_int 1) = true ->
     1050624 <= osc ->
     limit_frequency osc frequency = Float.of_int 1 /\
     prescaler osc frequency = Some 255) /\
    (Float.ltb frequency (Float.of_int 1) = false ->
     Float.gtb frequency (Float.of_int (upper_limit osc)) = true ->
     limit_frequency osc frequency = Float.of_int (upper_limit osc) /\
     prescaler osc frequency = Some 3).
Proof.
  intros osc frequency Hosc. split.
  - intros L Hbig.
    pose proof (limit_frequency_below frequency osc L) as E.
    split; [exact E|]. rewrite prescaler_of_limited, E.
    apply prescaler_slowest. lia.
  - intros L G.
    assert (E : limit_frequency osc frequency = Float.of_int (upper_limit osc)).
    { unfold limit_frequency. rewrite L, G. reflexivity. }
    split; [exact E|]. rewrite prescaler_of_limited, E.
    apply prescaler_fastest. exact Hosc.
Qed.

Lemma prescaler_at_the_limits_witness :
  prescaler OSC_FREQ (Float.of_int 0) = Some 255 /\
  prescaler OSC_FREQ (Float.of_int 100000) = Some 3.
Proof.
  destruct (prescaler_at_the_limits OSC_FREQ (Float.of_int 0)) as [Low _].
  - vm_compute. split; discriminate.
  - destruct (prescaler_at_the_limits OSC_FREQ (Float.of_int 100000)) as [_ High].
    + vm_compute. split; discriminate.
    + split.
      * apply Low; [reflexivity|vm_compute; discriminate].
      * apply High; reflexivity.
Defined.

(** ** Construction *)

(** X21.  The three constructors differ only in the primary address and
    the bus they store: the default constructor takes address 0x40, and
    all three fix the all-call address at 0x70 and the three sub-call
    addresses at 0x71, 0x72, 0x73.  As no member function assigns an
    address, the five selectors resolve to these values after any sequence
    of calls that runs to its end. *)
Theorem constructed_addresses :
  forall (i2c_address : Z) (i2c Wire : TwoWire) (unset : Z) (cs : list Call)
         (this this' : PCA9685_Driver),
    this = PCA9685_Driver_0 Wire unset /\ i2c_address = PCA9685_I2C_ADDR \/
    this = PCA9685_Driver_1 i2c_address Wire unset \/
    this = PCA9685_Driver_2 i2c_address i2c unset ->
    calls cs this = Some (tt, this') ->
    getAddress this' Normal = i2c_address /\
    getAddress this' AllCall = 0x70 /\
    getAddress this' SubCall1 = 0x71 /\
    getAddress this' SubCall2 = 0x72 /\
    getAddress this' SubCall3 = 0x73.
Proof.
  intros i2c_address i2c Wire unset cs this this' Built Run.
  destruct (calls_same_addresses cs this this' Run) as (A0 & A1 & A2 & A3 & A4).
  cbn [getAddress]. rewrite A0, A1, A2, A3, A4.
  destruct Built as [[-> ->]|[->| ->]]; repeat split.
Qed.

Lemma constructed_addresses_witness :
  exists this',
    calls [Begin (Float.of_int 1000);
           WriteRegister PCA9685_ALLCALLADR 0x50 Normal;
           WriteRegister PCA9685_SUBADR1 0x52 Normal]
      (PCA9685_Driver_1 0x41 (quiet_bus 0x11) 0) = Some (tt, this') /\
    getAddress this' Normal = 0x41 /\
    getAddress this' AllCall = 0x70 /\
    getAddress this' SubCall1 = 0x71.
Proof.
  destruct (calls [Begin (Float.of_int 1000);
                   WriteRegister PCA9685_ALLCALLADR 0x50 Normal;
                   WriteRegister PCA9685_SUBADR1 0x52 Normal]
              (PCA9685_Driver_1 0x41 (quiet_bus 0x11) 0)) as [[[] this']|] eqn:Run.
  - exists this'. split; [reflexivity|].
    destruct (constructed_addresses 0x41 (quiet_bus 0x11) (quiet_bus 0x11) 0 _ _ _
                (or_intror (or_introl eq_refl)) Run) as (A0 & A1 & A2 & _).
    split; [exact A0|]. split; [exact A1|exact A2].
  - vm_compute in Run. discriminate Run.
Defined.
